(** * Declarative index definitions for GORM models: a shallow embedding

    This development embeds [gormschema/index_definition.go] and proves
    properties of its selector resolver, naming normalizer, index fragment
    assembler, tag merge and extension aggregator.

    Conventions of the embedding.
    - A Go [string] is modelled by the sequence of its code points
      ([gostring]): the strings handled here (identifiers, struct tags,
      literals) are valid UTF-8, for which [[]rune(s)] followed by
      [WriteRune] is the identity, byte-wise comparison agrees with
      code-point-wise comparison, and [strings.Split], [strings.Join],
      [strings.HasPrefix] and [strings.TrimSpace] act rune by rune.
    - A [rune] (Go's [int32]) is a [Z]; the only arithmetic on runes is
      [r + 32] for [r] in ['A'..'Z'], which cannot wrap.
    - An address ([uintptr]) is a [Z]; the nil pointer is [0].
    - A nil slice and an empty slice are both the empty list. *)

From Stdlib Require Import ZArith List Ascii String Lia.
From stdpp Require Import base list gmap strings sorting.

Set Warnings "-register-all".

(** ** Go strings *)

Definition rune := Z.
Definition gostring := list rune.

(** The code points of an ASCII literal. *)
Definition str (s : string) : gostring :=
  map (fun a => Z.of_N (N_of_ascii a)) (list_ascii_of_string s).

(** [for i, x := range l { acc = body acc i x }], started at index [i]. *)
Fixpoint for_range {A St : Type} (body : St -> nat -> A -> St)
    (i : nat) (l : list A) (acc : St) : St :=
  match l with
  | [] => acc
  | x :: l' => for_range body (S i) l' (body acc i x)
  end.

(** ** The naming normalizer: [toSnakeCase] *)

Definition is_upper (r : rune) : bool := (65 <=? r)%Z && (r <=? 90)%Z.
Definition is_lower (r : rune) : bool := (97 <=? r)%Z && (r <=? 122)%Z.

(** The body of the loop of [toSnakeCase]: [result] is the
    [strings.Builder], [runes] the converted input. *)
Definition toSnakeCase_body (runes : list rune)
    (result : gostring) (i : nat) (r : rune) : gostring :=
  if is_upper r then
    let result :=
      if (0 <? i)%nat then
        let prevLower := is_lower (nth (i - 1) runes 0%Z) in
        let nextLower :=
          (i + 1 <? length runes)%nat && is_lower (nth (i + 1) runes 0%Z) in
        if prevLower || nextLower then result ++ [95%Z] else result
      else result in
    result ++ [(r + 32)%Z]
  else result ++ [r].

Definition toSnakeCase (s : gostring) : gostring :=
  match s with
  | [] => s
  | _ =>
      let runes := s in
      for_range (toSnakeCase_body runes) 0 runes []
  end.

(** The rule of the naming normalizer as the specification words it: a
    boundary underscore goes before the rune at position [i] exactly when
    that rune is upper-case, is not the first one, and its predecessor or
    its successor is lower-case. *)
Definition boundary_before (s : gostring) (i : nat) : bool :=
  match s !! i with
  | Some r =>
      is_upper r && negb (i =? 0)%nat &&
      (match s !! (i - 1) with Some p => is_lower p | None => false end
       || match s !! (i + 1) with Some n => is_lower n | None => false end)
  | None => false
  end.

Definition lowercase (r : rune) : rune :=
  if is_upper r then (r + 32)%Z else r.

Definition snake_spec (s : gostring) : gostring :=
  concat (imap (fun i r =>
    (if boundary_before s i then [95%Z] else []) ++ [lowercase r]) s).

(** ** The [strings], [fmt] and [sort] functions the code calls *)

(** [unicode.IsSpace]: the Latin-1 spaces and the code points of the
    Unicode [White_Space] property. *)
Definition is_space (r : rune) : bool :=
  ((9 <=? r) && (r <=? 13) || (r =? 32) || (r =? 133) || (r =? 160)
   || (r =? 5760) || (8192 <=? r) && (r <=? 8202)
   || (r =? 8232) || (r =? 8233) || (r =? 8239) || (r =? 8287)
   || (r =? 12288))%Z.

Fixpoint trim_left (s : gostring) : gostring :=
  match s with
  | r :: s' => if is_space r then trim_left s' else s
  | [] => []
  end.

(** [strings.TrimSpace]: leading and trailing white space removed. *)
Definition TrimSpace (s : gostring) : gostring :=
  rev (trim_left (rev (trim_left s))).

(** [strings.HasPrefix]. *)
Fixpoint HasPrefix (s pre : gostring) : bool :=
  match pre, s with
  | [], _ => true
  | p :: pre', r :: s' => (r =? p)%Z && HasPrefix s' pre'
  | _ :: _, [] => false
  end.

(** [strings.Split(s, sep)] for a separator of one rune: the pieces
    between the occurrences of [sep]; never empty. *)
Fixpoint Split (s : gostring) (sep : rune) : list gostring :=
  match s with
  | [] => [[]]
  | r :: s' =>
      if (r =? sep)%Z then [] :: Split s' sep
      else match Split s' sep with
           | p :: ps => (r :: p) :: ps
           | [] => [[r]]
           end
  end.

(** [strings.Join]. *)
Fixpoint Join (elems : list gostring) (sep : gostring) : gostring :=
  match elems with
  | [] => []
  | [e] => e
  | e :: rest => e ++ sep ++ Join rest sep
  end.

(** The verb [%d] of [fmt.Sprintf] on a natural number. *)
Fixpoint uint_runes (d : Decimal.uint) : gostring :=
  match d with
  | Decimal.Nil => []
  | Decimal.D0 d => 48%Z :: uint_runes d
  | Decimal.D1 d => 49%Z :: uint_runes d
  | Decimal.D2 d => 50%Z :: uint_runes d
  | Decimal.D3 d => 51%Z :: uint_runes d
  | Decimal.D4 d => 52%Z :: uint_runes d
  | Decimal.D5 d => 53%Z :: uint_runes d
  | Decimal.D6 d => 54%Z :: uint_runes d
  | Decimal.D7 d => 55%Z :: uint_runes d
  | Decimal.D8 d => 56%Z :: uint_runes d
  | Decimal.D9 d => 57%Z :: uint_runes d
  end.

Definition itoa (n : nat) : gostring := uint_runes (Nat.to_uint n).

(** The order of Go strings ([<=] on [string]). *)
Fixpoint str_leb (a b : gostring) : bool :=
  match a, b with
  | [], _ => true
  | _ :: _, [] => false
  | x :: a', y :: b' => (x <? y)%Z || (x =? y)%Z && str_leb a' b'
  end.

Definition str_le (a b : gostring) : Prop := str_leb a b = true.

#[global] Instance str_le_dec (a b : gostring) : Decision (str_le a b).
Proof. unfold str_le. apply _. Defined.

(** [sort.Strings]: the sorted rearrangement is unique since [str_le] is a
    total order, so any sorting algorithm models it. *)
Definition sort_Strings (l : list gostring) : list gostring :=
  merge_sort str_le l.

(** ** Struct tags *)

Definition quote : rune := 34%Z.

(** [\w] of Go's [regexp]: [[0-9A-Za-z_]]. *)
Definition is_word (r : rune) : bool :=
  ((48 <=? r) && (r <=? 57) || (65 <=? r) && (r <=? 90)
   || (97 <=? r) && (r <=? 122) || (r =? 95))%Z.

(** [tagKV.FindAllStringSubmatch(s, -1)] for the pattern of [tagKV]: a
    non-empty run of word runes (the key, group 1), a colon, a double
    quote, any runes other than the double quote (the value, group 2), a
    double quote; as one left-to-right pass. A match can only begin
    at the start of a maximal run of word runes (the run must be followed
    by [:], which is no word rune, so [\w+] takes the whole run and a
    start inside the run fails whenever the start of the run fails); the
    value extends to the first quote after the opening one. The states
    record how much of the pattern the current candidate has matched. *)
Inductive scan_state :=
| Idle
| InKey (key : gostring)
| AfterColon (key : gostring)
| InValue (key val : gostring).

Fixpoint tagKV_scan (st : scan_state) (s : gostring)
    : list (gostring * gostring) :=
  match s with
  | [] => []
  | c :: s' =>
      match st with
      | Idle =>
          if is_word c then tagKV_scan (InKey [c]) s' else tagKV_scan Idle s'
      | InKey k =>
          if is_word c then tagKV_scan (InKey (k ++ [c])) s'
          else if (c =? 58)%Z then tagKV_scan (AfterColon k) s'
          else tagKV_scan Idle s'
      | AfterColon k =>
          if (c =? quote)%Z then tagKV_scan (InValue k []) s'
          else if is_word c then tagKV_scan (InKey [c]) s'
          else tagKV_scan Idle s'
      | InValue k v =>
          if (c =? quote)%Z then (k, v) :: tagKV_scan Idle s'
          else tagKV_scan (InValue k (v ++ [c])) s'
      end
  end.

Definition tagKV_FindAllStringSubmatch (s : gostring)
    : list (gostring * gostring) :=
  tagKV_scan Idle s.

Definition parseStructTag (tag : gostring) : gmap gostring gostring :=
  foldl (fun out m => <[m.1 := m.2]> out) ∅ (tagKV_FindAllStringSubmatch tag).

(** [fmt.Sprintf] with the format [%s:Q%s Q] (no space; Q the double
    quote): the key, a colon, and the value between double quotes. *)
Definition tag_part (kv : gostring * gostring) : gostring :=
  kv.1 ++ [58%Z; quote] ++ kv.2 ++ [quote].

(** [buildStructTag] on a given iteration order of the map: Go leaves the
    order of [range] over a map unspecified, so [entries] is any
    enumeration of the map. *)
Definition buildStructTag_range (entries : list (gostring * gostring))
    : gostring :=
  match entries with
  | [] => []
  | _ =>
      let parts := map tag_part entries in
      Join (sort_Strings parts) (str " ")
  end.

Definition buildStructTag (kv : gmap gostring gostring) : gostring :=
  buildStructTag_range (map_to_list kv).

Definition is_index_piece (pp : gostring) : bool :=
  HasPrefix pp (str "index:") || HasPrefix pp (str "uniqueIndex:").

Definition stripIndexPiecesFromGormTag (gormTag : gostring) : gostring :=
  match gormTag with
  | [] => []
  | _ =>
      let parts := Split gormTag 59%Z in
      let keep :=
        for_range (fun keep _ p =>
          let pp := TrimSpace p in
          if is_index_piece pp then keep else keep ++ [pp]) 0 parts [] in
      Join keep (str ";")
  end.

(** The map [kv] after the merge of [toAdd] into its [gorm] entry. *)
Definition mergeIndexIntoGormTag_kv (orig : gostring) (toAdd : list gostring)
    : gmap gostring gostring :=
  let kv := parseStructTag orig in
  let gormVal := stripIndexPiecesFromGormTag (default [] (kv !! str "gorm")) in
  let gormVal :=
    match toAdd with
    | [] => gormVal
    | _ =>
        let add := Join toAdd (str ";") in
        match gormVal with
        | [] => add
        | _ => gormVal ++ str ";" ++ add
        end
    end in
  match gormVal with
  | [] => delete (str "gorm") kv
  | _ => <[str "gorm" := gormVal]> kv
  end.

Definition mergeIndexIntoGormTag (orig : gostring) (toAdd : list gostring)
    : gostring :=
  buildStructTag (mergeIndexIntoGormTag_kv orig toAdd).
(** ** Errors

    One constructor per [fmt.Errorf] of the file; the arguments are the
    values formatted into the message. *)

(** [reflect.Kind]. *)
Inductive Kind :=
| KInvalid | KBool | KInt | KInt8 | KInt16 | KInt32 | KInt64
| KUint | KUint8 | KUint16 | KUint32 | KUint64 | KUintptr
| KFloat32 | KFloat64 | KComplex64 | KComplex128
| KArray | KChan | KFunc | KInterface | KMap | KPointer | KSlice
| KString | KStruct | KUnsafePointer.

#[global] Instance Kind_eq_dec : EqDecision Kind.
Proof. solve_decision. Defined.

Inductive error :=
| ErrNilModel                            (* nil model *)
| ErrNotAStruct (k : Kind)               (* model must be a struct or *struct, got %v *)
| ErrDefNotStruct (i : nat)              (* Indexes()[%d] is not a struct *)
| ErrDefShape (i : nat)                  (* Indexes()[%d] doesn't look like IndexDefinition *)
| ErrColumnsNotSlice (name : gostring)   (* Index %q: Columns is not a slice *)
| ErrColNotStruct (name : gostring) (pos : nat)  (* Index %q column %d: not a struct *)
| ErrMissingSel (name : gostring) (pos : nat)    (* Index %q column %d: missing Sel *)
| ErrColumn (name : gostring) (pos : nat) (cause : error)  (* index %q column %d: %w *)
| ErrSelNotFunc                          (* Sel is not a func *)
| ErrSelShape                            (* Sel must be func( *T) any *)
| ErrSelUnexpectedValues                 (* Sel returned unexpected values *)
| ErrSelNilInterface                     (* Sel returned a nil interface *)
| ErrSelNotPointer                       (* Sel must return a *field (pointer) *)
| ErrSelNotTopLevelField (tname : gostring).
    (* Sel didn't point to a top-level exported field on %s *)

(** The outcome of a call: a value, an error value, or a run-time panic. *)
Inductive result (A : Type) :=
| Ok (a : A)
| Err (e : error)
| Panic.
Arguments Ok {A} a.
Arguments Err {A} e.
Arguments Panic {A}.

(** ** Types as [reflect] shows them *)

(** [reflect.StructField]; [sfPkgPath] is empty for an exported field;
    [sfOffset] is the offset of the field within the struct. *)
Record StructField_ (T : Type) := mkStructField {
  sfName : gostring;
  sfPkgPath : gostring;
  sfType : T;
  sfTag : gostring;
  sfOffset : Z;
  sfAnonymous : bool
}.
Arguments mkStructField {T}.
Arguments sfName {T}.
Arguments sfPkgPath {T}.
Arguments sfType {T}.
Arguments sfTag {T}.
Arguments sfOffset {T}.
Arguments sfAnonymous {T}.

(** [reflect.Type]: a struct type with its name and fields, a pointer
    type, or a type of any other kind [k] (not [KStruct], not
    [KPointer]). *)
Inductive rtype :=
| TStruct (name : gostring) (fields : list (StructField_ rtype))
| TPointer (elem : rtype)
| TOther (k : Kind) (name : gostring).

Abbreviation StructField := (StructField_ rtype).

Definition rtype_Kind (t : rtype) : Kind :=
  match t with
  | TStruct _ _ => KStruct
  | TPointer _ => KPointer
  | TOther k _ => k
  end.

Definition rtype_Name (t : rtype) : gostring :=
  match t with
  | TStruct name _ => name
  | TPointer _ => []
  | TOther _ name => name
  end.

(** [t.Elem()] of a pointer type. *)
Definition rtype_Elem (t : rtype) : rtype :=
  match t with
  | TPointer elem => elem
  | _ => t
  end.

(** [t.NumField()] and [t.Field(i)] panic unless [t] is a struct type:
    [None] stands for the panic. *)
Definition rtype_fields (t : rtype) : option (list StructField) :=
  match t with
  | TStruct _ fields => Some fields
  | _ => None
  end.

Fixpoint indirectType (t : rtype) : rtype :=
  match t with
  | TPointer elem => indirectType elem
  | _ => t
  end.

Definition exported (sf : StructField) : bool :=
  bool_decide (sfPkgPath sf = []).

(** The signature of a function type: [NumIn] is the length of [ftIn]. *)
Record FuncType := mkFuncType {
  ftIn : list rtype;
  ftNumOut : nat
}.

Section Embedding.

(** [W] is the state of the world that user code (a selector, an
    [Indexes] method) can read and change; [reflect_New t] allocates a
    zero value of type [t] and returns its address. *)
Context {W : Type}.
Variable reflect_New : rtype -> W -> Z * W.

(** Computations that read and change the world and can fail. *)
Definition M (A : Type) : Type := W -> result A * W.

Definition ret {A} (a : A) : M A := fun w => (Ok a, w).
Definition fail {A} (e : error) : M A := fun w => (Err e, w).
Definition panic {A} : M A := fun w => (Panic, w).
Definition bind {A B} (c : M A) (k : A -> M B) : M B :=
  fun w =>
    match c w with
    | (Ok a, w') => k a w'
    | (Err e, w') => (Err e, w')
    | (Panic, w') => (Panic, w')
    end.
(** [fmt.Errorf] with [%w] around the error of [c]. *)
Definition wrap_error {A} (f : error -> error) (c : M A) : M A :=
  fun w =>
    match c w with
    | (Err e, w') => (Err (f e), w')
    | r => r
    end.
Definition lift {A} (c : W -> A * W) : M A :=
  fun w => let (a, w') := c w in (Ok a, w').

Notation "'let*' x ':=' c 'in' k" := (bind c (fun x => k))
  (at level 10, x pattern, c at level 100, k at level 200).

(** [for i, x := range l] with a body that can fail, started at [i]. *)
Fixpoint for_rangeM {A St : Type} (body : St -> nat -> A -> M St)
    (i : nat) (l : list A) (acc : St) : M St :=
  match l with
  | [] => ret acc
  | x :: l' => let* acc' := body acc i x in for_rangeM body (S i) l' acc'
  end.

(** ** Values as [reflect] shows them

    [t] is the printed name of the value's type ([v.Type().String()]).
    A function value carries its signature and its body ([None] for a
    nil func); the body is what [Call] runs on one pointer argument. A
    pointer carries its address ([0] for nil) and the value it points
    to. *)
Inductive Value :=
| VInvalid
| VBool (t : gostring) (b : bool)
| VString (s : gostring)
| VFunc (t : gostring) (ft : FuncType)
    (body : option (Z -> W -> list Value * W))
| VInterface (t : gostring) (e : option Value)
| VPointer (t : gostring) (addr : Z) (target : Value)
| VSlice (t : gostring) (elems : list Value)
| VStruct (t : gostring) (fields : list (gostring * Value))
| VOther (t : gostring) (k : Kind).

Definition Value_Kind (v : Value) : Kind :=
  match v with
  | VInvalid => KInvalid
  | VBool _ _ => KBool
  | VString _ => KString
  | VFunc _ _ _ => KFunc
  | VInterface _ _ => KInterface
  | VPointer _ _ _ => KPointer
  | VSlice _ _ => KSlice
  | VStruct _ _ => KStruct
  | VOther _ k => k
  end.

Definition Value_IsValid (v : Value) : bool :=
  match v with VInvalid => false | _ => true end.

(** [v.IsNil()], called on interfaces and pointers only. *)
Definition Value_IsNil (v : Value) : bool :=
  match v with
  | VInterface _ None => true
  | VPointer _ addr _ => (addr =? 0)%Z
  | VFunc _ _ None => true
  | _ => false
  end.

(** [v.Elem()]: the value an interface holds or a pointer points to; the
    zero [Value] for nil. *)
Definition Value_Elem (v : Value) : Value :=
  match v with
  | VInterface _ (Some e) => e
  | VPointer _ addr target => if (addr =? 0)%Z then VInvalid else target
  | _ => VInvalid
  end.

(** [v.Pointer()] of a pointer. *)
Definition Value_Pointer (v : Value) : Z :=
  match v with
  | VPointer _ addr _ => addr
  | _ => 0%Z
  end.

Definition Value_Type_String (v : Value) : gostring :=
  match v with
  | VInvalid => []
  | VString _ => str "string"
  | VBool t _ | VFunc t _ _ | VInterface t _ | VPointer t _ _
  | VSlice t _ | VStruct t _ | VOther t _ => t
  end.

(** [v.String()]: the string itself, and a description of the type for a
    value that is no string. It never panics. *)
Definition Value_String (v : Value) : gostring :=
  match v with
  | VString s => s
  | VInvalid => str "<invalid Value>"
  | _ => str "<" ++ Value_Type_String v ++ str " Value>"
  end.

(** [v.Bool()] panics unless [v] is a bool. *)
Definition Value_Bool (v : Value) : M bool :=
  match v with
  | VBool _ b => ret b
  | _ => panic
  end.

(** The elements [v.Index(0)], ..., [v.Index(v.Len()-1)] of a slice. The
    callers have checked [v.Kind() == reflect.Slice]. *)
Definition Value_elems (v : Value) : list Value :=
  match v with
  | VSlice _ elems => elems
  | _ => []
  end.

(** [v.FieldByName(name)] of a struct: the zero [Value] when there is no
    such field. *)
Fixpoint lookup_field (fields : list (gostring * Value)) (name : gostring)
    : Value :=
  match fields with
  | [] => VInvalid
  | (n, v) :: rest =>
      if bool_decide (n = name) then v else lookup_field rest name
  end.

Definition Value_FieldByName (v : Value) (name : gostring) : Value :=
  match v with
  | VStruct _ fields => lookup_field fields name
  | _ => VInvalid
  end.

(** [sel.Call([]reflect.Value{arg})] for a pointer argument at address
    [p]; calling a nil func panics. *)
Definition Value_Call (sel : Value) (p : Z) : M (list Value) :=
  match sel with
  | VFunc _ _ (Some body) => lift (body p)
  | _ => panic
  end.
(** ** The selector resolver: [fieldNameFromSelectorValue] *)

Definition FuncType_In (ft : FuncType) (i : nat) : rtype :=
  nth i (ftIn ft) (TOther KInvalid []).

(** The loop over the fields of the probe at address [base]: the address
    of field [i] is [base + Offset]; every field of the probe is
    addressable. *)
Fixpoint match_field (base retPtr : Z) (fields : list StructField)
    : option gostring :=
  match fields with
  | [] => None
  | sf :: rest =>
      if negb (exported sf) then match_field base retPtr rest
      else if (base + sfOffset sf =? retPtr)%Z then Some (sfName sf)
      else match_field base retPtr rest
  end.

Definition fieldNameFromSelectorValue (sel : Value) : M gostring :=
  if negb (bool_decide (Value_Kind sel = KFunc)) then fail ErrSelNotFunc else
  match sel with
  | VFunc _ ft _ =>
      if negb (length (ftIn ft) =? 1)%nat
         || negb (bool_decide (rtype_Kind (FuncType_In ft 0) = KPointer))
         || negb (ftNumOut ft =? 1)%nat
      then fail ErrSelShape else
      let T := rtype_Elem (FuncType_In ft 0) in
      let* ptrToT := lift (reflect_New T) in
      let* out := Value_Call sel ptrToT in
      if negb (length out =? 1)%nat then fail ErrSelUnexpectedValues else
      let res := nth 0 out VInvalid in
      let* res :=
        if bool_decide (Value_Kind res = KInterface) then
          if Value_IsNil res then fail ErrSelNilInterface
          else ret (Value_Elem res)
        else ret res in
      if negb (bool_decide (Value_Kind res = KPointer)) || Value_IsNil res
      then fail ErrSelNotPointer else
      let retPtr := Value_Pointer res in
      match rtype_fields T with
      | None => panic
      | Some fields =>
          match match_field ptrToT retPtr fields with
          | Some name => ret name
          | None => fail (ErrSelNotTopLevelField (rtype_Name T))
          end
      end
  | _ => panic
  end.

(** ** The index fragment assembler: [collectIndexTagsFromIndexesValue] *)

(** The markers of one column: the slice [parts] of the inner loop, for
    the column at zero-based position [j] resolved to field [fname]. *)
Definition column_parts (name : gostring) (unique : bool)
    (where_ indexType : gostring) (j : nat)
    (sortF nullF opClassF : Value) (fname : gostring) : list gostring :=
  let parts := [str "index:" ++ name; str "priority:" ++ itoa (j + 1)] in
  let parts :=
    let s := TrimSpace (Value_String sortF) in
    if bool_decide (s ≠ []) then
      let val := s in
      let n := TrimSpace (Value_String nullF) in
      let val :=
        if bool_decide (n ≠ []) then val ++ str " nulls " ++ n else val in
      parts ++ [str "sort:" ++ val]
    else parts in
  let parts :=
    if (j =? 0)%nat && unique then parts ++ [str "unique"] else parts in
  let parts :=
    if (j =? 0)%nat && bool_decide (where_ ≠ [])
    then parts ++ [str "where:" ++ where_] else parts in
  let parts :=
    if (j =? 0)%nat && bool_decide (indexType ≠ [])
    then parts ++ [str "type:" ++ indexType] else parts in
  if Value_IsValid opClassF then
    let cls := TrimSpace (Value_String opClassF) in
    if bool_decide (cls ≠ []) then
      let colName := toSnakeCase fname in
      parts ++ [str "expression:" ++ colName ++ str " " ++ cls]
    else parts
  else parts.

Definition deref (v : Value) : Value :=
  if bool_decide (Value_Kind v = KPointer) then Value_Elem v else v.

(** The body of the loop over the columns of one declaration. *)
Definition collect_column (name : gostring) (unique : bool)
    (where_ indexType : gostring)
    (fieldToIndexTags : gmap gostring (list gostring))
    (j : nat) (col : Value) : M (gmap gostring (list gostring)) :=
  let col := deref col in
  if negb (bool_decide (Value_Kind col = KStruct))
  then fail (ErrColNotStruct name (j + 1)) else
  let selF := Value_FieldByName col (str "Sel") in
  let sortF := Value_FieldByName col (str "Sort") in
  let nullF := Value_FieldByName col (str "Nulls") in
  let opClassF := Value_FieldByName col (str "OpClass") in
  if negb (Value_IsValid selF) then fail (ErrMissingSel name (j + 1)) else
  let* fname :=
    wrap_error (ErrColumn name (j + 1)) (fieldNameFromSelectorValue selF) in
  let parts :=
    column_parts name unique where_ indexType j sortF nullF opClassF fname in
  ret (<[fname := default [] (fieldToIndexTags !! fname)
                  ++ [Join parts (str ",")]]> fieldToIndexTags).

(** The body of the loop over the declarations. *)
Definition collect_def (fieldToIndexTags : gmap gostring (list gostring))
    (i : nat) (def : Value) : M (gmap gostring (list gostring)) :=
  let def := deref def in
  if negb (bool_decide (Value_Kind def = KStruct))
  then fail (ErrDefNotStruct i) else
  let nameF := Value_FieldByName def (str "Name") in
  let colsF := Value_FieldByName def (str "Columns") in
  let uniqueF := Value_FieldByName def (str "Unique") in
  let whereF := Value_FieldByName def (str "Where") in
  let typeF := Value_FieldByName def (str "Type") in
  if negb (Value_IsValid nameF) || negb (Value_IsValid colsF)
     || negb (Value_IsValid uniqueF) || negb (Value_IsValid whereF)
  then fail (ErrDefShape i) else
  let name := Value_String nameF in
  let* unique := Value_Bool uniqueF in
  let where_ := TrimSpace (Value_String whereF) in
  let indexType :=
    if Value_IsValid typeF then TrimSpace (Value_String typeF) else [] in
  if negb (bool_decide (Value_Kind colsF = KSlice))
  then fail (ErrColumnsNotSlice name) else
  for_rangeM (collect_column name unique where_ indexType)
    0 (Value_elems colsF) fieldToIndexTags.

(** [baseStruct] is not used by the function. The caller passes a slice;
    on a value that has no length [Len] panics (arrays, strings, maps and
    channels, which have one, are not among the values modelled here). *)
Definition collectIndexTagsFromIndexesValue (baseStruct : rtype)
    (defsSlice : Value) : M (gmap gostring (list gostring)) :=
  match defsSlice with
  | VSlice _ elems => for_rangeM collect_def 0 elems ∅
  | _ => panic
  end.

(** ** Models *)

(** A method found by [MethodByName]: its signature and what [Call(nil)]
    returns. *)
Record Method := mkMethod {
  mNumIn : nat;
  mNumOut : nat;
  mCall : W -> list Value * W
}.

(** What a method [TableName] is called on: the model itself, or the
    pointer to a new zero value of the model's type that
    [reflect.New(mt)] returns. *)
Inductive Receiver :=
| TheModel
| NewZero.

(** A non-nil [model any]: its dynamic type, and, for the type of a
    value, the methods [MethodByName] finds on it and, if the type
    implements [schema.Tabler], its method [TableName]. [TableName] is
    code of the user, as the selectors and [Indexes] are: what it
    returns depends on the receiver it is called on, and it can read
    and change the world. *)
Record Model := mkModel {
  model_Type : rtype;
  model_MethodByName : rtype -> gostring -> option Method;
  model_Tabler : rtype -> option (Receiver -> W -> gostring * W)
}.

(** The type of [recv]: the model itself when it is a pointer, a pointer
    to an addressable copy otherwise. *)
Definition recv_type (m : Model) : rtype :=
  if bool_decide (rtype_Kind (model_Type m) = KPointer) then model_Type m
  else TPointer (model_Type m).

(** What [AutoMigrateModel] hands to the migration engine: the model
    itself or a pointer to a new zero value of the cloned struct type
    [dyn], under the given table name if any. Its return value is the
    engine's. *)
Inductive MigrateArg :=
| Original
| Projection (dyn : rtype).

Record DbCall := mkDbCall {
  db_Table : option gostring;
  db_AutoMigrate : MigrateArg
}.

(** The loop that builds the fields of the clone. *)
Definition clone_fields (fieldToIndexTags : gmap gostring (list gostring))
    (base_fields : list StructField) : list StructField :=
  for_range (fun fields _ sf =>
    if negb (exported sf) then fields else
    let newTag :=
      mergeIndexIntoGormTag (sfTag sf)
        (default [] (fieldToIndexTags !! sfName sf)) in
    fields ++ [mkStructField (sfName sf) [] (sfType sf) newTag 0%Z
                 (sfAnonymous sf)]) 0 base_fields [].

(** [method.Call(nil)[0]]. *)
Definition call_method (method : Method) : M Value :=
  let* outs := lift (mCall method) in
  match outs with
  | out :: _ => ret out
  | [] => panic
  end.

(** [reflect.StructOf], of the Go library: the struct type made of the
    fields given, or a panic ([None]). It panics on some lists of
    fields, among them those with an embedded field whose type has
    methods. *)
Variable reflect_StructOf : list StructField -> option rtype.

Definition AutoMigrateModel (model : option Model) : M DbCall :=
  match model with
  | None => fail ErrNilModel
  | Some m =>
      let base := indirectType (model_Type m) in
      if negb (bool_decide (rtype_Kind base = KStruct))
      then fail (ErrNotAStruct (rtype_Kind base)) else
      match model_MethodByName m (recv_type m) (str "Indexes") with
      | None => ret (mkDbCall None Original)
      | Some method =>
          if negb (mNumIn method =? 0)%nat || negb (mNumOut method =? 1)%nat
          then ret (mkDbCall None Original) else
          let* out := call_method method in
          if negb (bool_decide (Value_Kind out = KSlice))
          then ret (mkDbCall None Original) else
          if (length (Value_elems out) =? 0)%nat
          then ret (mkDbCall None Original) else
          let* fieldToIndexTags :=
            collectIndexTagsFromIndexesValue base out in
          let fields :=
            clone_fields fieldToIndexTags (default [] (rtype_fields base)) in
          match reflect_StructOf fields with
          | None => panic
          | Some dyn =>
              let ptr := Projection dyn in
              match model_Tabler m (model_Type m) with
              | Some tableName =>
                  let* table := lift (tableName TheModel) in
                  ret (mkDbCall (Some table) ptr)
              | None =>
                  let ptrModel :=
                    if bool_decide (rtype_Kind (model_Type m) = KPointer)
                    then TheModel else NewZero in
                  match model_Tabler m (recv_type m) with
                  | Some tableName =>
                      let* table := lift (tableName ptrModel) in
                      ret (mkDbCall (Some table) ptr)
                  | None => ret (mkDbCall None ptr)
                  end
              end
          end
      end
  end.

(** ** The extension aggregator: [ExtractRequiredExtensions] *)

(** The loops keep the map [seen] and the slice [extensions]. *)
Definition ext_state : Type := gmap gostring bool * list gostring.

Definition extract_ext (st : ext_state) (j : nat) (e : Value) : ext_state :=
  let '(seen, extensions) := st in
  let ext := Value_String e in
  if bool_decide (ext ≠ []) && negb (default false (seen !! ext))
  then (<[ext := true]> seen, extensions ++ [ext])
  else (seen, extensions).

Definition extract_def (st : ext_state) (i : nat) (def : Value) : ext_state :=
  let def := deref def in
  if negb (bool_decide (Value_Kind def = KStruct)) then st else
  let extsF := Value_FieldByName def (str "Extensions") in
  if negb (Value_IsValid extsF)
     || negb (bool_decide (Value_Kind extsF = KSlice))
  then st else
  for_range extract_ext 0 (Value_elems extsF) st.

(** The function returns a slice and no error; it makes no call that can
    panic but the [Indexes] method's. *)
Definition ExtractRequiredExtensions (model : option Model)
    : M (list gostring) :=
  match model with
  | None => ret []
  | Some m =>
      match model_MethodByName m (recv_type m) (str "Indexes") with
      | None => ret []
      | Some method =>
          if negb (mNumIn method =? 0)%nat || negb (mNumOut method =? 1)%nat
          then ret [] else
          let* out := call_method method in
          if negb (bool_decide (Value_Kind out = KSlice))
             || (length (Value_elems out) =? 0)%nat
          then ret [] else
          let '(_, extensions) :=
            for_range extract_def 0 (Value_elems out) (∅, []) in
          ret extensions
      end
  end.

(** ** The declarations of the public API *)

(** [Col[T]]. [Sel] is a [func( *T) any]: [None] for a nil func; called
    on the address of a [T] it returns a nil interface ([None]) or the
    value held by the interface. *)
Record Col (T : rtype) := mkCol {
  Sel : option (Z -> W -> option Value * W);
  Sort : gostring;
  Nulls : gostring;
  OpClass : gostring
}.
Arguments mkCol {T}.
Arguments Sel {T}.
Arguments Sort {T}.
Arguments Nulls {T}.
Arguments OpClass {T}.

Definition Field {T} (sel : option (Z -> W -> option Value * W)) : Col T :=
  mkCol sel [] [] [].
Definition Asc {T} (c : Col T) : Col T :=
  mkCol (Sel c) (str "asc") (Nulls c) (OpClass c).
Definition Desc {T} (c : Col T) : Col T :=
  mkCol (Sel c) (str "desc") (Nulls c) (OpClass c).
Definition NullsFirst {T} (c : Col T) : Col T :=
  mkCol (Sel c) (Sort c) (str "first") (OpClass c).
Definition NullsLast {T} (c : Col T) : Col T :=
  mkCol (Sel c) (Sort c) (str "last") (OpClass c).
Definition Class {T} (c : Col T) (cls : gostring) : Col T :=
  mkCol (Sel c) (Sort c) (Nulls c) cls.

(** [IndexDefinition[T]]; the field [Type] is [Type_] here. *)
Record IndexDefinition (T : rtype) := mkIndexDefinition {
  Name : gostring;
  Columns : list (Col T);
  Unique : bool;
  Where : gostring;
  Type_ : gostring;
  Extensions : list gostring
}.
Arguments mkIndexDefinition {T}.
Arguments Name {T}.
Arguments Columns {T}.
Arguments Unique {T}.
Arguments Where {T}.
Arguments Type_ {T}.
Arguments Extensions {T}.

(** [reflect.ValueOf] on the declarations. [Call] on a [func( *T) any]
    returns one value of kind [Interface]. *)
Definition ValueOf_Sel (T : rtype)
    (sel : option (Z -> W -> option Value * W)) : Value :=
  VFunc (str "func(" ++ [42%Z] ++ rtype_Name T ++ str ") interface {}")
    (mkFuncType [TPointer T] 1)
    (match sel with
     | None => None
     | Some f => Some (fun p w =>
         let (r, w') := f p w in ([VInterface (str "interface {}") r], w'))
     end).

Definition ValueOf_Col {T} (c : Col T) : Value :=
  VStruct (str "gormschema.Col[" ++ rtype_Name T ++ str "]")
    [(str "Sel", ValueOf_Sel T (Sel c));
     (str "Sort", VString (Sort c));
     (str "Nulls", VString (Nulls c));
     (str "OpClass", VString (OpClass c))].

Definition ValueOf_IndexDefinition {T} (d : IndexDefinition T) : Value :=
  VStruct (str "gormschema.IndexDefinition[" ++ rtype_Name T ++ str "]")
    [(str "Name", VString (Name d));
     (str "Columns",
      VSlice (str "[]gormschema.Col[" ++ rtype_Name T ++ str "]")
        (map ValueOf_Col (Columns d)));
     (str "Unique", VBool (str "bool") (Unique d));
     (str "Where", VString (Where d));
     (str "Type", VString (Type_ d));
     (str "Extensions",
      VSlice (str "[]string") (map VString (Extensions d)))].

Definition ValueOf_Indexes {T} (defs : list (IndexDefinition T)) : Value :=
  VSlice (str "[]gormschema.IndexDefinition[" ++ rtype_Name T ++ str "]")
    (map ValueOf_IndexDefinition defs).

(** A method [Indexes() []IndexDefinition[T]] that returns [defs]. *)
Definition Indexes_method {T} (indexes : W -> list (IndexDefinition T) * W)
    : Method :=
  mkMethod 0 1 (fun w =>
    let (defs, w') := indexes w in ([ValueOf_Indexes defs], w')).

(** The markers of the column [c] at position [j] of the declaration [d],
    resolved to the field [fname]. *)
Definition fragment_parts {T} (d : IndexDefinition T) (j : nat) (c : Col T)
    (fname : gostring) : list gostring :=
  column_parts (Name d) (Unique d) (TrimSpace (Where d))
    (TrimSpace (Type_ d)) j
    (VString (Sort c)) (VString (Nulls c)) (VString (OpClass c)) fname.

End Embedding.

Arguments Value W : clear implicits.
Arguments Method W : clear implicits.
Arguments Model W : clear implicits.
Arguments Col W T : clear implicits.
Arguments IndexDefinition W T : clear implicits.
Arguments M W A : clear implicits.
Arguments mkCol {W T}.
Arguments Sel {W T}.
Arguments Sort {W T}.
Arguments Nulls {W T}.
Arguments OpClass {W T}.
Arguments mkIndexDefinition {W T}.
Arguments Name {W T}.
Arguments Columns {W T}.
Arguments Unique {W T}.
Arguments Where {W T}.
Arguments Type_ {W T}.
Arguments Extensions {W T}.

(** ** Notions used to state the properties *)

(** The selector's result [res] is the address [a]: a pointer, as such or
    held by an interface ([any]). *)
Definition returns_address {W} (res : Value W) (a : Z) : Prop :=
  (exists t tgt, res = VPointer t a tgt) \/
  (exists t t' tgt, res = VInterface t (Some (VPointer t' a tgt))).

(** The value of a selector of type [func( *T) X] with the given body. *)
Definition selector {W} (t : gostring) (T : rtype)
    (body : Z -> W -> list (Value W) * W) : Value W :=
  VFunc t (mkFuncType [TPointer T] 1) (Some body).

(** The fragments recorded for the field [fname]:
    [fieldToIndexTags[fname]]. *)
Definition fragments_of (tags : gmap gostring (list gostring))
    (fname : gostring) : list gostring :=
  default [] (tags !! fname).

(** Every fragment recorded in [t1] is recorded in [t2]. *)
Definition tags_incl (t1 t2 : gmap gostring (list gostring)) : Prop :=
  forall f x, x ∈ fragments_of t1 f -> x ∈ fragments_of t2 f.

(** Resolution of the selector of the column [c] returns the field
    [fname], in some world. *)
Definition resolves_to {W : Type} {T : rtype}
    (reflect_New : rtype -> W -> Z * W) (c : Col W T) (fname : gostring)
    : Prop :=
  exists w1 w2,
    fieldNameFromSelectorValue reflect_New (ValueOf_Sel T (Sel c)) w1 =
    (Ok fname, w2).

(** The fragment of the column [c] at position [j] of the declaration
    [d], resolved to [fname]: its markers joined by commas. *)
Definition fragment_of {W : Type} {T : rtype} (d : IndexDefinition W T)
    (j : nat) (c : Col W T) (fname : gostring) : gostring :=
  Join (fragment_parts d j c fname) (str ",").

(** The column [c] at position [j] of the declaration [d] was resolved to
    the field [fname] and its fragment is recorded for [fname]. *)
Definition emitted {W : Type} {T : rtype} (reflect_New : rtype -> W -> Z * W)
    (tags : gmap gostring (list gostring))
    (d : IndexDefinition W T) (j : nat) (c : Col W T) (fname : gostring)
    : Prop :=
  resolves_to reflect_New c fname /\
  fragment_of d j c fname ∈ fragments_of tags fname.

(** Keep the first occurrence of each element, in the order of first
    appearance. *)
Fixpoint first_occurrences (l : list gostring) : list gostring :=
  match l with
  | [] => []
  | x :: l' => x :: filter (fun y => y <> x) (first_occurrences l')
  end.

(** The extension aggregator as the specification words it: the
    declarations in order, the [Extensions] of each in order, empty
    strings skipped, the first occurrence of each name kept. *)
Definition required_extensions {W : Type} {T : rtype}
    (defs : list (IndexDefinition W T)) : list gostring :=
  first_occurrences
    (filter (fun x => x <> []) (concat (map Extensions defs))).

(** The declaration [d] cut down to the columns [cols]. *)
Definition with_columns {W : Type} {T : rtype} (d : IndexDefinition W T)
    (cols : list (Col W T)) : IndexDefinition W T :=
  mkIndexDefinition (Name d) cols (Unique d) (Where d) (Type_ d)
    (Extensions d).

(** The model's underlying type is a struct: the model is a struct or a
    pointer (to a pointer ...) to a struct. *)
Definition struct_model {W : Type} (m : Model W) : Prop :=
  rtype_Kind (indirectType (model_Type m)) = KStruct.

(** The steps of [mergeIndexIntoGormTag] on the map [kv]: the new value
    of [gorm] from what the strip step kept and the fragments to add, and
    the update of the map. *)
Definition merged_value (stripped : gostring) (toAdd : list gostring)
    : gostring :=
  match toAdd with
  | [] => stripped
  | _ =>
      match stripped with
      | [] => Join toAdd (str ";")
      | _ => stripped ++ str ";" ++ Join toAdd (str ";")
      end
  end.

Definition set_gorm (kv : gmap gostring gostring) (gormVal : gostring)
    : gmap gostring gostring :=
  match gormVal with
  | [] => delete (str "gorm") kv
  | _ => <[str "gorm" := gormVal]> kv
  end.

Definition merge_gorm (kv : gmap gostring gostring) (toAdd : list gostring)
    : gmap gostring gostring :=
  set_gorm kv
    (merged_value
       (stripIndexPiecesFromGormTag (default [] (kv !! str "gorm"))) toAdd).

(** A key of a struct tag as [tagKV] reads it: a non-empty run of word
    runes. *)
Definition word_key (k : gostring) : Prop :=
  k <> [] /\ Forall (fun r => is_word r = true) k.

(** The string [s] holds no rune [r]. *)
Definition free_of (r : rune) (s : gostring) : Prop :=
  Forall (fun x => x <> r) s.

(** A fragment as the assembler builds it, that a struct tag can carry:
    it begins with [index:] and holds neither a double quote nor a
    semicolon. *)
Definition clean_fragment (f : gostring) : Prop :=
  HasPrefix f (str "index:") = true /\ free_of quote f /\ free_of 59%Z f.

(** An entry that [tagKV] can read back: a word key and a value without
    a double quote. *)
Definition entry_ok (kv : gostring * gostring) : Prop :=
  word_key kv.1 /\ free_of quote kv.2.

(** A trimmed string is empty or begins and ends with a rune that is no
    space. *)
Definition is_trimmed (s : gostring) : Prop :=
  match s with r :: _ => is_space r = false | [] => True end /\
  match rev s with r :: _ => is_space r = false | [] => True end.

(** The pieces kept by the strip step. *)
Definition kept (g : gostring) : list gostring :=
  filter (fun pp => is_index_piece pp = false)
    (map TrimSpace (Split g 59%Z)).

(** What the states of the scan hold. *)
Definition state_ok (st : scan_state) : Prop :=
  match st with
  | Idle => True
  | InKey k | AfterColon k => word_key k
  | InValue k v => word_key k /\ free_of quote v
  end.

(** The state of the loops: [seen] holds exactly the names of
    [extensions]. *)
Definition seen_inv (st : ext_state) : Prop :=
  forall x, default false (st.1 !! x) = true <-> x ∈ st.2.

(** ** Models of the tests and of the examples

    In the examples the world is the number of calls of selectors made so
    far, and every probe is allocated at address 4096. *)

Definition probe_at : rtype -> nat -> Z * nat := fun _ n => (4096%Z, n).

(** A tag literal, with the double quote of Go written as an apostrophe. *)
Definition tag_lit (s : string) : gostring :=
  map (fun r => if (r =? 39)%Z then quote else r) (str s).

Definition t_string : rtype := TOther KString (str "string").
Definition t_int : rtype := TOther KInt (str "int").
Definition t_uint : rtype := TOther KUint (str "uint").

Definition field (name : string) (ty : rtype) (tag : gostring) (off : Z)
    : StructField :=
  mkStructField (str name) [] ty tag off false.

(** [func(m *T) any { return &m.F }] for the field [F] at offset [off]. *)
Definition address_of (off : Z) : option (Z -> nat -> option (Value nat) * nat) :=
  Some (fun m n => (Some (VPointer (str "*field") (m + off) VInvalid), S n)).

(** The same selector as [reflect] calls it. *)
Definition address_of_body (off : Z) : Z -> nat -> list (Value nat) * nat :=
  fun m n =>
    ([VInterface (str "interface {}")
        (Some (VPointer (str "*field") (m + off) VInvalid))], S n).

(** [func(m *T) any { x := 0; return &x }]: the address of a local
    variable. *)
Definition address_of_local : option (Z -> nat -> option (Value nat) * nat) :=
  Some (fun m n => (Some (VPointer (str "*int") 65536%Z VInvalid), S n)).

(** [models.NotebookFile]; the offsets are those of a 64-bit target. *)
Definition NotebookFile_fields : list StructField :=
  [field "ID" t_uint (tag_lit "gorm:'primaryKey'") 0;
   field "TenantID" t_string (tag_lit "gorm:'type:text;not null'") 8;
   field "ScanVersion" t_int (tag_lit "gorm:'not null'") 24;
   field "FileName" t_string (tag_lit "gorm:'type:text;not null'") 32].

Definition NotebookFile : rtype :=
  TStruct (str "NotebookFile") NotebookFile_fields.

Definition TenantID_column : Col nat NotebookFile := Field (address_of 8).
Definition ScanVersion_column : Col nat NotebookFile := Field (address_of 24).
Definition FileName_column : Col nat NotebookFile :=
  Class (Field (address_of 32)) (str "gin_trgm_ops").

Definition NotebookFile_index : IndexDefinition nat NotebookFile :=
  mkIndexDefinition (str "idx_trgm")
    [TenantID_column; ScanVersion_column; FileName_column]
    false [] (str "gin") [str "pg_trgm"; str "btree_gin"].

Definition NotebookFile_Indexes : list (IndexDefinition nat NotebookFile) :=
  [NotebookFile_index].

(** The fragments the assembler computes for [NotebookFile_Indexes]. *)
Definition NotebookFile_tags : gmap gostring (list gostring) :=
  {[ str "TenantID" := [str "index:idx_trgm,priority:1,type:gin"];
     str "ScanVersion" := [str "index:idx_trgm,priority:2"];
     str "FileName" :=
       [str "index:idx_trgm,priority:3,expression:file_name gin_trgm_ops"] ]}.

(** A model whose only method, on the value and on a pointer to it, is
    [indexes], and which implements no [Tabler]. *)
Definition model_with (t : rtype) (indexes : option (Method nat))
    : Model nat :=
  mkModel t
    (fun _ name => if bool_decide (name = str "Indexes") then indexes
                   else None)
    (fun _ => None).

Definition NotebookFile_model : Model nat :=
  model_with NotebookFile
    (Some (Indexes_method (fun n => (NotebookFile_Indexes, n)))).

(** The same model with its method [TableName], which returns
    [notebook_files] on every receiver. *)
Definition NotebookFile_table_model : Model nat :=
  mkModel NotebookFile
    (model_MethodByName NotebookFile_model)
    (fun _ => Some (fun _ n => (str "notebook_files", n))).

(** [reflect.StructOf] in the examples: it panics when a field is
    embedded and returns the unnamed struct type of the fields
    otherwise, with the offsets as they are given. *)
Definition StructOf_example (fields : list StructField) : option rtype :=
  if existsb sfAnonymous fields then None else Some (TStruct [] fields).

(** The fields of the clone of [NotebookFile]. *)
Definition NotebookFile_projection : list StructField :=
  [field "ID" t_uint (tag_lit "gorm:'primaryKey'") 0;
   field "TenantID" t_string
     (tag_lit "gorm:'type:text;not null;index:idx_trgm,priority:1,type:gin'")
     0;
   field "ScanVersion" t_int
     (tag_lit "gorm:'not null;index:idx_trgm,priority:2'") 0;
   field "FileName" t_string
     (tag_lit
        "gorm:'type:text;not null;index:idx_trgm,priority:3,expression:file_name gin_trgm_ops'")
     0].

(** [struct { A struct{}; B int }]: the field [A] has size zero, so [B]
    lies at offset 0 too. *)
Definition Marked_fields : list StructField :=
  [field "A" (TStruct [] []) [] 0; field "B" t_int [] 0].

Definition Marked : rtype := TStruct (str "Marked") Marked_fields.

(** [struct { Audit struct { CreatedBy string; UpdatedBy string };
    Title string }]: the nested field [Audit.CreatedBy] lies at the
    address of [Audit]. *)
Definition Audit : rtype :=
  TStruct (str "Audit")
    [field "CreatedBy" t_string [] 0; field "UpdatedBy" t_string [] 16].

Definition Article_fields : list StructField :=
  [field "Audit" Audit [] 0; field "Title" t_string [] 32].

Definition Article : rtype := TStruct (str "Article") Article_fields.

(** A declaration with a blank [Where] and one with a blank [OpClass]. *)
Definition blank_where : IndexDefinition nat NotebookFile :=
  mkIndexDefinition (str "i") [Field (address_of 8)] false (str " ") [] [].

Definition blank_class : IndexDefinition nat NotebookFile :=
  mkIndexDefinition (str "i") [Class (Field (address_of 8)) (str " ")]
    false [] [] [].

(** A declaration whose predicate holds a semicolon. *)
Definition semicolon_where : IndexDefinition nat NotebookFile :=
  mkIndexDefinition (str "i") [Field (address_of 8)] false (str "a;b") [] [].

(** A declaration whose second column selects a local variable, and a
    model that declares it. *)
Definition stray_column : Col nat NotebookFile := Field address_of_local.

Definition stray_index : IndexDefinition nat NotebookFile :=
  mkIndexDefinition (str "idx_stray")
    [TenantID_column; stray_column; FileName_column] false [] [] [].

Definition stray_model : Model nat :=
  model_with NotebookFile
    (Some (Indexes_method (fun n => ([stray_index], n)))).

(** [type Count int], without methods, and the same with a method
    [Indexes(n int)]. *)
Definition Count : rtype := TOther KInt (str "Count").

Definition Indexes_with_argument : Method nat :=
  mkMethod 1 1 (fun n => ([VSlice (str "[]string") []], n)).

(** A struct model whose [Indexes] returns a string. *)
Definition Indexes_not_a_slice : Method nat :=
  mkMethod 0 1 (fun n => ([VString (str "none")], n)).


(** ** Notions used to state the further properties *)

(** What the selector returned, out of the interface that holds it: the
    value the resolver tests for a pointer. *)
Definition unwrap_any {W} (res : Value W) : Value W :=
  if bool_decide (Value_Kind res = KInterface) then Value_Elem res else res.

(** The fragments that the declaration [d] gives to the field [f] when
    each column [c] resolves to [name_of c]: those of the columns that
    resolve to [f], in the order of the columns. *)
Definition fragments_for {W : Type} {T : rtype}
    (name_of : Col W T -> gostring) (f : gostring) (j0 : nat)
    (d : IndexDefinition W T) (cols : list (Col W T)) : list gostring :=
  concat (imap (fun k c =>
    if bool_decide (name_of c = f) then [fragment_of d (j0 + k) c f]
    else []) cols).

Definition all_fragments_for {W : Type} {T : rtype}
    (name_of : Col W T -> gostring) (f : gostring)
    (defs : list (IndexDefinition W T)) : list gostring :=
  concat (map (fun d => fragments_for name_of f 0 d (Columns d)) defs).

(** The number of fragments recorded in [fieldToIndexTags]. *)
Definition fragment_count (tags : gmap gostring (list gostring)) : nat :=
  map_fold (fun _ l n => length l + n) 0 tags.

(** [v'] is [v] or a non-nil pointer to [v], where [v] is no pointer. *)
Definition maybe_pointer_to {W} (v v' : Value W) : Prop :=
  v' = v \/
  exists t a, a <> 0%Z /\ Value_Kind v <> KPointer /\ v' = VPointer t a v.

(** The field of the clone made from the field [sf]. *)
Definition clone_field (fieldToIndexTags : gmap gostring (list gostring))
    (sf : StructField) : StructField :=
  mkStructField (sfName sf) [] (sfType sf)
    (mergeIndexIntoGormTag (sfTag sf) (fragments_of fieldToIndexTags (sfName sf)))
    0%Z (sfAnonymous sf).

(** What a run of synthesis hands to the migration engine, or its error
    or panic: the outcome without the table name and the world. *)
Definition migrated {W} (r : result DbCall * W) : result MigrateArg :=
  match r.1 with
  | Ok call => Ok (db_AutoMigrate call)
  | Err e => Err e
  | Panic => Panic
  end.

(** The names that the declaration [def] lists in [Extensions], as the
    extension aggregator reads them: none unless [def] is a struct, or a
    pointer to one, with a field [Extensions] that is a slice. *)
Definition declared_extensions {W} (def : Value W) : list gostring :=
  let def := deref def in
  if bool_decide (Value_Kind def = KStruct) then
    let extsF := Value_FieldByName def (str "Extensions") in
    if Value_IsValid extsF && bool_decide (Value_Kind extsF = KSlice)
    then map Value_String (Value_elems extsF)
    else []
  else [].

(** No string of the declaration [d] holds the rune [r]. *)
Definition decl_free_of {W : Type} {T : rtype} (r : rune)
    (d : IndexDefinition W T) : Prop :=
  free_of r (Name d) /\ free_of r (Where d) /\ free_of r (Type_ d) /\
  Forall (fun c => free_of r (Sort c) /\ free_of r (Nulls c)
                   /\ free_of r (OpClass c)) (Columns d).

(** ** Further examples *)

(** [func(m *NotebookFile) any { return nil }]. *)
Definition returns_nil_interface : Z -> nat -> list (Value nat) * nat :=
  fun m n => ([VInterface (str "interface {}") None], S n).

(** The field that the selector of a column of [NotebookFile] resolves
    to. *)
Definition resolved_name (c : Col nat NotebookFile) : gostring :=
  match fieldNameFromSelectorValue probe_at
          (ValueOf_Sel NotebookFile (Sel c)) 0 with
  | (Ok name, _) => name
  | _ => []
  end.

(** A declaration whose only column is a string, and no [Col]. *)
Definition string_column_decl : Value nat :=
  VStruct (str "Decl")
    [(str "Name", VString (str "i"));
     (str "Columns", VSlice (str "[]string") [VString (str "c")]);
     (str "Unique", VBool (str "bool") false);
     (str "Where", VString [])].

(** [NotebookFile] with a method [TableName] on the pointer only,
    [func (n *NotebookFile) TableName() string { return "files_" +
    n.TenantID }], for a model whose [TenantID] is [acme]: on the model
    the method returns [files_acme], on a new zero value [files_]. *)
Definition tenant_TableName : Receiver -> nat -> gostring * nat :=
  fun r n =>
    (match r with
     | TheModel => str "files_acme"
     | NewZero => str "files_"
     end, n).

Definition tenant_Tabler (t : rtype)
    : option (Receiver -> nat -> gostring * nat) :=
  match t with
  | TPointer _ => Some tenant_TableName
  | _ => None
  end.

Definition tenant_file : Model nat :=
  mkModel NotebookFile (model_MethodByName NotebookFile_model)
    tenant_Tabler.

Definition tenant_file_pointer : Model nat :=
  mkModel (TPointer NotebookFile) (model_MethodByName NotebookFile_model)
    tenant_Tabler.

(** [NotebookFile] with an embedded field [Base] after its own, and a
    model of that type that declares an index on [TenantID]. *)
Definition Embedding : rtype :=
  TStruct (str "Embedding")
    (NotebookFile_fields
     ++ [mkStructField (str "Base") [] (TStruct (str "Base") []) [] 48
           true]).

Definition Embedding_Indexes : list (IndexDefinition nat Embedding) :=
  [mkIndexDefinition (str "idx_tenant") [Field (address_of 8)] false [] []
     []].

Definition Embedding_model : Model nat :=
  model_with Embedding
    (Some (Indexes_method (fun n => (Embedding_Indexes, n)))).

(** * Properties *)

(** ** The naming normalizer *)

Lemma for_range_app_acc (runes : list rune) (l : list rune) (i : nat)
    (acc : gostring) :
  for_range (toSnakeCase_body runes) i l acc =
  acc ++ for_range (toSnakeCase_body runes) i l [].
Proof.
  revert i acc. induction l as [|r l IH]; intros i acc; simpl.
  - by rewrite app_nil_r.
  - rewrite (IH (S i) (toSnakeCase_body runes acc i r)).
    rewrite (IH (S i) (toSnakeCase_body runes [] i r)).
    rewrite app_assoc. f_equal.
    unfold toSnakeCase_body.
    repeat match goal with |- context [if ?b then _ else _] => destruct b end;
      simpl; rewrite <- ?app_assoc; done.
Qed.

Lemma toSnakeCase_body_piece (s : gostring) (i : nat) (r : rune) :
  s !! i = Some r ->
  toSnakeCase_body s [] i r =
  (if boundary_before s i then [95%Z] else []) ++ [lowercase r].
Proof.
  intros Hi. unfold toSnakeCase_body, boundary_before, lowercase.
  rewrite Hi. destruct (is_upper r) eqn:Hu; simpl; [|done].
  destruct (Nat.ltb_spec 0 i) as [Hpos|Hz].
  - assert (Hne : (i =? 0)%nat = false) by (apply Nat.eqb_neq; lia).
    rewrite Hne. simpl.
    assert (Hprev : is_Some (s !! (i - 1))).
    { apply lookup_lt_is_Some. apply lookup_lt_Some in Hi. lia. }
    destruct Hprev as [p Hp]. rewrite Hp.
    rewrite (nth_lookup_Some _ _ _ _ Hp).
    destruct (s !! (i + 1)) as [n|] eqn:Hn.
    + assert (Hlt : (i + 1 <? length s) = true).
      { apply Nat.ltb_lt. by apply lookup_lt_Some in Hn. }
      rewrite Hlt. rewrite (nth_lookup_Some _ _ _ _ Hn). simpl.
      destruct (is_lower p || is_lower n); done.
    + assert (Hge : (i + 1 <? length s) = false).
      { apply Nat.ltb_ge. by apply lookup_ge_None in Hn. }
      rewrite Hge. simpl. rewrite orb_false_r.
      destruct (is_lower p); done.
  - assert (Hz' : (i =? 0)%nat = true) by (apply Nat.eqb_eq; lia).
    by rewrite Hz'.
Qed.

Lemma for_range_snake (s : gostring) (l : list rune) (i : nat) :
  (forall k r, l !! k = Some r -> s !! (i + k) = Some r) ->
  for_range (toSnakeCase_body s) i l [] =
  concat (imap (fun k r =>
    (if boundary_before s (i + k) then [95%Z] else []) ++ [lowercase r]) l).
Proof.
  revert i. induction l as [|r l IH]; intros i Hl; [done|].
  simpl. rewrite for_range_app_acc.
  rewrite (toSnakeCase_body_piece s i r).
  2:{ specialize (Hl 0 r eq_refl). by rewrite Nat.add_0_r in Hl. }
  rewrite Nat.add_0_r. f_equal.
  rewrite IH.
  2:{ intros k r' Hk. specialize (Hl (S k) r' Hk).
      by replace (S i + k) with (i + S k) by lia. }
  f_equal. apply imap_ext. intros k r' _. simpl.
  by replace (S (i + k)) with (i + S k) by lia.
Qed.

Lemma toSnakeCase_spec (s : gostring) : toSnakeCase s = snake_spec s.
Proof.
  destruct s as [|r s]; [done|].
  unfold toSnakeCase, snake_spec.
  by rewrite for_range_snake.
Qed.

Lemma boundary_before_iff (s : gostring) (i : nat) :
  boundary_before s i = true <->
  exists r, s !! i = Some r /\ is_upper r = true /\ 0 < i /\
    ((exists p, s !! (i - 1) = Some p /\ is_lower p = true) \/
     (exists n, s !! (i + 1) = Some n /\ is_lower n = true)).
Proof.
  unfold boundary_before. split.
  - destruct (s !! i) as [r|] eqn:Hr; [|done].
    intros H. apply andb_prop in H as [H Hnb].
    apply andb_prop in H as [Hu Hi].
    exists r; repeat split; [done| |].
    + apply negb_true_iff, Nat.eqb_neq in Hi. lia.
    + apply orb_prop in Hnb as [Hp|Hn].
      * left. destruct (s !! (i - 1)) as [p|]; [|done]. by exists p.
      * right. destruct (s !! (i + 1)) as [n|]; [|done]. by exists n.
  - intros (r & Hr & Hu & Hi & Hnb). rewrite Hr, Hu. simpl.
    assert (Hne : (i =? 0)%nat = false) by (apply Nat.eqb_neq; lia).
    rewrite Hne. simpl.
    destruct Hnb as [(p & Hp & Hl)|(n & Hn & Hl)].
    + by rewrite Hp, Hl.
    + rewrite Hn, Hl. apply orb_true_r.
Qed.

(** The result holds no upper-case letter. *)
Lemma lowercase_not_upper (r : rune) : is_upper (lowercase r) = false.
Proof.
  unfold lowercase. destruct (is_upper r) eqn:Hu; [|done].
  unfold is_upper in *. apply andb_prop in Hu as [H1 H2].
  apply Z.leb_le in H1, H2. apply andb_false_iff. right.
  apply Z.leb_gt. lia.
Qed.

Lemma toSnakeCase_no_upper (s : gostring) :
  Forall (fun r => is_upper r = false) (toSnakeCase s).
Proof.
  rewrite toSnakeCase_spec. unfold snake_spec.
  apply Forall_concat. apply Forall_forall. intros piece Hin.
  apply list_elem_of_lookup in Hin as [i Hi].
  rewrite list_lookup_imap in Hi.
  apply fmap_Some in Hi as (r & _ & ->).
  destruct (boundary_before s i); repeat constructor;
    auto using lowercase_not_upper.
Qed.

(** C4. The naming normalizer writes, for each rune of its input in
    order, a boundary underscore exactly when the rune is an upper-case
    letter ['A'..'Z'] that is not the first rune and whose predecessor or
    successor is a lower-case letter ['a'..'z'], and then the rune in
    lower case; the result holds no upper-case letter; and the examples
    of the specification evaluate as stated. *)
Theorem toSnakeCase_rule :
  (forall s : gostring,
     toSnakeCase s =
     concat (imap (fun i r =>
       (if boundary_before s i then [95%Z] else []) ++ [lowercase r]) s)) /\
  (forall (s : gostring) (i : nat),
     boundary_before s i = true <->
     exists r, s !! i = Some r /\ is_upper r = true /\ 0 < i /\
       ((exists p, s !! (i - 1) = Some p /\ is_lower p = true) \/
        (exists n, s !! (i + 1) = Some n /\ is_lower n = true))) /\
  (forall s : gostring,
     Forall (fun r => is_upper r = false) (toSnakeCase s)) /\
  toSnakeCase (str "FileName") = str "file_name" /\
  toSnakeCase (str "TenantID") = str "tenant_id" /\
  toSnakeCase (str "ID") = str "id" /\
  toSnakeCase (str "HTTPServer") = str "http_server" /\
  toSnakeCase (str "APIKey") = str "api_key" /\
  toSnakeCase (str "") = str "".
Proof.
  split; [exact toSnakeCase_spec|].
  split; [exact boundary_before_iff|].
  split; [exact toSnakeCase_no_upper|].
  repeat split; vm_compute; reflexivity.
Qed.

(** ** Running computations *)

Section Running.
Context {W : Type}.

Lemma bind_ok {A B} (c : M W A) (k : A -> M W B) (w w' : W) (a : A) :
  c w = (Ok a, w') -> bind c k w = k a w'.
Proof. intros H. unfold bind. by rewrite H. Qed.

Lemma bind_err {A B} (c : M W A) (k : A -> M W B) (w w' : W) (e : error) :
  c w = (Err e, w') -> bind c k w = (Err e, w').
Proof. intros H. unfold bind. by rewrite H. Qed.

Lemma call_method_run (method : Method W) (w w' : W) (out : Value W)
    (rest : list (Value W)) :
  mCall method w = (out :: rest, w') ->
  call_method method w = (Ok out, w').
Proof. intros H. unfold call_method, bind, lift. by rewrite H. Qed.

Lemma call_method_Indexes {T}
    (indexes : W -> list (IndexDefinition W T) * W)
    (defs : list (IndexDefinition W T)) (w w' : W) :
  indexes w = (defs, w') ->
  call_method (Indexes_method indexes) w = (Ok (ValueOf_Indexes defs), w').
Proof.
  intros H. unfold call_method, bind, lift, Indexes_method. simpl.
  by rewrite H.
Qed.

End Running.

(** ** The selector resolver *)

Section SelectorResolver.
Context {W : Type} (reflect_New : rtype -> W -> Z * W).

Lemma match_field_first (base a : Z) (fields : list StructField)
    (i : nat) (sf : StructField) :
  fields !! i = Some sf ->
  exported sf = true ->
  a = (base + sfOffset sf)%Z ->
  (forall j sf', j < i -> fields !! j = Some sf' -> exported sf' = true ->
     sfOffset sf' <> sfOffset sf) ->
  match_field base a fields = Some (sfName sf).
Proof.
  revert i. induction fields as [|sf0 fields IH]; intros i Hi Hex Ha Hfirst.
  - done.
  - destruct i as [|i]; simpl in *.
    + injection Hi as ->. rewrite Hex. simpl.
      assert (Heq : (base + sfOffset sf =? a)%Z = true) by (apply Z.eqb_eq; lia).
      by rewrite Heq.
    + destruct (exported sf0) eqn:Hex0; simpl.
      * assert (Hne : (base + sfOffset sf0 =? a)%Z = false).
        { apply Z.eqb_neq. specialize (Hfirst 0 sf0 ltac:(lia) eq_refl Hex0).
          lia. }
        rewrite Hne. apply (IH i); auto.
        intros j sf' Hj Hl. apply (Hfirst (S j)); [lia|done].
      * apply (IH i); auto.
        intros j sf' Hj Hl. apply (Hfirst (S j)); [lia|done].
Qed.

Lemma match_field_none (base a : Z) (fields : list StructField) :
  (forall sf, In sf fields -> exported sf = true ->
     a <> (base + sfOffset sf)%Z) ->
  match_field base a fields = None.
Proof.
  induction fields as [|sf0 fields IH]; intros Hno; [done|].
  simpl. destruct (exported sf0) eqn:Hex0; simpl.
  - assert (Hne : (base + sfOffset sf0 =? a)%Z = false).
    { apply Z.eqb_neq. specialize (Hno sf0 (or_introl eq_refl) Hex0). lia. }
    rewrite Hne. apply IH. intros sf Hin. apply Hno. by right.
  - apply IH. intros sf Hin. apply Hno. by right.
Qed.

(** The resolver on a selector of the expected shape: one allocation, one
    call, then the comparison of addresses. *)
Lemma fieldNameFromSelectorValue_run (t tname : gostring)
    (fields : list StructField) (body : Z -> W -> list (Value W) * W)
    (w w1 w2 : W) (base a : Z) (res : Value W) :
  reflect_New (TStruct tname fields) w = (base, w1) ->
  body base w1 = ([res], w2) ->
  returns_address res a ->
  a <> 0%Z ->
  fieldNameFromSelectorValue reflect_New
    (selector t (TStruct tname fields) body) w =
  (match match_field base a fields with
   | Some name => Ok name
   | None => Err (ErrSelNotTopLevelField tname)
   end, w2).
Proof.
  intros Hnew Hcall Hres Ha.
  unfold fieldNameFromSelectorValue, selector, bind, lift, Value_Call. simpl.
  rewrite Hnew. simpl. unfold lift. rewrite Hcall. simpl.
  assert (Hnz : (a =? 0)%Z = false) by (by apply Z.eqb_neq).
  destruct Hres as [(t1 & tgt & ->)|(t1 & t2 & tgt & ->)]; simpl;
    rewrite Hnz; simpl; by destruct (match_field base a fields).
Qed.

(** X23. For a selector of a struct type whose call on the fresh probe
    returns a non-nil address: if that address is the one of a top-level
    exported field and no earlier exported field lies at the same
    offset, resolution returns exactly that field's name; if it is the
    address of no top-level exported field, resolution fails with the
    error (Sel didn't point to a top-level exported field). In both
    cases the final world is the one left by one call of the selector on
    the probe: the selector is invoked exactly once. *)
Theorem selector_resolution (t tname : gostring)
    (fields : list StructField) (body : Z -> W -> list (Value W) * W)
    (w w1 w2 : W) (base a : Z) (res : Value W) :
  reflect_New (TStruct tname fields) w = (base, w1) ->
  body base w1 = ([res], w2) ->
  returns_address res a ->
  a <> 0%Z ->
  (forall i sf,
     fields !! i = Some sf -> exported sf = true ->
     a = (base + sfOffset sf)%Z ->
     (forall j sf', j < i -> fields !! j = Some sf' ->
        exported sf' = true -> sfOffset sf' <> sfOffset sf) ->
     fieldNameFromSelectorValue reflect_New
       (selector t (TStruct tname fields) body) w = (Ok (sfName sf), w2)) /\
  ((forall sf, In sf fields -> exported sf = true ->
      a <> (base + sfOffset sf)%Z) ->
   fieldNameFromSelectorValue reflect_New
     (selector t (TStruct tname fields) body) w =
   (Err (ErrSelNotTopLevelField tname), w2)).
Proof.
  intros Hnew Hcall Hres Ha. split.
  - intros i sf Hi Hex Heq Hfirst.
    rewrite (fieldNameFromSelectorValue_run _ _ _ _ _ _ _ _ _ _
               Hnew Hcall Hres Ha).
    by rewrite (match_field_first _ _ _ _ _ Hi Hex Heq Hfirst).
  - intros Hno.
    rewrite (fieldNameFromSelectorValue_run _ _ _ _ _ _ _ _ _ _
               Hnew Hcall Hres Ha).
    by rewrite (match_field_none _ _ _ Hno).
Qed.

End SelectorResolver.

(** ** The index fragment assembler *)

(** The markers of a column, one optional marker after the other. *)
Lemma column_parts_eq {W} (name : gostring) (unique : bool)
    (where_ indexType : gostring) (j : nat) (sortF nullF opClassF : Value W)
    (fname : gostring) :
  column_parts name unique where_ indexType j sortF nullF opClassF fname =
  [str "index:" ++ name; str "priority:" ++ itoa (j + 1)]
  ++ (if bool_decide (TrimSpace (Value_String sortF) ≠ [])
      then [str "sort:" ++ TrimSpace (Value_String sortF)
            ++ (if bool_decide (TrimSpace (Value_String nullF) ≠ [])
                then str " nulls " ++ TrimSpace (Value_String nullF)
                else [])]
      else [])
  ++ (if (j =? 0)%nat && unique then [str "unique"] else [])
  ++ (if (j =? 0)%nat && bool_decide (where_ ≠ [])
      then [str "where:" ++ where_] else [])
  ++ (if (j =? 0)%nat && bool_decide (indexType ≠ [])
      then [str "type:" ++ indexType] else [])
  ++ (if Value_IsValid opClassF
         && bool_decide (TrimSpace (Value_String opClassF) ≠ [])
      then [str "expression:" ++ toSnakeCase fname ++ str " "
            ++ TrimSpace (Value_String opClassF)]
      else []).
Proof.
  unfold column_parts.
  repeat match goal with
         | |- context [if ?b then _ else _] => destruct b eqn:?
         end; simpl in *; rewrite ?app_nil_r; try done.
Qed.

(** Literals are evaluated to their code points before two markers are
    compared. *)
Ltac eval_str :=
  repeat match goal with
  | |- context [str ?s] =>
      let v := eval vm_compute in (str s) in change (str s) with v
  | H : context [str ?s] |- _ =>
      let v := eval vm_compute in (str s) in change (str s) with v in H
  end.

Ltac marker_cases H :=
  repeat match type of H with
         | context [if ?b then _ else _] => destruct b eqn:?
         end;
  repeat (rewrite ?elem_of_app, ?elem_of_cons, ?elem_of_nil in H);
  eval_str; simpl in *.

Lemma unique_marker_iff {W} name unique where_ indexType j
    (sortF nullF opClassF : Value W) fname :
  str "unique" ∈
    column_parts name unique where_ indexType j sortF nullF opClassF fname
  <-> j = 0 /\ unique = true.
Proof.
  rewrite column_parts_eq. split.
  - intros H. destruct (Nat.eqb_spec j 0) as [->|Hj]; simpl in H;
      marker_cases H; intuition (try discriminate; try congruence).
  - intros [-> ->]. simpl.
    repeat (rewrite ?elem_of_app, ?elem_of_cons). tauto.
Qed.

Ltac marker_fwd H j :=
  destruct (Nat.eqb_spec j 0); simpl in H;
  repeat case_bool_decide;
  repeat match type of H with
         | context [if ?b then _ else _] => destruct b eqn:?
         end;
  repeat (rewrite ?elem_of_app, ?elem_of_cons, ?elem_of_nil in H);
  eval_str; simpl in *;
  intuition (try discriminate; simplify_eq; try done).

Lemma where_marker_iff {W} name unique where_ indexType j
    (sortF nullF opClassF : Value W) fname (p : gostring) :
  str "where:" ++ p ∈
    column_parts name unique where_ indexType j sortF nullF opClassF fname
  <-> j = 0 /\ where_ <> [] /\ p = where_.
Proof.
  rewrite column_parts_eq. split.
  - intros H. marker_fwd H j.
  - intros (-> & Hne & ->). simpl. rewrite (bool_decide_eq_true_2 _ Hne).
    repeat (rewrite ?elem_of_app, ?elem_of_cons). tauto.
Qed.

Lemma type_marker_iff {W} name unique where_ indexType j
    (sortF nullF opClassF : Value W) fname (p : gostring) :
  str "type:" ++ p ∈
    column_parts name unique where_ indexType j sortF nullF opClassF fname
  <-> j = 0 /\ indexType <> [] /\ p = indexType.
Proof.
  rewrite column_parts_eq. split.
  - intros H. marker_fwd H j.
  - intros (-> & Hne & ->). simpl. rewrite (bool_decide_eq_true_2 _ Hne).
    repeat (rewrite ?elem_of_app, ?elem_of_cons). tauto.
Qed.

Lemma expression_marker_iff {W} name unique where_ indexType j
    (sortF nullF opClassF : Value W) fname (p : gostring) :
  str "expression:" ++ p ∈
    column_parts name unique where_ indexType j sortF nullF opClassF fname
  <-> Value_IsValid opClassF = true /\
      TrimSpace (Value_String opClassF) <> [] /\
      p = toSnakeCase fname ++ str " " ++ TrimSpace (Value_String opClassF).
Proof.
  rewrite column_parts_eq. split.
  - intros H. destruct (Value_IsValid opClassF) eqn:Hv; simpl in H;
      marker_fwd H j.
  - intros (Hv & Hne & ->). rewrite Hv, (bool_decide_eq_true_2 _ Hne).
    repeat (rewrite elem_of_app; right). simpl. apply elem_of_cons. by left.
Qed.

Lemma column_parts_head {W} name unique where_ indexType j
    (sortF nullF opClassF : Value W) fname :
  exists rest,
    column_parts name unique where_ indexType j sortF nullF opClassF fname =
    (str "index:" ++ name) :: (str "priority:" ++ itoa (j + 1)) :: rest.
Proof. rewrite column_parts_eq. simpl. eauto. Qed.

Section FragmentAssembler.
Context {W : Type} (reflect_New : rtype -> W -> Z * W).

Lemma for_rangeM_cons_ok {A St} (body : St -> nat -> A -> M W St)
    (i : nat) (x : A) (l : list A) (acc r : St) (w w' : W) :
  for_rangeM body i (x :: l) acc w = (Ok r, w') ->
  exists acc1 w1,
    body acc i x w = (Ok acc1, w1) /\
    for_rangeM body (S i) l acc1 w1 = (Ok r, w').
Proof.
  simpl. unfold bind.
  destruct (body acc i x w) as [[acc1| |] w1]; try done. eauto.
Qed.

Lemma for_rangeM_app {A St} (body : St -> nat -> A -> M W St)
    (l1 l2 : list A) (i : nat) (acc : St) (w : W) :
  for_rangeM body i (l1 ++ l2) acc w =
  match for_rangeM body i l1 acc w with
  | (Ok acc1, w1) => for_rangeM body (i + length l1) l2 acc1 w1
  | (Err e, w1) => (Err e, w1)
  | (Panic, w1) => (Panic, w1)
  end.
Proof.
  revert i acc w. induction l1 as [|x l1 IH]; intros i acc w; simpl.
  - unfold ret. by rewrite Nat.add_0_r.
  - unfold bind. destruct (body acc i x w) as [[acc1| |] w1]; try done.
    rewrite IH. by replace (S i + length l1) with (i + S (length l1)) by lia.
Qed.

Lemma tags_incl_refl tags : tags_incl tags tags.
Proof. by intros f x. Qed.

Lemma tags_incl_trans t1 t2 t3 :
  tags_incl t1 t2 -> tags_incl t2 t3 -> tags_incl t1 t3.
Proof. intros H1 H2 f x Hx. by apply H2, H1. Qed.

Lemma tags_incl_append tags fname frag :
  tags_incl tags (<[fname := fragments_of tags fname ++ [frag]]> tags).
Proof.
  intros f x Hx. unfold fragments_of in *.
  destruct (decide (fname = f)) as [->|Hne].
  - rewrite lookup_insert_eq. simpl. apply elem_of_app. by left.
  - by rewrite lookup_insert_ne.
Qed.

Lemma fragments_of_append tags fname frag :
  frag ∈ fragments_of (<[fname := fragments_of tags fname ++ [frag]]> tags)
           fname.
Proof.
  unfold fragments_of at 1. rewrite lookup_insert_eq. simpl.
  apply elem_of_app. right. by apply list_elem_of_singleton.
Qed.

(** The loop body on a column of a declaration: resolve the selector,
    then append the joined markers to the field's fragments. *)
Lemma collect_column_typed {T} name unique where_ indexType tags j
    (c : Col W T) (w : W) :
  collect_column reflect_New name unique where_ indexType tags j
    (ValueOf_Col c) w =
  match fieldNameFromSelectorValue reflect_New (ValueOf_Sel T (Sel c)) w with
  | (Ok fname, w') =>
      (Ok (<[fname := fragments_of tags fname
               ++ [Join (@column_parts W name unique where_ indexType j
                           (VString (Sort c)) (VString (Nulls c))
                           (VString (OpClass c)) fname) (str ",")]]> tags),
       w')
  | (Err e, w') => (Err (ErrColumn name (j + 1) e), w')
  | (Panic, w') => (Panic, w')
  end.
Proof.
  unfold collect_column, bind, wrap_error, ret. simpl.
  change (Value_FieldByName (ValueOf_Col c) (str "Sel"))
    with (ValueOf_Sel T (Sel c)).
  by destruct (fieldNameFromSelectorValue reflect_New _ w) as [[?| |] ?].
Qed.

Lemma collect_def_typed {T} tags i (d : IndexDefinition W T) :
  collect_def reflect_New tags i (ValueOf_IndexDefinition d) =
  for_rangeM
    (collect_column reflect_New (Name d) (Unique d) (TrimSpace (Where d))
       (TrimSpace (Type_ d)))
    0 (map ValueOf_Col (Columns d)) tags.
Proof. reflexivity. Qed.

Lemma fragments_of_append_inv tags fname frag f x :
  x ∈ fragments_of (<[fname := fragments_of tags fname ++ [frag]]> tags) f ->
  x ∈ fragments_of tags f \/ (f = fname /\ x = frag).
Proof.
  unfold fragments_of at 1. destruct (decide (fname = f)) as [->|Hne].
  - rewrite lookup_insert_eq. simpl. rewrite elem_of_app.
    rewrite list_elem_of_singleton. tauto.
  - rewrite lookup_insert_ne by done. by left.
Qed.

(** The loop over the columns of a declaration records one fragment per
    column, and nothing else. *)
Lemma columns_emit {T} (d : IndexDefinition W T) (cols : list (Col W T))
    (j0 : nat) tags (w : W) tags' (w' : W) :
  for_rangeM
    (collect_column reflect_New (Name d) (Unique d) (TrimSpace (Where d))
       (TrimSpace (Type_ d)))
    j0 (map ValueOf_Col cols) tags w = (Ok tags', w') ->
  tags_incl tags tags' /\
  (forall k c, cols !! k = Some c ->
     exists fname, emitted reflect_New tags' d (j0 + k) c fname) /\
  (forall f x, x ∈ fragments_of tags' f ->
     x ∈ fragments_of tags f \/
     exists k c, cols !! k = Some c /\ resolves_to reflect_New c f /\
                 x = fragment_of d (j0 + k) c f).
Proof.
  revert j0 tags w. induction cols as [|c0 cols IH]; intros j0 tags w Hrun.
  - simpl in Hrun. injection Hrun as <- <-.
    split; [apply tags_incl_refl|]. split; [by intros k c|]. by left.
  - simpl map in Hrun.
    apply for_rangeM_cons_ok in Hrun as (tags1 & w1 & Hstep & Hrest).
    rewrite collect_column_typed in Hstep.
    destruct (fieldNameFromSelectorValue reflect_New _ w)
      as [[fname| |] w0] eqn:Hsel; try done.
    injection Hstep as <- <-.
    apply IH in Hrest as (Hincl & Hcols & Honly).
    assert (Hres : resolves_to reflect_New c0 fname) by (by exists w, w0).
    split; [|split].
    + eapply tags_incl_trans; [apply tags_incl_append|exact Hincl].
    + intros [|k] c Hk.
      * injection Hk as <-. exists fname. split; [done|].
        rewrite Nat.add_0_r. apply Hincl. apply fragments_of_append.
      * destruct (Hcols k c Hk) as [f Hf]. exists f.
        by replace (j0 + S k) with (S j0 + k) by lia.
    + intros f x Hx. apply Honly in Hx as [Hx|(k & c & Hk & Hr & ->)].
      * apply fragments_of_append_inv in Hx as [Hx|[-> ->]]; [by left|].
        right. exists 0, c0. rewrite Nat.add_0_r. done.
      * right. exists (S k), c.
        by replace (j0 + S k) with (S j0 + k) by lia.
Qed.

Lemma defs_emit {T} (defs : list (IndexDefinition W T)) (i0 : nat)
    tags (w : W) tags' (w' : W) :
  for_rangeM (collect_def reflect_New) i0
    (map ValueOf_IndexDefinition defs) tags w = (Ok tags', w') ->
  tags_incl tags tags' /\
  (forall i d j c, defs !! i = Some d -> Columns d !! j = Some c ->
     exists fname, emitted reflect_New tags' d j c fname) /\
  (forall f x, x ∈ fragments_of tags' f ->
     x ∈ fragments_of tags f \/
     exists i d j c, defs !! i = Some d /\ Columns d !! j = Some c /\
                     resolves_to reflect_New c f /\ x = fragment_of d j c f).
Proof.
  revert i0 tags w. induction defs as [|d0 defs IH]; intros i0 tags w Hrun.
  - simpl in Hrun. injection Hrun as <- <-.
    split; [apply tags_incl_refl|]. split; [by intros i d j c|]. by left.
  - simpl map in Hrun.
    apply for_rangeM_cons_ok in Hrun as (tags1 & w1 & Hstep & Hrest).
    rewrite collect_def_typed in Hstep.
    apply columns_emit in Hstep as (Hincl0 & Hcols & Honly0).
    apply IH in Hrest as (Hincl & Hdefs & Honly).
    split; [by eapply tags_incl_trans|]. split.
    + intros [|i] d j c Hd Hc.
      * injection Hd as <-. destruct (Hcols j c Hc) as (f & Hres & Hin).
        exists f. split; [done|]. by apply Hincl.
      * by apply (Hdefs i d j c).
    + intros f x Hx.
      apply Honly in Hx as [Hx|(i & d & j & c & Hd & Hc & Hr & ->)].
      * apply Honly0 in Hx as [Hx|(j & c & Hc & Hr & ->)]; [by left|].
        right. by exists 0, d0, j, c.
      * right. by exists (S i), d, j, c.
Qed.

(** Every column of every declaration has its fragment in the result of
    a run that succeeds. *)
Lemma collect_emits {T} (baseStruct : rtype)
    (defs : list (IndexDefinition W T)) (w : W) tags (w' : W) :
  collectIndexTagsFromIndexesValue reflect_New baseStruct
    (ValueOf_Indexes defs) w = (Ok tags, w') ->
  forall i d j c, defs !! i = Some d -> Columns d !! j = Some c ->
    exists fname, emitted reflect_New tags d j c fname.
Proof.
  unfold collectIndexTagsFromIndexesValue. simpl. intros Hrun.
  by apply defs_emit in Hrun as (_ & H & _).
Qed.

(** Every fragment in the result is the fragment of a column of a
    declaration. *)
Lemma collect_only {T} (baseStruct : rtype)
    (defs : list (IndexDefinition W T)) (w : W) tags (w' : W) :
  collectIndexTagsFromIndexesValue reflect_New baseStruct
    (ValueOf_Indexes defs) w = (Ok tags, w') ->
  forall f x, x ∈ fragments_of tags f ->
    exists i d j c, defs !! i = Some d /\ Columns d !! j = Some c /\
                    resolves_to reflect_New c f /\ x = fragment_of d j c f.
Proof.
  unfold collectIndexTagsFromIndexesValue. simpl. intros Hrun f x Hx.
  apply defs_emit in Hrun as (_ & _ & H).
  apply H in Hx as [Hx|Hx]; [|done].
  unfold fragments_of in Hx. rewrite lookup_empty in Hx.
  by apply elem_of_nil in Hx.
Qed.

(** C6. In a run of the assembler that succeeds, every column at
    zero-based position [j] of a declaration [d] has a fragment recorded
    for the field it resolved to, and the markers of that fragment begin
    with [index:<Name>] and [priority:<j+1>], whatever the other
    attributes are. *)
Theorem priority_marker {T} (baseStruct : rtype)
    (defs : list (IndexDefinition W T)) (w : W) tags (w' : W) :
  collectIndexTagsFromIndexesValue reflect_New baseStruct
    (ValueOf_Indexes defs) w = (Ok tags, w') ->
  forall i d j c, defs !! i = Some d -> Columns d !! j = Some c ->
    exists fname rest,
      emitted reflect_New tags d j c fname /\
      fragment_parts d j c fname =
      (str "index:" ++ Name d) :: (str "priority:" ++ itoa (j + 1)) :: rest.
Proof.
  intros Hrun i d j c Hd Hc.
  destruct (collect_emits _ _ _ _ _ Hrun i d j c Hd Hc) as [fname Hem].
  destruct (column_parts_head (W:=W) (Name d) (Unique d)
              (TrimSpace (Where d)) (TrimSpace (Type_ d)) j
              (VString (Sort c)) (VString (Nulls c)) (VString (OpClass c))
              fname) as [rest Hrest].
  by exists fname, rest.
Qed.

(** C2 (amended). In a run of the assembler that succeeds, every column
    of every declaration has its fragment recorded for the field it
    resolved to, and every recorded fragment is the fragment of such a
    column; and the markers of the fragment of a column at position [j]
    of a declaration [d] hold [unique] exactly when [j = 0] and [Unique]
    is set, a marker [where:<p>] exactly when [j = 0] and [p] is [Where]
    with the surrounding white space trimmed and is not empty, and a
    marker [type:<p>] exactly when [j = 0] and [p] is [Type] trimmed and
    is not empty. *)
Theorem first_column_markers {T} (baseStruct : rtype)
    (defs : list (IndexDefinition W T)) (w : W) tags (w' : W) :
  collectIndexTagsFromIndexesValue reflect_New baseStruct
    (ValueOf_Indexes defs) w = (Ok tags, w') ->
  (forall i d j c, defs !! i = Some d -> Columns d !! j = Some c ->
     exists fname, emitted reflect_New tags d j c fname) /\
  (forall f x, x ∈ fragments_of tags f ->
     exists i d j c, defs !! i = Some d /\ Columns d !! j = Some c /\
                     resolves_to reflect_New c f /\ x = fragment_of d j c f) /\
  (forall (d : IndexDefinition W T) j c fname,
     (str "unique" ∈ fragment_parts d j c fname <->
      j = 0 /\ Unique d = true) /\
     (forall p, str "where:" ++ p ∈ fragment_parts d j c fname <->
      j = 0 /\ TrimSpace (Where d) <> [] /\ p = TrimSpace (Where d)) /\
     (forall p, str "type:" ++ p ∈ fragment_parts d j c fname <->
      j = 0 /\ TrimSpace (Type_ d) <> [] /\ p = TrimSpace (Type_ d))).
Proof.
  intros Hrun.
  split; [by apply (collect_emits _ _ _ _ _ Hrun)|].
  split; [by apply (collect_only _ _ _ _ _ Hrun)|].
  intros d j c fname. unfold fragment_parts.
  split; [apply unique_marker_iff|].
  split; intros p; [apply where_marker_iff|apply type_marker_iff].
Qed.

(** C3 (amended). In a run of the assembler that succeeds, the fragment
    of a column, at any position, holds a marker [expression:<p>]
    exactly when the column's [OpClass] with the surrounding white space
    trimmed is not empty and [p] is the snake-case name of the resolved
    field, one space, and the trimmed operator class. *)
Theorem expression_marker {T} (baseStruct : rtype)
    (defs : list (IndexDefinition W T)) (w : W) tags (w' : W) :
  collectIndexTagsFromIndexesValue reflect_New baseStruct
    (ValueOf_Indexes defs) w = (Ok tags, w') ->
  forall i d j c, defs !! i = Some d -> Columns d !! j = Some c ->
    exists fname,
      emitted reflect_New tags d j c fname /\
      (forall p, str "expression:" ++ p ∈ fragment_parts d j c fname <->
       TrimSpace (OpClass c) <> [] /\
       p = toSnakeCase fname ++ str " " ++ TrimSpace (OpClass c)).
Proof.
  intros Hrun i d j c Hd Hc.
  destruct (collect_emits _ _ _ _ _ Hrun i d j c Hd Hc) as [fname Hem].
  exists fname. split; [done|]. intros p. unfold fragment_parts.
  rewrite expression_marker_iff. simpl. tauto.
Qed.

End FragmentAssembler.

(** ** The tag merge *)

Lemma str_leb_refl (a : gostring) : str_leb a a = true.
Proof.
  induction a as [|x a IH]; [done|]. simpl.
  rewrite Z.eqb_refl, IH. apply orb_true_r.
Qed.

Lemma str_leb_trans (a b c : gostring) :
  str_leb a b = true -> str_leb b c = true -> str_leb a c = true.
Proof.
  revert b c. induction a as [|x a IH]; intros [|y b] [|z c]; simpl;
    try done.
  intros Hab Hbc.
  apply orb_prop in Hab as [Hxy|Hxy]; apply orb_prop in Hbc as [Hyz|Hyz].
  - apply Z.ltb_lt in Hxy, Hyz.
    apply orb_true_iff; left. apply Z.ltb_lt. lia.
  - apply andb_prop in Hyz as [Hyz _]. apply Z.eqb_eq in Hyz as <-.
    by rewrite Hxy.
  - apply andb_prop in Hxy as [Hxy _]. apply Z.eqb_eq in Hxy as ->.
    by rewrite Hyz.
  - apply andb_prop in Hxy as [Hxy Hab], Hyz as [Hyz Hbc].
    apply Z.eqb_eq in Hxy as ->. apply Z.eqb_eq in Hyz as ->.
    rewrite Z.eqb_refl, (IH b c Hab Hbc). apply orb_true_r.
Qed.

Lemma str_leb_antisym (a b : gostring) :
  str_leb a b = true -> str_leb b a = true -> a = b.
Proof.
  revert b. induction a as [|x a IH]; intros [|y b]; simpl; try done.
  intros Hab Hba.
  apply orb_prop in Hab as [Hxy|Hxy]; apply orb_prop in Hba as [Hyx|Hyx].
  - apply Z.ltb_lt in Hxy, Hyx. lia.
  - apply andb_prop in Hyx as [Hyx _]. apply Z.eqb_eq in Hyx.
    apply Z.ltb_lt in Hxy. lia.
  - apply andb_prop in Hxy as [Hxy _]. apply Z.eqb_eq in Hxy.
    apply Z.ltb_lt in Hyx. lia.
  - apply andb_prop in Hxy as [Hxy Hab], Hyx as [_ Hba].
    apply Z.eqb_eq in Hxy as ->. f_equal. by apply IH.
Qed.

Lemma str_leb_total (a b : gostring) :
  str_leb a b = true \/ str_leb b a = true.
Proof.
  revert b. induction a as [|x a IH]; intros [|y b]; simpl; auto.
  destruct (Z.ltb_spec x y) as [Hlt|Hge]; [by left|].
  destruct (Z.ltb_spec y x) as [Hlt'|Hge']; [by right|].
  assert (x = y) as -> by lia. rewrite Z.eqb_refl. simpl. apply IH.
Qed.

#[global] Instance str_le_trans : Transitive str_le.
Proof. intros a b c. apply str_leb_trans. Qed.

#[global] Instance str_le_antisym : AntiSymm (=) str_le.
Proof. intros a b. apply str_leb_antisym. Qed.

#[global] Instance str_le_total : Total str_le.
Proof. intros a b. apply str_leb_total. Qed.

(** [sort.Strings] returns the same slice for any two arrangements of
    the same strings. *)
Lemma sort_Strings_perm (l1 l2 : list gostring) :
  l1 ≡ₚ l2 -> sort_Strings l1 = sort_Strings l2.
Proof.
  intros Hp. unfold sort_Strings.
  apply (Sorted_unique str_le); try apply Sorted_merge_sort; try apply _.
  by rewrite !merge_sort_Permutation.
Qed.

(** The tag does not depend on the order in which the map is ranged
    over. *)
Lemma buildStructTag_range_perm (kv : gmap gostring gostring)
    (entries : list (gostring * gostring)) :
  entries ≡ₚ map_to_list kv ->
  buildStructTag_range entries = buildStructTag kv.
Proof.
  intros Hp. unfold buildStructTag, buildStructTag_range.
  destruct entries as [|e entries].
  - apply Permutation.Permutation_nil in Hp. by rewrite Hp.
  - destruct (map_to_list kv) as [|e' l'] eqn:Hl.
    + symmetry in Hp. by apply Permutation.Permutation_nil in Hp.
    + f_equal. apply sort_Strings_perm. by apply Permutation_map.
Qed.

Lemma strip_loop_filter (parts : list gostring) (i : nat)
    (keep : list gostring) :
  for_range (fun keep (_ : nat) p =>
    let pp := TrimSpace p in
    if is_index_piece pp then keep else keep ++ [pp]) i parts keep =
  keep ++ filter (fun pp => is_index_piece pp = false)
            (map TrimSpace parts).
Proof.
  revert i keep. induction parts as [|p parts IH]; intros i keep; simpl.
  - by rewrite app_nil_r.
  - rewrite IH. rewrite filter_cons.
    destruct (is_index_piece (TrimSpace p)) eqn:Hp; simpl.
    + done.
    + by rewrite <- app_assoc.
Qed.

(** What [stripIndexPiecesFromGormTag] keeps: the trimmed pieces that do
    not begin with [index:] or [uniqueIndex:]. *)
Lemma stripIndexPiecesFromGormTag_spec (gormTag : gostring) :
  gormTag <> [] ->
  stripIndexPiecesFromGormTag gormTag =
  Join (filter (fun pp => is_index_piece pp = false)
          (map TrimSpace (Split gormTag 59%Z))) (str ";").
Proof.
  intros Hne. destruct gormTag as [|r g]; [done|].
  unfold stripIndexPiecesFromGormTag. by rewrite strip_loop_filter.
Qed.

Lemma mergeIndexIntoGormTag_kv_other (orig : gostring)
    (toAdd : list gostring) (k : gostring) :
  k <> str "gorm" ->
  mergeIndexIntoGormTag_kv orig toAdd !! k = parseStructTag orig !! k.
Proof.
  intros Hk. unfold mergeIndexIntoGormTag_kv.
  repeat match goal with
         | |- context [match ?x with [] => _ | _ :: _ => _ end] =>
             destruct x eqn:?
         end;
    by rewrite ?lookup_delete_ne, ?lookup_insert_ne by done.
Qed.

Lemma mergeIndexIntoGormTag_kv_gorm (orig : gostring)
    (toAdd : list gostring) :
  let stripped :=
    stripIndexPiecesFromGormTag
      (default [] (parseStructTag orig !! str "gorm")) in
  let gormVal :=
    match toAdd with
    | [] => stripped
    | _ =>
        match stripped with
        | [] => Join toAdd (str ";")
        | _ => stripped ++ str ";" ++ Join toAdd (str ";")
        end
    end in
  mergeIndexIntoGormTag_kv orig toAdd !! str "gorm" =
  match gormVal with [] => None | _ => Some gormVal end.
Proof.
  intros stripped gormVal. unfold mergeIndexIntoGormTag_kv.
  fold stripped. fold gormVal.
  destruct gormVal; by rewrite ?lookup_delete_eq, ?lookup_insert_eq.
Qed.


(** *** Merging again into a merged tag *)

Lemma trim_left_suffix (s : gostring) :
  exists sp, s = sp ++ trim_left s /\ Forall (fun r => is_space r = true) sp.
Proof.
  induction s as [|r s (sp & Hs & Hsp)]; [by exists []|]. simpl.
  destruct (is_space r) eqn:Hr.
  - exists (r :: sp). split; [by rewrite Hs at 1|by constructor].
  - by exists [].
Qed.

Lemma trim_left_head (s : gostring) :
  match trim_left s with r :: _ => is_space r = false | [] => True end.
Proof.
  induction s as [|r s IH]; [done|]. simpl.
  destruct (is_space r) eqn:Hr; [done|]. simpl. done.
Qed.

Lemma trim_left_id (s : gostring) :
  match s with r :: _ => is_space r = false | [] => True end ->
  trim_left s = s.
Proof. destruct s as [|r s]; [done|]. simpl. by intros ->. Qed.

Lemma trim_left_app (a b : gostring) :
  match b with r :: _ => is_space r = false | [] => False end ->
  trim_left (a ++ b) = trim_left a ++ b.
Proof.
  intros Hb. induction a as [|r a IH]; simpl.
  - destruct b as [|x b]; [done|]. simpl. by rewrite Hb.
  - destruct (is_space r); [done|done].
Qed.

Lemma Forall_trim_left (P : rune -> Prop) (s : gostring) :
  Forall P s -> Forall P (trim_left s).
Proof.
  intros H. destruct (trim_left_suffix s) as (sp & Hs & _).
  rewrite Hs in H. by apply Forall_app in H as [_ H].
Qed.

Lemma Forall_TrimSpace (P : rune -> Prop) (s : gostring) :
  Forall P s -> Forall P (TrimSpace s).
Proof.
  intros H. unfold TrimSpace.
  apply Forall_rev, Forall_trim_left, Forall_rev.
  by apply Forall_trim_left.
Qed.

Lemma TrimSpace_is_trimmed (s : gostring) : is_trimmed (TrimSpace s).
Proof.
  unfold is_trimmed, TrimSpace. rewrite rev_involutive.
  split; [|apply trim_left_head].
  pose proof (trim_left_head s) as Ha.
  destruct (trim_left_suffix (rev (trim_left s))) as (sp & Hs & _).
  apply (f_equal (@rev rune)) in Hs.
  rewrite rev_involutive, rev_app_distr in Hs.
  destruct (rev (trim_left (rev (trim_left s)))) as [|r b]; [done|].
  rewrite Hs in Ha. done.
Qed.

Lemma TrimSpace_id (s : gostring) : is_trimmed s -> TrimSpace s = s.
Proof.
  intros [Hh Hl]. unfold TrimSpace.
  rewrite (trim_left_id s Hh), (trim_left_id (rev s) Hl).
  apply rev_involutive.
Qed.

Lemma TrimSpace_idemp (s : gostring) :
  TrimSpace (TrimSpace s) = TrimSpace s.
Proof. apply TrimSpace_id, TrimSpace_is_trimmed. Qed.

Lemma HasPrefix_app (s pre : gostring) :
  HasPrefix s pre = true <-> exists rest, s = pre ++ rest.
Proof.
  revert s. induction pre as [|p pre IH]; intros s.
  - destruct s; simpl; (split; [eauto|done]).
  - destruct s as [|r s]; simpl; [split; [done|by intros [? ?]]|].
    rewrite andb_true_iff, Z.eqb_eq, IH. split.
    + intros [-> [rest ->]]. by exists rest.
    + intros [rest [= -> ->]]. eauto.
Qed.

(** Trimming keeps the prefix [index:]. *)
Lemma TrimSpace_index_prefix (f : gostring) :
  HasPrefix f (str "index:") = true ->
  HasPrefix (TrimSpace f) (str "index:") = true.
Proof.
  intros Hp. apply HasPrefix_app in Hp as [rest ->].
  apply HasPrefix_app. unfold TrimSpace.
  rewrite (trim_left_id (str "index:" ++ rest)) by done.
  rewrite rev_app_distr, trim_left_app by done.
  rewrite rev_app_distr. exists (rev (trim_left (rev rest))).
  by rewrite rev_involutive.
Qed.

Lemma Split_nonempty (s : gostring) (sep : rune) : Split s sep <> [].
Proof.
  destruct s as [|r s]; simpl; [done|].
  destruct (r =? sep)%Z; [done|]. by destruct (Split s sep).
Qed.

Lemma Split_free (s : gostring) (sep : rune) :
  Forall (free_of sep) (Split s sep).
Proof.
  induction s as [|r s IH]; simpl; [by repeat constructor|].
  destruct (Z.eqb_spec r sep) as [->|Hne].
  - constructor; [constructor|done].
  - destruct (Split s sep) as [|p ps]; [by repeat constructor|].
    apply Forall_cons in IH as [Hp Hps]. constructor; [|done].
    by constructor.
Qed.

Lemma Split_no_sep (s : gostring) (sep : rune) :
  free_of sep s -> Split s sep = [s].
Proof.
  induction s as [|r s IH]; [done|]. intros [Hr Hs]%Forall_cons. simpl.
  destruct (Z.eqb_spec r sep) as [->|Hne]; [done|]. by rewrite IH.
Qed.

Lemma Split_app_sep (a b : gostring) (sep : rune) :
  Split (a ++ sep :: b) sep = Split a sep ++ Split b sep.
Proof.
  induction a as [|r a IH]; simpl.
  - by rewrite Z.eqb_refl.
  - destruct (r =? sep)%Z; [by rewrite IH|]. rewrite IH.
    pose proof (Split_nonempty a sep) as Hne.
    by destruct (Split a sep).
Qed.

Lemma Join_cons (e : gostring) (rest : list gostring) (sep : gostring) :
  rest <> [] -> Join (e :: rest) sep = e ++ sep ++ Join rest sep.
Proof. by destruct rest. Qed.

Lemma Split_Join (l : list gostring) (sep : rune) :
  l <> [] -> Forall (free_of sep) l -> Split (Join l [sep]) sep = l.
Proof.
  induction l as [|e l IH]; [done|]. intros _ [He Hl]%Forall_cons.
  destruct l as [|e' l].
  - simpl. by apply Split_no_sep.
  - rewrite Join_cons by done. simpl app. rewrite Split_app_sep.
    rewrite Split_no_sep by done. simpl. f_equal. by apply IH.
Qed.

Lemma Forall_Join (P : rune -> Prop) (l : list gostring) (sep : gostring) :
  Forall (Forall P) l -> Forall P sep -> Forall P (Join l sep).
Proof.
  intros Hl Hsep. induction l as [|e l IH]; [constructor|].
  apply Forall_cons in Hl as [He Hl]. destruct l as [|e' l]; [done|].
  rewrite Join_cons by done. rewrite !Forall_app. auto.
Qed.

Lemma kept_free (g : gostring) : Forall (free_of 59%Z) (kept g).
Proof.
  unfold kept. apply Forall_forall. intros pp Hpp.
  apply list_elem_of_filter in Hpp as [_ Hpp].
  apply list_elem_of_In, in_map_iff in Hpp as (p & <- & Hp).
  apply Forall_TrimSpace.
  pose proof (Split_free g 59%Z) as Hf. rewrite Forall_forall in Hf.
  apply Hf. by apply list_elem_of_In.
Qed.

Lemma kept_fixed (g : gostring) :
  filter (fun pp => is_index_piece pp = false) (map TrimSpace (kept g)) =
  kept g.
Proof.
  assert (Hid : map TrimSpace (kept g) = kept g).
  { unfold kept. induction (Split g 59%Z) as [|p ps IH]; [done|].
    simpl map. rewrite filter_cons.
    destruct (decide (is_index_piece (TrimSpace p) = false)); [|done].
    simpl. by rewrite TrimSpace_idemp, IH. }
  rewrite Hid. unfold kept. rewrite list_filter_filter.
  apply list_filter_iff. tauto.
Qed.

Lemma strip_kept (g : gostring) :
  stripIndexPiecesFromGormTag g =
  match g with [] => [] | _ => Join (kept g) (str ";") end.
Proof.
  destruct g as [|r g]; [done|].
  by rewrite stripIndexPiecesFromGormTag_spec.
Qed.

Lemma strip_Join (l : list gostring) :
  Forall (free_of 59%Z) l ->
  stripIndexPiecesFromGormTag (Join l (str ";")) =
  Join (filter (fun pp => is_index_piece pp = false) (map TrimSpace l))
    (str ";").
Proof.
  intros Hl. rewrite strip_kept.
  destruct (Join l (str ";")) as [|r g] eqn:Hj.
  - destruct l as [|e l]; [done|]. destruct l as [|e' l].
    + simpl in Hj. subst e. by vm_compute.
    + rewrite Join_cons in Hj by done. destruct e; discriminate Hj.
  - rewrite <- Hj. unfold kept.
    destruct l as [|e l]; [done|].
    do 3 f_equal. by apply (Split_Join (e :: l) 59%Z).
Qed.

(** The strip step leaves what it has stripped as it is. *)
Lemma strip_idemp (g : gostring) :
  stripIndexPiecesFromGormTag (stripIndexPiecesFromGormTag g) =
  stripIndexPiecesFromGormTag g.
Proof.
  rewrite (strip_kept g). destruct g as [|r g]; [done|].
  rewrite strip_Join by apply kept_free. by rewrite kept_fixed.
Qed.

Lemma clean_fragments_stripped (toAdd : list gostring) :
  Forall clean_fragment toAdd ->
  filter (fun pp => is_index_piece pp = false) (map TrimSpace toAdd) = [].
Proof.
  induction toAdd as [|f l IH]; [done|]. intros [Hf Hl]%Forall_cons.
  simpl map. rewrite filter_cons. destruct Hf as (Hp & _ & _).
  apply TrimSpace_index_prefix in Hp.
  assert (Hi : is_index_piece (TrimSpace f) = true)
    by (unfold is_index_piece; by rewrite Hp).
  rewrite decide_False by (by rewrite Hi). by apply IH.
Qed.

Lemma Join_app (l1 l2 : list gostring) (sep : gostring) :
  l1 <> [] -> l2 <> [] ->
  Join (l1 ++ l2) sep = Join l1 sep ++ sep ++ Join l2 sep.
Proof.
  intros H1 H2. induction l1 as [|e l1 IH]; [done|].
  destruct l1 as [|e' l1].
  - simpl app. by rewrite Join_cons.
  - change ((e :: e' :: l1) ++ l2) with (e :: ((e' :: l1) ++ l2)).
    rewrite !Join_cons by done. rewrite IH by done.
    by rewrite <- !app_assoc.
Qed.

Lemma clean_fragment_free (toAdd : list gostring) :
  Forall clean_fragment toAdd -> Forall (free_of 59%Z) toAdd.
Proof. intros H. eapply Forall_impl; [exact H|]. by intros f (_ & _ & ?). Qed.

(** Stripping the merged value gives back what the first strip kept: the
    appended fragments all go. *)
Lemma strip_merged (g : gostring) (toAdd : list gostring) :
  Forall clean_fragment toAdd ->
  stripIndexPiecesFromGormTag
    (merged_value (stripIndexPiecesFromGormTag g) toAdd) =
  stripIndexPiecesFromGormTag g.
Proof.
  intros Hclean. unfold merged_value.
  destruct toAdd as [|f l]; [apply strip_idemp|].
  pose proof (clean_fragment_free _ Hclean) as Hfree.
  destruct (stripIndexPiecesFromGormTag g) as [|r s] eqn:Hs.
  - rewrite strip_Join by done.
    by rewrite clean_fragments_stripped.
  - rewrite <- Hs. destruct g as [|r0 g]; [done|].
    assert (Hsg : stripIndexPiecesFromGormTag (r0 :: g) =
                  Join (kept (r0 :: g)) (str ";"))
      by (by apply stripIndexPiecesFromGormTag_spec).
    rewrite Hsg in *.
    assert (Hk : kept (r0 :: g) <> []) by (by intros Hk; rewrite Hk in Hs).
    rewrite <- Join_app by done.
    rewrite strip_Join.
    2:{ apply Forall_app. split; [apply kept_free|done]. }
    rewrite map_app, filter_app, kept_fixed.
    by rewrite clean_fragments_stripped, app_nil_r.
Qed.

Lemma set_gorm_lookup (kv : gmap gostring gostring) (gormVal : gostring) :
  default [] (set_gorm kv gormVal !! str "gorm") = gormVal.
Proof.
  unfold set_gorm.
  destruct gormVal; by rewrite ?lookup_delete_eq, ?lookup_insert_eq.
Qed.

Lemma set_gorm_idemp (kv : gmap gostring gostring) (gormVal : gostring) :
  set_gorm (set_gorm kv gormVal) gormVal = set_gorm kv gormVal.
Proof.
  unfold set_gorm.
  destruct gormVal; by rewrite ?delete_delete_eq, ?insert_insert_eq.
Qed.

Lemma mergeIndexIntoGormTag_kv_merge_gorm (orig : gostring)
    (toAdd : list gostring) :
  mergeIndexIntoGormTag_kv orig toAdd =
  merge_gorm (parseStructTag orig) toAdd.
Proof. reflexivity. Qed.

(** Merging the same fragments again changes nothing in the map. *)
Lemma merge_gorm_idemp (kv : gmap gostring gostring)
    (toAdd : list gostring) :
  Forall clean_fragment toAdd ->
  merge_gorm (merge_gorm kv toAdd) toAdd = merge_gorm kv toAdd.
Proof.
  intros Hclean. unfold merge_gorm at 1.
  unfold merge_gorm at 2. rewrite set_gorm_lookup.
  rewrite (strip_merged _ _ Hclean).
  unfold merge_gorm. apply set_gorm_idemp.
Qed.

(** **** Reading back a serialized tag *)

Lemma word_key_snoc (k : gostring) (c : rune) :
  is_word c = true ->
  (k = [] \/ word_key k) -> word_key (k ++ [c]).
Proof.
  intros Hc Hk. split; [by destruct k|].
  apply Forall_app. split; [|by repeat constructor].
  destruct Hk as [->|[_ Hk]]; [constructor|done].
Qed.

(** Every match of [tagKV] has a word key and a value without a double
    quote. *)
Lemma tagKV_scan_ok (s : gostring) (st : scan_state) :
  state_ok st -> Forall entry_ok (tagKV_scan st s).
Proof.
  revert st. induction s as [|c s IH]; intros st Hst; [constructor|].
  destruct st as [|k|k|k v]; simpl in *.
  - destruct (is_word c) eqn:Hc; apply IH; simpl; [|done].
    apply (word_key_snoc [] c Hc). by left.
  - destruct (is_word c) eqn:Hc; [apply IH; simpl|].
    + apply word_key_snoc; auto.
    + destruct (c =? 58)%Z; by apply IH.
  - destruct (Z.eqb_spec c quote) as [->|Hq]; [apply IH; simpl|].
    + split; [done|constructor].
    + destruct (is_word c) eqn:Hc; apply IH; simpl; [|done].
      apply (word_key_snoc [] c Hc). by left.
  - destruct (Z.eqb_spec c quote) as [->|Hq].
    + constructor; [done|]. by apply IH.
    + apply IH. simpl. destruct Hst as [Hk Hv]. split; [done|].
      apply Forall_app. split; [done|]. by repeat constructor.
Qed.

Lemma scan_key (k rest acc : gostring) :
  Forall (fun r => is_word r = true) k ->
  tagKV_scan (InKey acc) (k ++ rest) = tagKV_scan (InKey (acc ++ k)) rest.
Proof.
  revert acc. induction k as [|c k IH]; intros acc Hk; simpl.
  - by rewrite app_nil_r.
  - apply Forall_cons in Hk as [Hc Hk]. rewrite Hc.
    rewrite IH by done. by rewrite <- app_assoc.
Qed.

Lemma scan_value (v rest k acc : gostring) :
  free_of quote v ->
  tagKV_scan (InValue k acc) (v ++ quote :: rest) =
  (k, acc ++ v) :: tagKV_scan Idle rest.
Proof.
  revert acc. induction v as [|c v IH]; intros acc Hv; simpl.
  - by rewrite app_nil_r.
  - apply Forall_cons in Hv as [Hc Hv].
    assert (Hq : (c =? quote)%Z = false) by (by apply Z.eqb_neq).
    fold quote. rewrite Hq. rewrite IH by done. by rewrite <- app_assoc.
Qed.

(** One rendered entry is read back as that entry. *)
Lemma scan_part (e : gostring * gostring) (rest : gostring) :
  entry_ok e ->
  tagKV_scan Idle (tag_part e ++ rest) = e :: tagKV_scan Idle rest.
Proof.
  destruct e as [k v]. intros [[Hne Hk] Hv]. unfold tag_part. simpl fst.
  simpl snd. destruct k as [|c k]; [done|].
  apply Forall_cons in Hk as [Hc Hk].
  rewrite <- !app_assoc. simpl. rewrite Hc.
  rewrite scan_key by done. simpl.
  rewrite scan_value by done. done.
Qed.

Lemma scan_join (entries : list (gostring * gostring)) :
  Forall entry_ok entries ->
  tagKV_scan Idle (Join (map tag_part entries) (str " ")) = entries.
Proof.
  induction entries as [|e l IH]; [done|]. intros [He Hl]%Forall_cons.
  destruct l as [|e' l].
  - simpl. rewrite <- (app_nil_r (tag_part e)). by rewrite scan_part.
  - simpl map. rewrite Join_cons by done.
    rewrite scan_part by done. f_equal.
    change (str " ") with [32%Z]. simpl app.
    change (tagKV_scan Idle (32%Z :: ?x)) with (tagKV_scan Idle x).
    by apply IH.
Qed.

Lemma foldl_insert_list_to_map (l : list (gostring * gostring))
    (m : gmap gostring gostring) :
  foldl (fun out e => <[e.1 := e.2]> out) m l =
  foldr (fun e out => <[e.1 := e.2]> out) m (reverse l).
Proof.
  revert m. induction l as [|e l IH]; intros m; [done|].
  simpl. rewrite IH, reverse_cons, foldr_app. done.
Qed.

Lemma parse_entries (kv : gmap gostring gostring)
    (entries : list (gostring * gostring)) :
  entries ≡ₚ map_to_list kv ->
  foldl (fun out e => <[e.1 := e.2]> out) ∅ entries = kv.
Proof.
  intros Hp. rewrite foldl_insert_list_to_map.
  change (foldr (fun e out => <[e.1 := e.2]> out) ∅ (reverse entries))
    with (list_to_map (M := gmap gostring gostring) (reverse entries)).
  etrans; [|apply (list_to_map_to_list kv)].
  assert (Hp' : reverse entries ≡ₚ map_to_list kv)
    by (by rewrite reverse_Permutation).
  apply list_to_map_proper; [|done].
  rewrite Hp'. apply NoDup_fst_map_to_list.
Qed.

(** A map of word keys and values without double quotes is read back
    from its serialization. *)
Lemma parse_build (kv : gmap gostring gostring) :
  map_Forall (fun k v => entry_ok (k, v)) kv ->
  parseStructTag (buildStructTag kv) = kv.
Proof.
  intros Hok. unfold parseStructTag, tagKV_FindAllStringSubmatch.
  assert (Hb : exists entries,
             entries ≡ₚ map_to_list kv /\
             buildStructTag kv = Join (map tag_part entries) (str " ")).
  { unfold buildStructTag, buildStructTag_range.
    pose proof (merge_sort_Permutation str_le
                  (map tag_part (map_to_list kv))) as Hs.
    apply Permutation.Permutation_map_inv in Hs as (entries & Hs & Hp).
    exists entries. split; [done|].
    unfold sort_Strings. rewrite Hs.
    destruct (map_to_list kv) eqn:Hl; [|done].
    apply Permutation.Permutation_nil in Hp. by subst. }
  destruct Hb as (entries & Hp & ->).
  rewrite scan_join; [by apply parse_entries|].
  apply Forall_forall. intros [k v] Hin.
  rewrite Hp in Hin. apply elem_of_map_to_list in Hin.
  by apply (Hok k v).
Qed.

Lemma parseStructTag_ok (tag : gostring) :
  map_Forall (fun k v => entry_ok (k, v)) (parseStructTag tag).
Proof.
  unfold parseStructTag, tagKV_FindAllStringSubmatch.
  pose proof (tagKV_scan_ok tag Idle I) as Hok.
  revert Hok. generalize (tagKV_scan Idle tag). intros l Hl.
  assert (Hgen : forall m : gmap gostring gostring,
             map_Forall (fun k v => entry_ok (k, v)) m ->
             map_Forall (fun k v => entry_ok (k, v))
               (foldl (fun out e => <[e.1 := e.2]> out) m l)).
  { induction Hl as [|[k v] l He Hl IH]; intros m Hm; [done|].
    simpl. apply IH. by apply map_Forall_insert_2. }
  apply Hgen. apply map_Forall_empty.
Qed.

Lemma Forall_Split (P : rune -> Prop) (s : gostring) (sep : rune) :
  Forall P s -> Forall (Forall P) (Split s sep).
Proof.
  induction s as [|c s IH]; simpl; [by repeat constructor|].
  intros [Hc Hs]%Forall_cons. specialize (IH Hs).
  destruct (c =? sep)%Z; [by repeat constructor|].
  destruct (Split s sep) as [|p ps]; [by repeat constructor|].
  apply Forall_cons in IH as [Hp Hps]. constructor; [|done].
  by constructor.
Qed.

Lemma free_of_strip (g : gostring) :
  free_of quote g -> free_of quote (stripIndexPiecesFromGormTag g).
Proof.
  intros Hg. rewrite strip_kept. destruct g as [|r g]; [constructor|].
  apply Forall_Join; [|by vm_compute; repeat constructor].
  apply Forall_forall. intros pp Hpp. unfold kept in Hpp.
  apply list_elem_of_filter in Hpp as [_ Hpp].
  apply list_elem_of_In, in_map_iff in Hpp as (p & <- & Hp).
  apply Forall_TrimSpace.
  pose proof (Forall_Split _ _ 59%Z Hg) as Hf.
  rewrite Forall_forall in Hf. apply Hf. by apply list_elem_of_In.
Qed.

Lemma merge_gorm_ok (kv : gmap gostring gostring) (toAdd : list gostring) :
  map_Forall (fun k v => entry_ok (k, v)) kv ->
  Forall clean_fragment toAdd ->
  map_Forall (fun k v => entry_ok (k, v)) (merge_gorm kv toAdd).
Proof.
  intros Hkv Hclean. unfold merge_gorm, set_gorm.
  set (stripped := stripIndexPiecesFromGormTag _).
  assert (Hs : free_of quote stripped).
  { apply free_of_strip. destruct (kv !! str "gorm") as [g|] eqn:Hg;
      [|constructor]. simpl. by destruct (Hkv _ _ Hg). }
  assert (Hadd : free_of quote (Join toAdd (str ";"))).
  { apply Forall_Join; [|by vm_compute; repeat constructor].
    eapply Forall_impl; [exact Hclean|]. by intros f (_ & ? & _). }
  assert (Hv : free_of quote (merged_value stripped toAdd)).
  { clearbody stripped. unfold merged_value. destruct toAdd; [done|].
    destruct stripped; [done|]. unfold free_of. rewrite !Forall_app.
    split; [done|]. split; [by vm_compute; repeat constructor|done]. }
  destruct (merged_value stripped toAdd) eqn:Hm.
  - by apply map_Forall_delete.
  - apply map_Forall_insert_2; [|done]. split; [|done].
    by vm_compute; repeat constructor.
Qed.

(** Merging clean fragments into the tag that a merge of the same
    fragments has produced gives that tag again. *)
Lemma mergeIndexIntoGormTag_again (orig : gostring)
    (toAdd : list gostring) :
  Forall clean_fragment toAdd ->
  mergeIndexIntoGormTag (mergeIndexIntoGormTag orig toAdd) toAdd =
  mergeIndexIntoGormTag orig toAdd.
Proof.
  intros Hclean. unfold mergeIndexIntoGormTag at 1.
  rewrite mergeIndexIntoGormTag_kv_merge_gorm.
  unfold mergeIndexIntoGormTag.
  rewrite mergeIndexIntoGormTag_kv_merge_gorm.
  rewrite parse_build
    by (apply merge_gorm_ok; [apply parseStructTag_ok|done]).
  by rewrite merge_gorm_idemp.
Qed.

(** The fragments of the assembler begin with [index:]. *)
Lemma fragment_of_index_prefix {W : Type} {T : rtype}
    (d : IndexDefinition W T) (j : nat) (c : Col W T) (fname : gostring) :
  HasPrefix (fragment_of d j c fname) (str "index:") = true.
Proof.
  unfold fragment_of, fragment_parts.
  destruct (column_parts_head (W:=W) (Name d) (Unique d)
              (TrimSpace (Where d)) (TrimSpace (Type_ d)) j
              (VString (Sort c)) (VString (Nulls c)) (VString (OpClass c))
              fname) as [rest ->].
  apply HasPrefix_app. rewrite Join_cons by done.
  rewrite <- app_assoc. eauto.
Qed.

(** C7 (amended). The merge step (1) keeps, of the pieces of the prior
    [gorm] value, the trimmed ones that begin with neither [index:] nor
    [uniqueIndex:]; (2) appends the new fragments, joined by [;], to what
    is kept, and leaves the other keys as they are; (3) serializes the
    rendered entries (key, colon, quoted value) in the order of strings,
    so that the tag is the same bytes for every order in which the map
    is ranged over: doing the synthesis again on the same input gives
    the same tag; and (4) when the new fragments begin with [index:] and
    hold neither a double quote nor a semicolon, merging them again into
    the tag so produced, which already holds them, gives that same
    tag. *)
Theorem merge_deterministic (orig : gostring) (toAdd : list gostring) :
  let kv := parseStructTag orig in
  let stripped :=
    stripIndexPiecesFromGormTag (default [] (kv !! str "gorm")) in
  let kv' := mergeIndexIntoGormTag_kv orig toAdd in
  (forall g, g <> [] ->
     exists keep,
       stripIndexPiecesFromGormTag g = Join keep (str ";") /\
       keep = filter (fun pp => is_index_piece pp = false)
                (map TrimSpace (Split g 59%Z)) /\
       Forall (fun pp => HasPrefix pp (str "index:") = false /\
                         HasPrefix pp (str "uniqueIndex:") = false) keep) /\
  (kv' !! str "gorm" =
   let gormVal :=
     match toAdd with
     | [] => stripped
     | _ =>
         match stripped with
         | [] => Join toAdd (str ";")
         | _ => stripped ++ str ";" ++ Join toAdd (str ";")
         end
     end in
   match gormVal with [] => None | _ => Some gormVal end) /\
  (forall k, k <> str "gorm" -> kv' !! k = kv !! k) /\
  (forall entries, entries ≡ₚ map_to_list kv' ->
     buildStructTag_range entries = mergeIndexIntoGormTag orig toAdd) /\
  (exists parts,
     Sorted str_le parts /\
     parts ≡ₚ map tag_part (map_to_list kv') /\
     mergeIndexIntoGormTag orig toAdd = Join parts (str " ")) /\
  (Forall clean_fragment toAdd ->
   mergeIndexIntoGormTag (mergeIndexIntoGormTag orig toAdd) toAdd =
   mergeIndexIntoGormTag orig toAdd).
Proof.
  intros kv stripped kv'.
  split; [|split; [|split; [|split; [|split]]]];
    [| | | | |apply mergeIndexIntoGormTag_again].
  - intros g Hg. eexists. split; [by apply stripIndexPiecesFromGormTag_spec|].
    split; [done|]. apply Forall_forall. intros pp Hpp.
    apply list_elem_of_filter in Hpp as [Hpp _].
    unfold is_index_piece in Hpp. by apply orb_false_elim in Hpp.
  - apply mergeIndexIntoGormTag_kv_gorm.
  - intros k Hk. by apply mergeIndexIntoGormTag_kv_other.
  - intros entries Hp. by apply buildStructTag_range_perm.
  - exists (sort_Strings (map tag_part (map_to_list kv'))).
    split; [apply Sorted_merge_sort; apply _|].
    split; [apply merge_sort_Permutation|].
    unfold mergeIndexIntoGormTag, buildStructTag, buildStructTag_range.
    fold kv'. by destruct (map_to_list kv').
Qed.

(** ** The extension aggregator *)

Lemma first_occurrences_filter (P : gostring -> Prop)
    `{!forall x, Decision (P x)} (l : list gostring) :
  first_occurrences (filter P l) = filter P (first_occurrences l).
Proof.
  induction l as [|x l IH]; [done|].
  rewrite filter_cons. simpl. destruct (decide (P x)) as [HP|HP]; simpl.
  - rewrite filter_cons, decide_True by done. f_equal.
    rewrite IH, !list_filter_filter. apply list_filter_iff. tauto.
  - rewrite filter_cons, decide_False by done.
    rewrite IH, list_filter_filter. apply list_filter_iff.
    intros y. split; [|tauto]. intros HPy. split; [done|]. by intros ->.
Qed.

Lemma first_occurrences_elem_of (l : list gostring) (x : gostring) :
  x ∈ first_occurrences l <-> x ∈ l.
Proof.
  induction l as [|y l IH]; [done|]. simpl.
  rewrite !elem_of_cons, list_elem_of_filter, IH.
  destruct (decide (x = y)); tauto.
Qed.

Lemma first_occurrences_NoDup (l : list gostring) :
  NoDup (first_occurrences l).
Proof.
  induction l as [|y l IH]; simpl; constructor.
  - rewrite list_elem_of_filter. tauto.
  - by apply NoDup_filter.
Qed.

Lemma first_occurrences_sublist (l : list gostring) :
  sublist (first_occurrences l) l.
Proof.
  induction l as [|y l IH]; simpl; [done|].
  constructor. etrans; [apply sublist_filter|done].
Qed.

(** Appending a name: a name seen before changes nothing, a new name
    goes to the end. *)
Lemma first_occurrences_snoc (l : list gostring) (x : gostring) :
  first_occurrences (l ++ [x]) =
  if decide (x ∈ l) then first_occurrences l else first_occurrences l ++ [x].
Proof.
  induction l as [|y l IH]; simpl; [done|].
  rewrite IH. destruct (decide (x ∈ y :: l)) as [Hin|Hni].
  - destruct (decide (x ∈ l)) as [Hl|Hl]; [done|].
    apply elem_of_cons in Hin as [->|?]; [|done].
    rewrite filter_app, filter_cons, decide_False by (by intros H; apply H).
    by rewrite filter_nil, app_nil_r.
  - rewrite elem_of_cons in Hni.
    rewrite decide_False by tauto.
    rewrite filter_app, filter_cons, decide_True by tauto.
    by rewrite filter_nil.
Qed.

Lemma filter_all {A} (P : A -> Prop) `{!forall x, Decision (P x)}
    (l : list A) :
  (forall x, P x) -> filter P l = l.
Proof.
  intros HP. induction l as [|x l IH]; [done|].
  by rewrite filter_cons, decide_True, IH by done.
Qed.

Section ExtensionAggregator.
Context {W : Type}.

(** The inner loop does not use its index. *)
Lemma extract_ext_foldl (l : list (Value W)) (j : nat) (st : ext_state) :
  for_range extract_ext j l st = foldl (fun st e => extract_ext st 0 e) st l.
Proof. revert j st. induction l as [|e l IH]; intros j st; simpl; auto. Qed.

Lemma extract_def_typed {T} (d : IndexDefinition W T) (i : nat)
    (st : ext_state) :
  extract_def st i (ValueOf_IndexDefinition d) =
  foldl (fun st e => extract_ext st 0 e) st
    (map (VString (W:=W)) (Extensions d)).
Proof.
  unfold extract_def. simpl.
  change (Value_FieldByName (ValueOf_IndexDefinition d) (str "Extensions"))
    with (VSlice (str "[]string") (map (VString (W:=W)) (Extensions d))).
  simpl. apply extract_ext_foldl.
Qed.

Lemma extract_defs_foldl {T} (defs : list (IndexDefinition W T)) (i : nat)
    (st : ext_state) :
  for_range extract_def i (map ValueOf_IndexDefinition defs) st =
  foldl (fun st e => extract_ext st 0 e) st
    (map (VString (W:=W)) (concat (map Extensions defs))).
Proof.
  revert i st. induction defs as [|d defs IH]; intros i st; [done|].
  simpl map. simpl for_range. rewrite IH, extract_def_typed.
  by rewrite map_app, foldl_app.
Qed.

Lemma extract_ext_loop (l : list gostring) (st : ext_state) :
  seen_inv st ->
  (foldl (fun st e => extract_ext (W:=W) st 0 e) st (map VString l)).2 =
  st.2 ++ filter (fun x => x ∉ st.2)
            (first_occurrences (filter (fun x => x <> []) l)).
Proof.
  revert st. induction l as [|x l IH]; intros [seen exts] Hinv; simpl.
  - by rewrite app_nil_r.
  - destruct (decide (x = [])) as [->|Hne].
    + rewrite filter_cons, decide_False by (by intros H; apply H).
      simpl. by rewrite IH.
    + rewrite (filter_cons _ x), decide_True by done.
      rewrite bool_decide_eq_true_2 by done. simpl.
      destruct (default false (seen !! x)) eqn:Hseen; simpl.
      * rewrite IH by done. simpl. f_equal.
        apply Hinv in Hseen. simpl in Hseen.
        rewrite filter_cons, decide_False by (by intros H; apply H).
        rewrite list_filter_filter. apply list_filter_iff.
        intros y. split; [|tauto]. intros Hy. split; [done|].
        by intros ->.
      * assert (Hni : x ∉ exts).
        { intros Hin. apply Hinv in Hin. simpl in Hin. congruence. }
        rewrite IH.
        2:{ intros y. simpl. destruct (decide (x = y)) as [->|Hxy].
            - rewrite lookup_insert_eq. simpl. rewrite elem_of_app.
              split; [intros _; right; by apply list_elem_of_singleton|done].
            - rewrite lookup_insert_ne by done.
              rewrite elem_of_app, list_elem_of_singleton.
              specialize (Hinv y). simpl in Hinv. rewrite Hinv.
              split; [tauto|]. intros [?| ->]; [done|congruence]. }
        simpl. rewrite <- app_assoc. f_equal. simpl.
        rewrite filter_cons, decide_True by done. f_equal.
        rewrite list_filter_filter. apply list_filter_iff.
        intros y. rewrite elem_of_app, list_elem_of_singleton. tauto.
Qed.

Lemma ExtractRequiredExtensions_typed {T} (m : Model W)
    (indexes : W -> list (IndexDefinition W T) * W)
    (defs : list (IndexDefinition W T)) (w w' : W) :
  model_MethodByName m (recv_type m) (str "Indexes") =
    Some (Indexes_method indexes) ->
  indexes w = (defs, w') ->
  ExtractRequiredExtensions (Some m) w = (Ok (required_extensions defs), w').
Proof.
  intros Hm Hcall. unfold ExtractRequiredExtensions. rewrite Hm. simpl.
  rewrite (bind_ok _ _ _ _ _ (call_method_Indexes _ _ _ _ Hcall)). simpl.
  rewrite length_map. destruct defs as [|d defs]; [done|].
  simpl length. simpl Nat.eqb. cbv iota.
  rewrite extract_defs_foldl.
  pose proof (extract_ext_loop (concat (map Extensions (d :: defs))) (∅, []))
    as Hloop.
  destruct (foldl _ _ _) as [seen exts]. simpl in Hloop.
  rewrite Hloop.
  2:{ intros x. simpl. rewrite lookup_empty. simpl. split; [done|].
      by intros ?%elem_of_nil. }
  unfold ret, required_extensions. f_equal. f_equal.
  apply filter_all. intros x. by intros ?%elem_of_nil.
Qed.

Lemma required_extensions_elem_of {T} (defs : list (IndexDefinition W T))
    (x : gostring) :
  x ∈ required_extensions defs <->
  x <> [] /\ exists d, d ∈ defs /\ x ∈ Extensions d.
Proof.
  unfold required_extensions.
  rewrite first_occurrences_elem_of, list_elem_of_filter.
  apply and_iff_compat_l.
  rewrite list_elem_of_In, in_concat. split.
  - intros (l & Hl & Hx). apply in_map_iff in Hl as (d & <- & Hd).
    exists d. by rewrite !list_elem_of_In.
  - intros (d & Hd & Hx). exists (Extensions d).
    apply list_elem_of_In in Hd. apply list_elem_of_In in Hx.
    split; [|done]. apply in_map_iff. eauto.
Qed.

Lemma required_extensions_none {T} (defs : list (IndexDefinition W T)) :
  (forall d, d ∈ defs -> Extensions d = []) -> required_extensions defs = [].
Proof.
  intros Hnone. unfold required_extensions.
  assert (Hc : concat (map Extensions defs) = []).
  { induction defs as [|d defs IH]; [done|]. simpl.
    rewrite (Hnone d) by (apply elem_of_cons; by left). simpl.
    apply IH. intros d' Hd'. apply Hnone. apply elem_of_cons. by right. }
  by rewrite Hc.
Qed.

(** C5. The aggregator returns the empty result, and no error, for an
    absent model and for a model without an [Indexes] method; for a model
    whose [Indexes] method returns the declarations [defs] it returns
    [required_extensions defs]: the names of the declarations in order,
    each declaration's [Extensions] in order, empty names skipped and
    only the first occurrence of each name kept. That list has no
    duplicate, holds exactly the non-empty declared names, keeps the
    order of the declarations (a name met again changes nothing, a new
    name goes to the end), and is empty when no declaration names an
    extension. *)
Theorem extension_aggregation :
  (forall w : W, ExtractRequiredExtensions None w = (Ok [], w)) /\
  (forall (m : Model W) (w : W),
     model_MethodByName m (recv_type m) (str "Indexes") = None ->
     ExtractRequiredExtensions (Some m) w = (Ok [], w)) /\
  (forall T (m : Model W) (indexes : W -> list (IndexDefinition W T) * W)
          (defs : list (IndexDefinition W T)) (w w' : W),
     model_MethodByName m (recv_type m) (str "Indexes") =
       Some (Indexes_method indexes) ->
     indexes w = (defs, w') ->
     ExtractRequiredExtensions (Some m) w =
     (Ok (required_extensions defs), w')) /\
  (forall T (defs : list (IndexDefinition W T)),
     NoDup (required_extensions defs) /\
     (forall x, x ∈ required_extensions defs <->
                x <> [] /\ exists d, d ∈ defs /\ x ∈ Extensions d) /\
     sublist (required_extensions defs) (concat (map Extensions defs)) /\
     ((forall d, d ∈ defs -> Extensions d = []) ->
      required_extensions defs = [])) /\
  (forall (l : list gostring) (x : gostring),
     first_occurrences (l ++ [x]) =
     if decide (x ∈ l) then first_occurrences l
     else first_occurrences l ++ [x]).
Proof.
  split; [done|].
  split. { intros m w Hm. unfold ExtractRequiredExtensions. by rewrite Hm. }
  split. { intros T m indexes defs w w'.
           apply ExtractRequiredExtensions_typed. }
  split; [|apply first_occurrences_snoc].
  intros T defs. split; [apply first_occurrences_NoDup|].
  split; [apply required_extensions_elem_of|].
  split; [|apply required_extensions_none].
  unfold required_extensions.
  etrans; [apply first_occurrences_sublist|apply sublist_filter].
Qed.

End ExtensionAggregator.

(** ** Synthesis: [AutoMigrateModel] *)

Section Synthesis.
Context {W : Type} (reflect_New : rtype -> W -> Z * W).
Context (reflect_StructOf : list StructField -> option rtype).

(** After the guards on the model, absent or ill-shaped declarations
    lead to the migration of the model itself. *)
Lemma AutoMigrateModel_no_method (m : Model W) (w : W) :
  struct_model m ->
  model_MethodByName m (recv_type m) (str "Indexes") = None ->
  AutoMigrateModel reflect_New reflect_StructOf (Some m) w =
  (Ok (mkDbCall None Original), w).
Proof.
  intros Hs Hm. unfold AutoMigrateModel. unfold struct_model in Hs.
  rewrite Hs, Hm. done.
Qed.

Lemma AutoMigrateModel_signature (m : Model W) (method : Method W) (w : W) :
  struct_model m ->
  model_MethodByName m (recv_type m) (str "Indexes") = Some method ->
  mNumIn method <> 0 \/ mNumOut method <> 1 ->
  AutoMigrateModel reflect_New reflect_StructOf (Some m) w =
  (Ok (mkDbCall None Original), w).
Proof.
  intros Hs Hm Hsig. unfold AutoMigrateModel. unfold struct_model in Hs.
  rewrite Hs, Hm. simpl.
  assert (Hb : negb (mNumIn method =? 0) || negb (mNumOut method =? 1)
               = true).
  { destruct Hsig as [H|H]; apply Nat.eqb_neq in H; rewrite H; simpl;
      [done|apply orb_true_r]. }
  by rewrite Hb.
Qed.

Lemma AutoMigrateModel_out (m : Model W) (method : Method W) (w w' : W)
    (out : Value W) (rest : list (Value W)) :
  struct_model m ->
  model_MethodByName m (recv_type m) (str "Indexes") = Some method ->
  mNumIn method = 0 -> mNumOut method = 1 ->
  mCall method w = (out :: rest, w') ->
  AutoMigrateModel reflect_New reflect_StructOf (Some m) w =
  (if negb (bool_decide (Value_Kind out = KSlice))
   then ret (mkDbCall None Original)
   else if (length (Value_elems out) =? 0)%nat
   then ret (mkDbCall None Original)
   else
     bind (collectIndexTagsFromIndexesValue reflect_New
             (indirectType (model_Type m)) out)
       (fun fieldToIndexTags =>
          match reflect_StructOf
                  (clone_fields fieldToIndexTags
                     (default []
                        (rtype_fields (indirectType (model_Type m))))) with
          | None => panic
          | Some dyn =>
              match model_Tabler m (model_Type m) with
              | Some tableName =>
                  bind (lift (tableName TheModel)) (fun table =>
                    ret (mkDbCall (Some table) (Projection dyn)))
              | None =>
                  match model_Tabler m (recv_type m) with
                  | Some tableName =>
                      bind (lift (tableName
                                    (if bool_decide
                                          (rtype_Kind (model_Type m)
                                           = KPointer)
                                     then TheModel else NewZero)))
                        (fun table =>
                           ret (mkDbCall (Some table) (Projection dyn)))
                  | None => ret (mkDbCall None (Projection dyn))
                  end
              end
          end)) w'.
Proof.
  intros Hs Hm Hin Hout Hcall. unfold AutoMigrateModel.
  unfold struct_model in Hs. rewrite Hs, Hm, Hin, Hout. simpl.
  unfold bind at 1. unfold call_method, bind, lift. rewrite Hcall. done.
Qed.

(** C8. For a model that passes the guards of [AutoMigrateModel] (it is
    not nil and its underlying type is a struct) and exposes no index
    declarations, because it has no [Indexes] method or because the
    method returns an empty slice, synthesis hands the model itself to
    the migration engine under no table name: no clone is built, no
    error of its own is returned, and the world is the one the call of
    [Indexes], if any, left. *)
Theorem no_declarations_passthrough (m : Model W) :
  struct_model m ->
  (forall w,
     model_MethodByName m (recv_type m) (str "Indexes") = None ->
     AutoMigrateModel reflect_New reflect_StructOf (Some m) w =
     (Ok (mkDbCall None Original), w)) /\
  (forall (method : Method W) w w' t rest,
     model_MethodByName m (recv_type m) (str "Indexes") = Some method ->
     mNumIn method = 0 -> mNumOut method = 1 ->
     mCall method w = (VSlice t [] :: rest, w') ->
     AutoMigrateModel reflect_New reflect_StructOf (Some m) w =
     (Ok (mkDbCall None Original), w')) /\
  (forall T (indexes : W -> list (IndexDefinition W T) * W) w w',
     model_MethodByName m (recv_type m) (str "Indexes") =
       Some (Indexes_method indexes) ->
     indexes w = ([], w') ->
     AutoMigrateModel reflect_New reflect_StructOf (Some m) w =
     (Ok (mkDbCall None Original), w')).
Proof.
  intros Hs. split; [|split].
  - intros w Hm. by apply AutoMigrateModel_no_method.
  - intros method w w' t rest Hm Hin Hout Hcall.
    by rewrite (AutoMigrateModel_out _ _ _ _ _ _ Hs Hm Hin Hout Hcall).
  - intros T indexes w w' Hm Hcall.
    rewrite (AutoMigrateModel_out m _ w w'
               (ValueOf_Indexes (T:=T) []) [] Hs Hm); try done.
    simpl. by rewrite Hcall.
Qed.

(** C10. When the [Indexes] method of a model takes arguments, does not
    return exactly one value, or returns a value that is no slice,
    [AutoMigrateModel] (on a model that passes its guards) hands the
    model itself to the migration engine, with no synthesis and no error
    of its own, and [ExtractRequiredExtensions] returns the empty
    result; the method is called only when its signature is the expected
    one. *)
Theorem unexpected_Indexes_shape (m : Model W) (method : Method W) :
  model_MethodByName m (recv_type m) (str "Indexes") = Some method ->
  (struct_model m ->
   mNumIn method <> 0 \/ mNumOut method <> 1 ->
   forall w, AutoMigrateModel reflect_New reflect_StructOf (Some m) w =
             (Ok (mkDbCall None Original), w)) /\
  (struct_model m ->
   mNumIn method = 0 -> mNumOut method = 1 ->
   forall w w' out rest,
     mCall method w = (out :: rest, w') -> Value_Kind out <> KSlice ->
     AutoMigrateModel reflect_New reflect_StructOf (Some m) w =
     (Ok (mkDbCall None Original), w')) /\
  (mNumIn method <> 0 \/ mNumOut method <> 1 ->
   forall w, ExtractRequiredExtensions (Some m) w = (Ok [], w)) /\
  (mNumIn method = 0 -> mNumOut method = 1 ->
   forall w w' out rest,
     mCall method w = (out :: rest, w') -> Value_Kind out <> KSlice ->
     ExtractRequiredExtensions (Some m) w = (Ok [], w')).
Proof.
  intros Hm. repeat split.
  - intros Hs Hsig w. by apply (AutoMigrateModel_signature m method).
  - intros Hs Hin Hout w w' out rest Hcall Hk.
    rewrite (AutoMigrateModel_out _ _ _ _ _ _ Hs Hm Hin Hout Hcall).
    by rewrite bool_decide_eq_false_2.
  - intros Hsig w. unfold ExtractRequiredExtensions. rewrite Hm.
    assert (Hb : negb (mNumIn method =? 0) || negb (mNumOut method =? 1)
                 = true).
    { destruct Hsig as [H|H]; apply Nat.eqb_neq in H; rewrite H; simpl;
        [done|apply orb_true_r]. }
    by rewrite Hb.
  - intros Hin Hout w w' out rest Hcall Hk.
    unfold ExtractRequiredExtensions. rewrite Hm, Hin, Hout. simpl.
    rewrite (bind_ok _ _ _ _ _ (call_method_run _ _ _ _ _ Hcall)).
    by rewrite bool_decide_eq_false_2.
Qed.

Lemma columns_first_error {T} name unique where_ indexType
    (cols_pre : list (Col W T)) (c : Col W T) (cols_post : list (Col W T))
    tags tags1 (w w1 w2 : W) (e : error) :
  for_rangeM (collect_column reflect_New name unique where_ indexType)
    0 (map ValueOf_Col cols_pre) tags w = (Ok tags1, w1) ->
  fieldNameFromSelectorValue reflect_New (ValueOf_Sel T (Sel c)) w1 =
    (Err e, w2) ->
  for_rangeM (collect_column reflect_New name unique where_ indexType)
    0 (map ValueOf_Col (cols_pre ++ c :: cols_post)) tags w =
  (Err (ErrColumn name (length cols_pre + 1) e), w2).
Proof.
  intros Hpre Hsel. rewrite map_app, for_rangeM_app, Hpre.
  simpl. unfold bind. rewrite collect_column_typed, Hsel.
  by rewrite length_map.
Qed.

(** The assembler fails fast: when the declarations and columns before a
    column have been processed and the selector of that column fails
    with [e], the run stops there with [e] wrapped in the name of the
    index and the one-based position of the column. *)
Lemma collect_first_error {T} (baseStruct : rtype)
    (defs_pre : list (IndexDefinition W T)) (d : IndexDefinition W T)
    (defs_post : list (IndexDefinition W T))
    (cols_pre : list (Col W T)) (c : Col W T) (cols_post : list (Col W T))
    tags1 (w w1 w2 : W) (e : error) :
  Columns d = cols_pre ++ c :: cols_post ->
  collectIndexTagsFromIndexesValue reflect_New baseStruct
    (ValueOf_Indexes (defs_pre ++ [with_columns d cols_pre])) w =
    (Ok tags1, w1) ->
  fieldNameFromSelectorValue reflect_New (ValueOf_Sel T (Sel c)) w1 =
    (Err e, w2) ->
  collectIndexTagsFromIndexesValue reflect_New baseStruct
    (ValueOf_Indexes (defs_pre ++ d :: defs_post)) w =
  (Err (ErrColumn (Name d) (length cols_pre + 1) e), w2).
Proof.
  intros Hcols Hpre Hsel.
  unfold collectIndexTagsFromIndexesValue in *. simpl in *.
  rewrite map_app, for_rangeM_app in Hpre.
  rewrite map_app, for_rangeM_app.
  destruct (for_rangeM (collect_def reflect_New) 0
              (map ValueOf_IndexDefinition defs_pre) ∅ w)
    as [[tags0| |] w0]; try done.
  simpl in Hpre. unfold bind in Hpre. rewrite collect_def_typed in Hpre.
  simpl in Hpre.
  destruct (for_rangeM _ 0 (map ValueOf_Col cols_pre) tags0 w0)
    as [[tags1'| |] w1'] eqn:Hrun; try done.
  injection Hpre as -> ->.
  simpl. unfold bind. rewrite collect_def_typed, Hcols.
  by rewrite (columns_first_error _ _ _ _ _ _ _ _ _ _ _ _ _ Hrun Hsel).
Qed.

(** C9. Synthesis fails with the nil-model error for an absent model and
    with the not-a-struct error when the underlying type of the model is
    no struct; and when, in the declarations the [Indexes] method
    returns, everything before some column has been processed and the
    selector of that column fails with [e], synthesis returns [e]
    wrapped in the index name and the one-based position of the column:
    the outcome is that error and nothing is handed to the migration
    engine. *)
Theorem synthesis_errors :
  (forall w, AutoMigrateModel reflect_New reflect_StructOf None w =
             (Err ErrNilModel, w)) /\
  (forall (m : Model W) w,
     rtype_Kind (indirectType (model_Type m)) <> KStruct ->
     AutoMigrateModel reflect_New reflect_StructOf (Some m) w =
     (Err (ErrNotAStruct (rtype_Kind (indirectType (model_Type m)))), w)) /\
  (forall T (m : Model W) (indexes : W -> list (IndexDefinition W T) * W)
          defs_pre d defs_post cols_pre c cols_post tags1 w w0 w1 w2 e,
     struct_model m ->
     model_MethodByName m (recv_type m) (str "Indexes") =
       Some (Indexes_method indexes) ->
     indexes w = (defs_pre ++ d :: defs_post, w0) ->
     Columns d = cols_pre ++ c :: cols_post ->
     collectIndexTagsFromIndexesValue reflect_New
       (indirectType (model_Type m))
       (ValueOf_Indexes (defs_pre ++ [with_columns d cols_pre])) w0 =
       (Ok tags1, w1) ->
     fieldNameFromSelectorValue reflect_New (ValueOf_Sel T (Sel c)) w1 =
       (Err e, w2) ->
     collectIndexTagsFromIndexesValue reflect_New
       (indirectType (model_Type m))
       (ValueOf_Indexes (defs_pre ++ d :: defs_post)) w0 =
       (Err (ErrColumn (Name d) (length cols_pre + 1) e), w2) /\
     AutoMigrateModel reflect_New reflect_StructOf (Some m) w =
     (Err (ErrColumn (Name d) (length cols_pre + 1) e), w2)).
Proof.
  split; [done|]. split.
  - intros m w Hk. unfold AutoMigrateModel.
    by rewrite bool_decide_eq_false_2.
  - intros T m indexes defs_pre d defs_post cols_pre c cols_post tags1
      w w0 w1 w2 e Hs Hm Hcall Hcols Hpre Hsel.
    pose proof (collect_first_error _ _ _ defs_post _ _ _ _ _ _ _ _
                  Hcols Hpre Hsel) as Herr.
    split; [done|].
    rewrite (AutoMigrateModel_out m _ w w0
               (ValueOf_Indexes (defs_pre ++ d :: defs_post)) [] Hs Hm);
      try done.
    2:{ simpl. by rewrite Hcall. }
    simpl. rewrite length_map, length_app. simpl.
    replace (length defs_pre + S (length defs_post) =? 0) with false
      by (symmetry; apply Nat.eqb_neq; lia).
    by rewrite (bind_err _ _ _ _ _ Herr).
Qed.

End Synthesis.

(** * Further properties of the code *)

(** ** Sort markers and the shape of a fragment *)

Lemma sort_marker_iff {W} name unique where_ indexType j
    (sortF nullF opClassF : Value W) fname (p : gostring) :
  str "sort:" ++ p ∈
    column_parts name unique where_ indexType j sortF nullF opClassF fname
  <-> TrimSpace (Value_String sortF) <> [] /\
      p = TrimSpace (Value_String sortF)
          ++ (if bool_decide (TrimSpace (Value_String nullF) ≠ [])
              then str " nulls " ++ TrimSpace (Value_String nullF)
              else []).
Proof.
  rewrite column_parts_eq. split.
  - intros H. destruct (Value_IsValid opClassF) eqn:Hv; simpl in H;
      marker_fwd H j.
  - intros (Hne & ->). rewrite (bool_decide_eq_true_2 _ Hne).
    rewrite elem_of_app. right. rewrite elem_of_app. left.
    by apply list_elem_of_singleton.
Qed.

(** X1. The fragment of a column holds a marker [sort:<p>] exactly when
    the trimmed [Sort] is not empty, and then [p] is the trimmed [Sort],
    followed by [ nulls <Nulls>] when the trimmed [Nulls] is not empty:
    the columns built with [Desc] and [NullsLast], or [Asc] and
    [NullsFirst], in either order, carry [sort:desc nulls last] and
    [sort:asc nulls first], and a null ordering without a sort direction
    is dropped. *)
Theorem sort_marker {W : Type} {T : rtype} (d : IndexDefinition W T)
    (j : nat) (fname : gostring) :
  (forall (c : Col W T) p,
     str "sort:" ++ p ∈ fragment_parts d j c fname <->
     TrimSpace (Sort c) <> [] /\
     p = TrimSpace (Sort c)
         ++ (if bool_decide (TrimSpace (Nulls c) ≠ [])
             then str " nulls " ++ TrimSpace (Nulls c) else [])) /\
  (forall c : Col W T,
     str "sort:desc nulls last" ∈ fragment_parts d j (NullsLast (Desc c)) fname
     /\ str "sort:desc nulls last"
          ∈ fragment_parts d j (Desc (NullsLast c)) fname
     /\ str "sort:asc nulls first"
          ∈ fragment_parts d j (NullsFirst (Asc c)) fname
     /\ str "sort:asc nulls first"
          ∈ fragment_parts d j (Asc (NullsFirst c)) fname) /\
  (forall sel cls,
     str "sort:asc" ∈ fragment_parts d j (Asc (Field sel)) fname /\
     str "sort:desc"
       ∈ fragment_parts d j (Class (Desc (Field sel)) cls) fname) /\
  (forall sel p,
     ~ (str "sort:" ++ p
          ∈ fragment_parts d j (NullsLast (Field sel)) fname) /\
     ~ (str "sort:" ++ p
          ∈ fragment_parts d j (NullsFirst (Field sel)) fname)).
Proof.
  assert (Hiff : forall (c : Col W T) p,
     str "sort:" ++ p ∈ fragment_parts d j c fname <->
     TrimSpace (Sort c) <> [] /\
     p = TrimSpace (Sort c)
         ++ (if bool_decide (TrimSpace (Nulls c) ≠ [])
             then str " nulls " ++ TrimSpace (Nulls c) else [])).
  { intros c p. unfold fragment_parts. by rewrite sort_marker_iff. }
  split; [exact Hiff|]. split; [|split].
  - intros c.
    repeat split;
      match goal with
      | |- ?s ∈ _ =>
          let v := eval vm_compute in (drop 5 s) in
          change s with (str "sort:" ++ v)
      end; apply Hiff; simpl; split; done.
  - intros sel cls.
    split;
      match goal with
      | |- ?s ∈ _ =>
          let v := eval vm_compute in (drop 5 s) in
          change s with (str "sort:" ++ v)
      end; apply Hiff; simpl; split; done.
  - intros sel p. split; intros [Hne _]%Hiff; by apply Hne.
Qed.

(** ** A fragment read back by its commas *)

Lemma Split_Join_pieces (l : list gostring) (sep : rune) :
  l <> [] ->
  Split (Join l [sep]) sep = concat (map (fun p => Split p sep) l).
Proof.
  induction l as [|e [|e' rest] IH]; intros Hl; [done| |].
  - simpl. by rewrite app_nil_r.
  - rewrite Join_cons by done. change ([sep] ++ ?x) with (sep :: x).
    rewrite Split_app_sep, IH by done. done.
Qed.

Lemma Split_length (s : list rune) (sep : rune) :
  length (Split s sep) = S (length (filter (fun r => r = sep) s)).
Proof.
  induction s as [|r s IH]; [done|]. rewrite filter_cons. simpl.
  destruct (Z.eqb_spec r sep) as [->|Hne].
  - rewrite decide_True by done. simpl. by rewrite IH.
  - rewrite decide_False by done.
    destruct (Split s sep) as [|p ps] eqn:Hs; [by destruct (Split_nonempty s sep)|].
    simpl in *. done.
Qed.

Lemma toSnakeCase_Forall (P : rune -> Prop) (s : gostring) :
  P 95%Z -> (forall r, is_upper r = true -> P (r + 32)%Z) ->
  Forall P s -> Forall P (toSnakeCase s).
Proof.
  intros Hu Hup Hs. rewrite toSnakeCase_spec. unfold snake_spec.
  apply Forall_concat, Forall_forall. intros piece Hpiece.
  apply elem_of_lookup_imap in Hpiece as (i & r & -> & Hi).
  apply Forall_app. split.
  - destruct (boundary_before s i); [by repeat constructor|constructor].
  - repeat constructor. unfold lowercase.
    destruct (is_upper r) eqn:Hr; [by apply Hup|].
    rewrite Forall_forall in Hs. apply Hs. by eapply list_elem_of_lookup_2.
Qed.

Lemma uint_runes_digits (d : Decimal.uint) :
  Forall (fun r => (48 <= r <= 57)%Z) (uint_runes d).
Proof. induction d; simpl; constructor; (lia || done). Qed.

Lemma itoa_free (r : rune) (n : nat) :
  ~ (48 <= r <= 57)%Z -> free_of r (itoa n).
Proof.
  intros Hr. unfold free_of, itoa.
  eapply Forall_impl; [apply uint_runes_digits|]. simpl. intros x Hx ->. lia.
Qed.

Lemma free_of_app (r : rune) (a b : gostring) :
  free_of r a -> free_of r b -> free_of r (a ++ b).
Proof. intros. by apply Forall_app. Qed.

(** The markers of a column hold a rune only if a string of the
    declaration or the field name does, or the rune is one of those the
    assembler writes. *)
Lemma column_parts_free {W} (r : rune) name unique where_ indexType j
    (sortF nullF opClassF : Value W) fname :
  ~ (48 <= r <= 57)%Z -> ~ (95 <= r <= 122)%Z -> r <> 32%Z -> r <> 58%Z ->
  free_of r name -> free_of r where_ -> free_of r indexType ->
  free_of r (Value_String sortF) -> free_of r (Value_String nullF) ->
  free_of r (Value_String opClassF) -> free_of r fname ->
  Forall (free_of r)
    (column_parts name unique where_ indexType j sortF nullF opClassF fname).
Proof.
  intros Hd Hl Hsp Hc Hn Hw Ht Hs Hnu Ho Hf.
  assert (Hlit : forall s : string,
            forallb (fun x => (48 <=? x)%Z && (x <=? 57)%Z
                             || (95 <=? x)%Z && (x <=? 122)%Z
                             || (x =? 32)%Z || (x =? 58)%Z) (str s) = true ->
            free_of r (str s)).
  { intros s H. apply Forall_forall. intros x Hx ->.
    rewrite forallb_forall in H. apply list_elem_of_In, H in Hx. lia. }
  rewrite column_parts_eq.
  repeat (apply Forall_app; split);
    repeat match goal with
    | |- Forall _ (if ?b then _ else _) => destruct b
    | |- Forall _ [] => constructor
    | |- Forall _ (_ :: _) => constructor
    | |- free_of _ (_ ++ _) => apply free_of_app
    | |- free_of _ (if ?b then _ else _) => destruct b
    | |- free_of _ [] => constructor
    | |- free_of _ (TrimSpace _) => apply Forall_TrimSpace
    | |- free_of _ (itoa _) => by apply itoa_free
    | |- free_of _ (str _) => by apply Hlit
    | |- free_of _ (toSnakeCase _) =>
        apply toSnakeCase_Forall; [lia|unfold is_upper; lia|]
    | |- Forall _ (TrimSpace _) => apply Forall_TrimSpace
    end; try done.
Qed.

(** X2. Read back by its commas, a fragment gives the pieces of its
    markers; it gives the markers themselves when the name of the index,
    the predicate, the method, the sort and null orders, the operator
    class and the field name hold no comma. A comma in one of them cuts
    its marker in two. *)
Theorem fragment_split {W : Type} {T : rtype} (d : IndexDefinition W T)
    (j : nat) (c : Col W T) (fname : gostring) :
  Split (fragment_of d j c fname) 44%Z =
    concat (map (fun p => Split p 44%Z) (fragment_parts d j c fname)) /\
  (free_of 44%Z (Name d) -> free_of 44%Z (Where d) -> free_of 44%Z (Type_ d) ->
   free_of 44%Z (Sort c) -> free_of 44%Z (Nulls c) -> free_of 44%Z (OpClass c) ->
   free_of 44%Z fname ->
   Split (fragment_of d j c fname) 44%Z = fragment_parts d j c fname) /\
  (j = 0 -> 44%Z ∈ TrimSpace (Where d) ->
   length (fragment_parts d j c fname)
   < length (Split (fragment_of d j c fname) 44%Z)).
Proof.
  assert (Hne : fragment_parts d j c fname <> []).
  { unfold fragment_parts.
    by destruct (column_parts_head (W:=W) (Name d) (Unique d)
                   (TrimSpace (Where d)) (TrimSpace (Type_ d)) j
                   (VString (Sort c)) (VString (Nulls c))
                   (VString (OpClass c)) fname) as [rest ->]. }
  assert (Hsplit : Split (fragment_of d j c fname) 44%Z =
            concat (map (fun p => Split p 44%Z) (fragment_parts d j c fname))).
  { unfold fragment_of. change (str ",") with [44%Z].
    by apply Split_Join_pieces. }
  split; [done|]. split.
  - intros Hn Hw Ht Hs Hnu Ho Hf. unfold fragment_of.
    change (str ",") with [44%Z]. apply Split_Join; [done|].
    unfold fragment_parts. apply column_parts_free; simpl;
      try lia; try done; by apply Forall_TrimSpace.
  - intros -> Hin. rewrite Hsplit.
    assert (Hmark : str "where:" ++ TrimSpace (Where d)
                      ∈ fragment_parts d 0 c fname).
    { unfold fragment_parts. apply where_marker_iff.
      split; [done|]. split; [|done]. intros Heq. rewrite Heq in Hin.
      by apply elem_of_nil in Hin. }
    revert Hmark. generalize (fragment_parts d 0 c fname).
    intros l Hl. induction l as [|p l IH]; [by apply elem_of_nil in Hl|].
    simpl. rewrite length_app.
    assert (Hp : forall q, 1 <= length (Split q 44%Z)).
    { intros q. rewrite Split_length. lia. }
    assert (Hl' : length l <= length (concat (map (fun p => Split p 44%Z) l))).
    { clear. induction l as [|q l IH]; [done|]. simpl. rewrite length_app.
      rewrite Split_length. lia. }
    apply elem_of_cons in Hl as [<-|Hl].
    + rewrite Split_length.
      match goal with
      | |- context [length (filter ?P ?l)] =>
          assert (0 < length (filter P l)); [|lia]
      end.
      rewrite filter_app, length_app.
      apply list_elem_of_split in Hin as (a & b & ->).
      rewrite filter_app, filter_cons, decide_True by done.
      rewrite length_app. simpl. lia.
    + specialize (IH Hl). specialize (Hp p). lia.
Qed.

(** ** The selector resolver: what it rejects and what it returns *)

Section SelectorOutcomes.
Context {W : Type} (reflect_New : rtype -> W -> Z * W).

(** The unwrapping of [any]: the value the resolver tests for a pointer. *)
Lemma match_field_sound (base a : Z) (fields : list StructField)
    (name : gostring) :
  match_field base a fields = Some name ->
  exists i sf, fields !! i = Some sf /\ exported sf = true /\
    sfName sf = name /\ (base + sfOffset sf)%Z = a /\
    (forall k sf', k < i -> fields !! k = Some sf' -> exported sf' = true ->
       (base + sfOffset sf')%Z <> a).
Proof.
  induction fields as [|sf fields IH]; simpl; [done|].
  destruct (exported sf) eqn:He; simpl.
  - destruct (Z.eqb_spec (base + sfOffset sf) a) as [Ha|Ha].
    + intros [= <-]. exists 0, sf. repeat split; try done. intros; lia.
    + intros (i & sf' & Hi & He' & Hn & Ho & Hfirst)%IH.
      exists (S i), sf'. repeat split; try done.
      intros [|k] sf'' Hk Hl He''; simpl in Hl.
      * by simplify_eq.
      * apply (Hfirst k); [lia|done..].
  - intros (i & sf' & Hi & He' & Hn & Ho & Hfirst)%IH.
    exists (S i), sf'. repeat split; try done.
    intros [|k] sf'' Hk Hl He''; simpl in Hl.
    + simplify_eq. congruence.
    + apply (Hfirst k); [lia|done..].
Qed.

(** X3. A selector that is no function, or whose type is not that of a
    function of one pointer parameter and one result, is rejected before
    anything is allocated or called: the world is as it was. *)
Theorem selector_shape_errors (sel : Value W) (w : W) :
  (Value_Kind sel <> KFunc ->
   fieldNameFromSelectorValue reflect_New sel w = (Err ErrSelNotFunc, w)) /\
  (forall t ft body, sel = VFunc t ft body ->
     length (ftIn ft) <> 1 \/ rtype_Kind (FuncType_In ft 0) <> KPointer
       \/ ftNumOut ft <> 1 ->
     fieldNameFromSelectorValue reflect_New sel w = (Err ErrSelShape, w)).
Proof.
  split.
  - intros Hk. unfold fieldNameFromSelectorValue.
    by rewrite bool_decide_eq_false_2.
  - intros t ft body -> H. unfold fieldNameFromSelectorValue. simpl.
    assert (negb (length (ftIn ft) =? 1)
            || negb (bool_decide (rtype_Kind (FuncType_In ft 0) = KPointer))
            || negb (ftNumOut ft =? 1) = true) as ->; [|done].
    destruct (Nat.eqb_spec (length (ftIn ft)) 1); [|done].
    case_bool_decide; [|done].
    destruct (Nat.eqb_spec (ftNumOut ft) 1); [|done].
    by destruct H as [?|[?|?]].
Qed.

(** X4. A selector of the right shape is called once, on the address of a
    fresh probe, and what it returns is checked in this order: other than
    one value, a nil interface, a value that is no pointer (as such or
    held by the interface) or a nil pointer. Each is rejected with its own
    error, in the world the call leaves; a nil func makes the call
    panic. *)
Theorem selector_result_errors (t : gostring) (T : rtype)
    (body : Z -> W -> list (Value W) * W) (w w1 w2 : W) (base : Z)
    (out : list (Value W)) :
  reflect_New T w = (base, w1) ->
  body base w1 = (out, w2) ->
  let run := fieldNameFromSelectorValue reflect_New (selector t T body) w in
  (length out <> 1 -> run = (Err ErrSelUnexpectedValues, w2)) /\
  (forall ti, out = [VInterface ti None] ->
     run = (Err ErrSelNilInterface, w2)) /\
  (forall ti res, out = [VInterface ti (Some res)] ->
     Value_Kind res <> KPointer -> run = (Err ErrSelNotPointer, w2)) /\
  (forall res, out = [res] -> Value_Kind res <> KInterface ->
     Value_Kind res <> KPointer -> run = (Err ErrSelNotPointer, w2)) /\
  (forall res, out = [res] -> returns_address res 0 ->
     run = (Err ErrSelNotPointer, w2)) /\
  fieldNameFromSelectorValue reflect_New
    (VFunc t (mkFuncType [TPointer T] 1) None) w = (Panic, w1).
Proof.
  intros Hnew Hbody run.
  assert (Hrun : run =
    (if negb (length out =? 1) then fail ErrSelUnexpectedValues else
     bind (let res := nth 0 out VInvalid in
           if bool_decide (Value_Kind res = KInterface) then
             if Value_IsNil res then fail ErrSelNilInterface
             else ret (Value_Elem res)
           else ret res)
       (fun res =>
          if negb (bool_decide (Value_Kind res = KPointer)) || Value_IsNil res
          then fail ErrSelNotPointer else
          match rtype_fields T with
          | None => panic
          | Some fields =>
              match match_field base (Value_Pointer res) fields with
              | Some name => ret name
              | None => fail (ErrSelNotTopLevelField (rtype_Name T))
              end
          end)) w2).
  { subst run. unfold fieldNameFromSelectorValue, selector. simpl.
    unfold bind at 1, lift at 1. rewrite Hnew.
    unfold bind at 1, Value_Call, lift. by rewrite Hbody. }
  rewrite Hrun. clear Hrun run. repeat split.
  - intros Hl. by destruct (Nat.eqb_spec (length out) 1).
  - by intros ti ->.
  - intros ti res -> Hk. simpl. unfold bind, ret. simpl.
    by rewrite bool_decide_eq_false_2.
  - intros res -> Hi Hk. simpl. unfold bind.
    rewrite (bool_decide_eq_false_2 _ Hi). unfold ret.
    by rewrite bool_decide_eq_false_2.
  - intros res -> [(tp & tgt & ->)|(ti & tp & tgt & ->)]; by simpl.
  - unfold fieldNameFromSelectorValue. simpl.
    unfold bind at 1, lift at 1. by rewrite Hnew.
Qed.

(** A resolution that returns a name went through every check. *)
Lemma fieldNameFromSelectorValue_sound (sel : Value W) (w w' : W)
    (name : gostring) :
  fieldNameFromSelectorValue reflect_New sel w = (Ok name, w') ->
  exists t ft body tname fields base w1 res i sf,
    sel = VFunc t ft (Some body) /\
    ftIn ft = [TPointer (TStruct tname fields)] /\ ftNumOut ft = 1 /\
    reflect_New (TStruct tname fields) w = (base, w1) /\
    body base w1 = ([res], w') /\
    Value_Kind (unwrap_any res) = KPointer /\
    Value_IsNil (unwrap_any res) = false /\
    fields !! i = Some sf /\ exported sf = true /\ sfName sf = name /\
    (base + sfOffset sf)%Z = Value_Pointer (unwrap_any res) /\
    (forall k sf', k < i -> fields !! k = Some sf' -> exported sf' = true ->
       (base + sfOffset sf')%Z <> Value_Pointer (unwrap_any res)).
Proof.
  unfold fieldNameFromSelectorValue.
  case_bool_decide as Hk; simpl; [|done].
  destruct sel as [| | |t ft body| | | | |]; try done.
  destruct (Nat.eqb_spec (length (ftIn ft)) 1) as [Hl|]; simpl; [|done].
  case_bool_decide as Hp; simpl; [|done].
  destruct (Nat.eqb_spec (ftNumOut ft) 1) as [Ho|]; simpl; [|done].
  destruct ft as [ins nout]. simpl in *.
  destruct ins as [|T0 [|]]; try done. unfold FuncType_In in *. simpl in *.
  unfold bind at 1, lift at 1.
  destruct (reflect_New (rtype_Elem T0) w) as [base w1] eqn:Hnew.
  destruct body as [body|]; simpl; [|done].
  unfold bind at 1, lift.
  destruct (body base w1) as [out w2] eqn:Hbody.
  destruct out as [|res [|]]; simpl; try done.
  intros H.
  assert (Value_Kind (unwrap_any res) = KPointer /\
          Value_IsNil (unwrap_any res) = false /\
          match rtype_fields (rtype_Elem T0) with
          | Some fields =>
              match match_field base (Value_Pointer (unwrap_any res)) fields
              with
              | Some n => (Ok n, w2)
              | None => (Err (ErrSelNotTopLevelField
                                (rtype_Name (rtype_Elem T0))), w2)
              end
          | None => (Panic, w2)
          end = (Ok name, w')) as (Hkind & Hnil & Hm).
  { unfold unwrap_any. unfold bind in H.
    destruct (bool_decide (Value_Kind res = KInterface)).
    - destruct (Value_IsNil res); [done|]. unfold ret in H.
      destruct (bool_decide (Value_Kind (Value_Elem res) = KPointer)) eqn:Hb;
        simpl in H; [|done].
      apply bool_decide_eq_true in Hb.
      destruct (Value_IsNil (Value_Elem res)); [done|].
      repeat split; [done|].
      destruct (rtype_fields (rtype_Elem T0)); [|done].
      by destruct (match_field _ _ _).
    - unfold ret in H.
      destruct (bool_decide (Value_Kind res = KPointer)) eqn:Hb;
        simpl in H; [|done].
      apply bool_decide_eq_true in Hb.
      destruct (Value_IsNil res); [done|].
      repeat split; [done|].
      destruct (rtype_fields (rtype_Elem T0)); [|done].
      by destruct (match_field _ _ _). }
  destruct T0 as [| T |k n]; simpl in Hp; try done.
  simpl in *. destruct T as [tname fields| |]; simpl in Hm; try done.
  destruct (match_field _ _ fields) as [n|] eqn:Hmf; [|done].
  injection Hm as -> ->.
  apply match_field_sound in Hmf as (i & sf & Hi & He & Hn & Hoff & Hfirst).
  exists t, (mkFuncType [TPointer (TStruct tname fields)] nout), body,
    tname, fields, base, w1, res, i, sf.
  by repeat split.
Qed.

(** X5. Whatever the selector is, when resolution returns a name the
    selector was a non-nil function of one parameter of type pointer to a
    struct [T], it was called exactly once, on the address [base] of the
    probe, it returned one value that is (or, in an interface, holds) a
    non-nil pointer, and the name is that of the first exported top-level
    field of [T] that lies at the address returned. *)
Theorem selector_success_sound (sel : Value W) (w w' : W)
    (name : gostring) :
  fieldNameFromSelectorValue reflect_New sel w = (Ok name, w') ->
  exists t ft body tname fields base w1 res i sf,
    sel = VFunc t ft (Some body) /\
    ftIn ft = [TPointer (TStruct tname fields)] /\ ftNumOut ft = 1 /\
    reflect_New (TStruct tname fields) w = (base, w1) /\
    body base w1 = ([res], w') /\
    Value_Kind (unwrap_any res) = KPointer /\
    Value_IsNil (unwrap_any res) = false /\
    fields !! i = Some sf /\ exported sf = true /\ sfName sf = name /\
    (base + sfOffset sf)%Z = Value_Pointer (unwrap_any res) /\
    (forall k sf', k < i -> fields !! k = Some sf' -> exported sf' = true ->
       (base + sfOffset sf')%Z <> Value_Pointer (unwrap_any res)).
Proof. apply fieldNameFromSelectorValue_sound. Qed.

End SelectorOutcomes.

(** ** The assembler: what is recorded, and what is rejected *)

Lemma fragment_count_append (tags : gmap gostring (list gostring))
    (fname frag : gostring) :
  fragment_count (<[fname := fragments_of tags fname ++ [frag]]> tags) =
  S (fragment_count tags).
Proof.
  unfold fragment_count, fragments_of.
  assert (Hcomm : forall (m : gmap gostring (list gostring)) j1 j2 z1 z2 y,
            j1 <> j2 -> m !! j1 = Some z1 -> m !! j2 = Some z2 ->
            length z1 + (length z2 + y) = length z2 + (length z1 + y)).
  { intros. lia. }
  destruct (tags !! fname) as [old|] eqn:Hl; simpl.
  - rewrite <- (insert_delete_eq tags).
    rewrite map_fold_insert_L;
      [|intros; lia|by rewrite lookup_delete_eq].
    rewrite <- (insert_delete_id tags fname old) at 2 by done.
    rewrite map_fold_insert_L;
      [|intros; lia|by rewrite lookup_delete_eq].
    rewrite length_app. simpl. lia.
  - rewrite map_fold_insert_L; [|intros; lia|done]. done.
Qed.

Section AssemblerFurther.
Context {W : Type} (reflect_New : rtype -> W -> Z * W).

Lemma for_rangeM_fail_fast {A St} (body : St -> nat -> A -> M W St)
    (pre : list A) (x : A) (post : list A) (acc acc1 : St) (w w1 w2 : W)
    (r : result St) :
  for_rangeM body 0 pre acc w = (Ok acc1, w1) ->
  body acc1 (length pre) x w1 = (r, w2) ->
  (forall a, r <> Ok a) ->
  for_rangeM body 0 (pre ++ x :: post) acc w =
  (match r with Ok a => Panic | Err e => Err e | Panic => Panic end, w2).
Proof.
  intros Hpre Hx Hr. rewrite for_rangeM_app, Hpre. simpl. unfold bind.
  rewrite Hx. destruct r; [by destruct (Hr a)|done..].
Qed.

Lemma columns_count {T} name unique where_ indexType
    (cols : list (Col W T)) (j0 : nat) tags (w : W) tags' (w' : W) :
  for_rangeM (collect_column reflect_New name unique where_ indexType)
    j0 (map ValueOf_Col cols) tags w = (Ok tags', w') ->
  fragment_count tags' = fragment_count tags + length cols /\
  ((forall f, tags !! f <> Some []) -> forall f, tags' !! f <> Some []).
Proof.
  revert j0 tags w. induction cols as [|c cols IH]; intros j0 tags w.
  - simpl. unfold ret. intros [= <- <-]. split; [lia|done].
  - simpl map. intros (tags1 & w1 & Hc & Hrest)%for_rangeM_cons_ok.
    rewrite collect_column_typed in Hc.
    destruct (fieldNameFromSelectorValue _ _ w) as [[fname| |] w0];
      try done.
    injection Hc as <- <-. apply IH in Hrest as [Hn Hne].
    rewrite Hn, fragment_count_append. simpl. split; [lia|].
    intros Htags. apply Hne. intros f.
    destruct (decide (fname = f)) as [->|Hf].
    + rewrite lookup_insert_eq. intros [= H].
      by apply app_eq_nil in H as [_ ?].
    + rewrite lookup_insert_ne by done. apply Htags.
Qed.

Lemma defs_count {T} (defs : list (IndexDefinition W T)) (i0 : nat)
    tags (w : W) tags' (w' : W) :
  for_rangeM (collect_def reflect_New) i0
    (map ValueOf_IndexDefinition defs) tags w = (Ok tags', w') ->
  fragment_count tags' =
    fragment_count tags + sum_list (map (fun d => length (Columns d)) defs) /\
  ((forall f, tags !! f <> Some []) -> forall f, tags' !! f <> Some []).
Proof.
  revert i0 tags w. induction defs as [|d defs IH]; intros i0 tags w.
  - simpl. unfold ret. intros [= <- <-]. split; [lia|done].
  - simpl map. intros (tags1 & w1 & Hd & Hrest)%for_rangeM_cons_ok.
    rewrite collect_def_typed in Hd.
    apply columns_count in Hd as [Hn1 Hne1].
    apply IH in Hrest as [Hn Hne]. simpl. split; [lia|]. auto.
Qed.

(** X6. Every column of every declaration adds exactly one fragment: after
    a run without error the number of fragments recorded, over all
    fields, is the number of columns declared. Fragments are never
    merged or dropped, also when two columns resolve to the same field,
    and a field is recorded only with at least one fragment. *)
Theorem fragment_conservation {T} (baseStruct : rtype)
    (defs : list (IndexDefinition W T)) (w : W) tags (w' : W) :
  collectIndexTagsFromIndexesValue reflect_New baseStruct
    (ValueOf_Indexes defs) w = (Ok tags, w') ->
  fragment_count tags = sum_list (map (fun d => length (Columns d)) defs) /\
  (forall f l, tags !! f = Some l -> l <> []).
Proof.
  unfold collectIndexTagsFromIndexesValue, ValueOf_Indexes.
  intros [Hn Hne]%defs_count. split.
  - rewrite Hn. unfold fragment_count. by rewrite map_fold_empty.
  - intros f l Hl ->. by apply (Hne (fun f => ltac:(by rewrite lookup_empty)) f).
Qed.

Lemma columns_exact {T} (d : IndexDefinition W T)
    (name_of : Col W T -> gostring) (cols : list (Col W T)) :
  (forall c, c ∈ cols -> forall w, exists w',
     fieldNameFromSelectorValue reflect_New (ValueOf_Sel T (Sel c)) w =
     (Ok (name_of c), w')) ->
  forall j0 tags w, exists tags' w',
    for_rangeM
      (collect_column reflect_New (Name d) (Unique d) (TrimSpace (Where d))
         (TrimSpace (Type_ d)))
      j0 (map ValueOf_Col cols) tags w = (Ok tags', w') /\
    forall f, fragments_of tags' f =
              fragments_of tags f ++ fragments_for name_of f j0 d cols.
Proof.
  induction cols as [|c cols IH]; intros Hres j0 tags w.
  - exists tags, w. split; [done|]. intros f. unfold fragments_for. simpl.
    by rewrite app_nil_r.
  - destruct (Hres c (ltac:(by left)) w) as [w1 Hc].
    destruct (IH (fun c' Hc' => Hres c' (ltac:(by right)))
                (S j0)
                (<[name_of c := fragments_of tags (name_of c)
                     ++ [fragment_of d j0 c (name_of c)]]> tags) w1)
      as (tags' & w' & Hrun & Hfr).
    exists tags', w'. split.
    + simpl. unfold bind. rewrite collect_column_typed, Hc. exact Hrun.
    + intros f. rewrite Hfr. unfold fragments_for. simpl.
      rewrite Nat.add_0_r.
      assert (Hshift : imap ((fun k c0 =>
                if bool_decide (name_of c0 = f)
                then [fragment_of d (j0 + k) c0 f] else []) ∘ S) cols =
              imap (fun k c0 =>
                if bool_decide (name_of c0 = f)
                then [fragment_of d (S j0 + k) c0 f] else []) cols).
      { apply imap_ext. intros k c0 _. simpl.
        by replace (j0 + S k) with (S (j0 + k)) by lia. }
      rewrite Hshift, app_assoc. f_equal.
      unfold fragments_of at 1. case_bool_decide as Hf.
      * subst f. by rewrite lookup_insert_eq.
      * rewrite lookup_insert_ne by done. by rewrite app_nil_r.
Qed.

Lemma defs_exact {T} (name_of : Col W T -> gostring)
    (defs : list (IndexDefinition W T)) :
  (forall d c, d ∈ defs -> c ∈ Columns d -> forall w, exists w',
     fieldNameFromSelectorValue reflect_New (ValueOf_Sel T (Sel c)) w =
     (Ok (name_of c), w')) ->
  forall i0 tags w, exists tags' w',
    for_rangeM (collect_def reflect_New) i0
      (map ValueOf_IndexDefinition defs) tags w = (Ok tags', w') /\
    forall f, fragments_of tags' f =
              fragments_of tags f ++ all_fragments_for name_of f defs.
Proof.
  induction defs as [|d defs IH]; intros Hres i0 tags w.
  - exists tags, w. split; [done|]. intros f. unfold all_fragments_for.
    simpl. by rewrite app_nil_r.
  - destruct (columns_exact d name_of (Columns d)
                (fun c Hc => Hres d c (ltac:(by left)) Hc) 0 tags w)
      as (tags1 & w1 & Hd & Hfr1).
    destruct (IH (fun d' c Hd' => Hres d' c (ltac:(by right)))
                (S i0) tags1 w1) as (tags' & w' & Hrun & Hfr).
    exists tags', w'. split.
    + simpl. unfold bind. rewrite collect_def_typed, Hd. exact Hrun.
    + intros f. rewrite Hfr, Hfr1. unfold all_fragments_for. simpl.
      by rewrite app_assoc.
Qed.

(** X7. When the selector of each column resolves, in whatever world it
    is called, to the field [name_of c], the run succeeds, and the
    fragments recorded for a field are exactly those of the columns that
    resolve to it, in the order of the declarations and, in a
    declaration, of its columns: a field used by several indexes, or
    twice by one, has one fragment for each use. *)
Theorem fragments_in_declaration_order {T} (baseStruct : rtype)
    (name_of : Col W T -> gostring) (defs : list (IndexDefinition W T)) :
  (forall d c, d ∈ defs -> c ∈ Columns d -> forall w, exists w',
     fieldNameFromSelectorValue reflect_New (ValueOf_Sel T (Sel c)) w =
     (Ok (name_of c), w')) ->
  forall w, exists tags w',
    collectIndexTagsFromIndexesValue reflect_New baseStruct
      (ValueOf_Indexes defs) w = (Ok tags, w') /\
    forall f, fragments_of tags f = all_fragments_for name_of f defs.
Proof.
  intros Hres w.
  destruct (defs_exact name_of defs Hres 0 ∅ w) as (tags & w' & Hrun & Hfr).
  exists tags, w'. split; [exact Hrun|]. intros f. by rewrite Hfr.
Qed.

(** The loop over the declarations reads the declaration at [i] when
    those before it were processed. *)
Lemma collect_at (baseStruct : rtype) (t : gostring)
    (pre : list (Value W)) (x : Value W) (post : list (Value W))
    (tags1 : gmap gostring (list gostring)) (w w1 w2 : W) (r : result (gmap gostring (list gostring))) :
  collectIndexTagsFromIndexesValue reflect_New baseStruct (VSlice t pre) w =
    (Ok tags1, w1) ->
  collect_def reflect_New tags1 (length pre) x w1 = (r, w2) ->
  (forall a, r <> Ok a) ->
  collectIndexTagsFromIndexesValue reflect_New baseStruct
    (VSlice t (pre ++ x :: post)) w =
  (match r with Ok a => Panic | Err e => Err e | Panic => Panic end, w2).
Proof. intros. by eapply for_rangeM_fail_fast. Qed.

(** X8. A declaration that is not as expected stops the run with an error
    that carries its zero-based position: an element that is no struct
    (nor a pointer to one; a nil pointer is none), a struct without one of
    the fields [Name], [Columns], [Unique], [Where], and, with the name of
    the index, [Columns] that is no slice. A field [Unique] that is no
    bool makes the run panic. The world is the one left by the
    declarations before it. *)
Theorem declaration_shape_errors (baseStruct : rtype) (t : gostring)
    (pre : list (Value W)) (x : Value W) (post : list (Value W))
    (tags1 : gmap gostring (list gostring)) (w w1 : W) :
  collectIndexTagsFromIndexesValue reflect_New baseStruct (VSlice t pre) w =
    (Ok tags1, w1) ->
  let run :=
    collectIndexTagsFromIndexesValue reflect_New baseStruct
      (VSlice t (pre ++ x :: post)) w in
  let def := deref x in
  let nameF := Value_FieldByName def (str "Name") in
  let colsF := Value_FieldByName def (str "Columns") in
  let uniqueF := Value_FieldByName def (str "Unique") in
  let whereF := Value_FieldByName def (str "Where") in
  (Value_Kind def <> KStruct ->
   run = (Err (ErrDefNotStruct (length pre)), w1)) /\
  (Value_Kind def = KStruct ->
   Value_IsValid nameF = false \/ Value_IsValid colsF = false \/
   Value_IsValid uniqueF = false \/ Value_IsValid whereF = false ->
   run = (Err (ErrDefShape (length pre)), w1)) /\
  (Value_Kind def = KStruct ->
   Value_IsValid nameF = true -> Value_IsValid colsF = true ->
   Value_IsValid uniqueF = true -> Value_IsValid whereF = true ->
   (forall tb b, uniqueF <> VBool tb b) ->
   run = (Panic, w1)) /\
  (forall tb b,
     Value_Kind def = KStruct ->
     Value_IsValid nameF = true -> Value_IsValid colsF = true ->
     uniqueF = VBool tb b -> Value_IsValid whereF = true ->
     Value_Kind colsF <> KSlice ->
     run = (Err (ErrColumnsNotSlice (Value_String nameF)), w1)).
Proof.
  intros Hpre run def nameF colsF uniqueF whereF. subst run.
  repeat split.
  - intros Hk.
    eapply (collect_at _ _ _ _ _ _ _ _ _ (Err _)); [done| |done].
    unfold collect_def. fold def. by rewrite bool_decide_eq_false_2.
  - intros Hk Hinv.
    eapply (collect_at _ _ _ _ _ _ _ _ _ (Err _)); [done| |done].
    unfold collect_def. fold def. rewrite bool_decide_eq_true_2 by done.
    fold nameF colsF uniqueF whereF. simpl.
    by destruct Hinv as [->|[->|[->| ->]]]; simpl;
      rewrite ?orb_true_r.
  - intros Hk Hn Hc Hu Hw Hb.
    eapply (collect_at _ _ _ _ _ _ _ _ _ Panic); [done| |done].
    unfold collect_def. fold def. rewrite bool_decide_eq_true_2 by done.
    fold nameF colsF uniqueF whereF. rewrite Hn, Hc, Hu, Hw. simpl.
    unfold bind. destruct uniqueF; try done. by destruct (Hb t0 b).
  - intros tb b Hk Hn Hc Hu Hw Hs.
    eapply (collect_at _ _ _ _ _ _ _ _ _ (Err _)); [done| |done].
    unfold collect_def. fold def. rewrite bool_decide_eq_true_2 by done.
    fold nameF colsF uniqueF whereF. rewrite Hn, Hc, Hu, Hw. simpl.
    unfold bind, ret. by rewrite bool_decide_eq_false_2.
Qed.

(** X9. In a declaration of the expected shape, a column that is not as
    expected stops the run with an error that carries the name of the
    index and the one-based position of the column: a column that is no
    struct (nor a pointer to one), a struct without a field [Sel], and a
    selector that fails: its error is wrapped. The columns after it are
    not looked at. *)
Theorem column_shape_errors (baseStruct : rtype) (t : gostring)
    (pre : list (Value W)) (x : Value W) (post : list (Value W))
    (tags1 : gmap gostring (list gostring)) (w w1 : W) (tc tb : gostring)
    (cpre : list (Value W)) (col : Value W) (cpost : list (Value W))
    (unique : bool) (tags2 : gmap gostring (list gostring)) (w2 : W) :
  collectIndexTagsFromIndexesValue reflect_New baseStruct (VSlice t pre) w =
    (Ok tags1, w1) ->
  let def := deref x in
  let name := Value_String (Value_FieldByName def (str "Name")) in
  let whereF := Value_FieldByName def (str "Where") in
  let typeF := Value_FieldByName def (str "Type") in
  let where_ := TrimSpace (Value_String whereF) in
  let indexType :=
    if Value_IsValid typeF then TrimSpace (Value_String typeF) else [] in
  Value_Kind def = KStruct ->
  Value_IsValid (Value_FieldByName def (str "Name")) = true ->
  Value_FieldByName def (str "Columns") = VSlice tc (cpre ++ col :: cpost) ->
  Value_FieldByName def (str "Unique") = VBool tb unique ->
  Value_IsValid whereF = true ->
  for_rangeM (collect_column reflect_New name unique where_ indexType)
    0 cpre tags1 w1 = (Ok tags2, w2) ->
  let run :=
    collectIndexTagsFromIndexesValue reflect_New baseStruct
      (VSlice t (pre ++ x :: post)) w in
  let selF := Value_FieldByName (deref col) (str "Sel") in
  (Value_Kind (deref col) <> KStruct ->
   run = (Err (ErrColNotStruct name (length cpre + 1)), w2)) /\
  (Value_Kind (deref col) = KStruct -> Value_IsValid selF = false ->
   run = (Err (ErrMissingSel name (length cpre + 1)), w2)) /\
  (forall e w3,
     Value_Kind (deref col) = KStruct -> Value_IsValid selF = true ->
     fieldNameFromSelectorValue reflect_New selF w2 = (Err e, w3) ->
     run = (Err (ErrColumn name (length cpre + 1) e), w3)).
Proof.
  intros Hpre def name whereF typeF where_ indexType Hk Hn Hc Hu Hw Hcols
    run selF. subst run.
  assert (Hdef : collect_def reflect_New tags1 (length pre) x w1 =
            for_rangeM (collect_column reflect_New name unique where_ indexType)
              0 (cpre ++ col :: cpost) tags1 w1).
  { unfold collect_def. fold def. rewrite bool_decide_eq_true_2 by done.
    fold whereF typeF. rewrite Hn, Hc, Hu, Hw. simpl. unfold bind. done. }
  repeat split.
  - intros Hcol.
    eapply (collect_at _ _ _ _ _ _ _ _ _ (Err _)); [done| |done].
    rewrite Hdef.
    eapply (for_rangeM_fail_fast _ _ _ _ _ _ _ _ _ (Err _)); [done| |done].
    unfold collect_column. by rewrite bool_decide_eq_false_2.
  - intros Hcol Hsel.
    eapply (collect_at _ _ _ _ _ _ _ _ _ (Err _)); [done| |done].
    rewrite Hdef.
    eapply (for_rangeM_fail_fast _ _ _ _ _ _ _ _ _ (Err _)); [done| |done].
    unfold collect_column. rewrite bool_decide_eq_true_2 by done.
    fold selF. by rewrite Hsel.
  - intros e w3 Hcol Hsel Hres.
    eapply (collect_at _ _ _ _ _ _ _ _ _ (Err _)); [done| |done].
    rewrite Hdef.
    eapply (for_rangeM_fail_fast _ _ _ _ _ _ _ _ _ (Err _)); [done| |done].
    unfold collect_column. rewrite bool_decide_eq_true_2 by done.
    fold selF. rewrite Hsel. simpl. unfold bind, wrap_error.
    by rewrite Hres.
Qed.

End AssemblerFurther.

(** ** Pointers to declarations, and fields that are not there *)

Lemma deref_maybe_pointer_to {W} (v v' : Value W) :
  maybe_pointer_to v v' -> deref v' = deref v.
Proof.
  intros [->|(t & a & Ha & Hk & ->)]; [done|].
  unfold deref at 2. rewrite bool_decide_eq_false_2 by done.
  unfold deref. simpl. by destruct (Z.eqb_spec a 0).
Qed.

(** [String] on a value that is no string describes it between angle
    brackets: nothing for [TrimSpace] to remove. *)
Lemma Value_String_described {W} (v : Value W) :
  (forall s, v <> VString s) ->
  exists q, Value_String v = str "<" ++ q ++ str ">" /\
            TrimSpace (Value_String v) = Value_String v.
Proof.
  intros Hv.
  assert (Hshape : exists q, Value_String v = str "<" ++ q ++ str ">").
  { destruct v as [|tv b|s|tv ft body|tv e|tv a tgt|tv es|tv fs|tv k];
      try (by destruct (Hv s));
      try (by exists (str "invalid Value"));
      (exists (tv ++ str " Value"); simpl; by rewrite <- app_assoc). }
  destruct Hshape as [q Hq]. exists q. split; [done|].
  apply TrimSpace_id. rewrite Hq. split; [done|].
  rewrite app_assoc, rev_app_distr. done.
Qed.

Section PointersAndOptions.
Context {W : Type} (reflect_New : rtype -> W -> Z * W).

Lemma collect_def_pointer tags i (v v' : Value W) :
  maybe_pointer_to v v' ->
  collect_def reflect_New tags i v' = collect_def reflect_New tags i v.
Proof.
  intros H. unfold collect_def. by rewrite (deref_maybe_pointer_to v v').
Qed.

Lemma collect_column_pointer name unique where_ indexType tags j
    (v v' : Value W) :
  maybe_pointer_to v v' ->
  collect_column reflect_New name unique where_ indexType tags j v' =
  collect_column reflect_New name unique where_ indexType tags j v.
Proof.
  intros H. unfold collect_column. by rewrite (deref_maybe_pointer_to v v').
Qed.

Lemma for_rangeM_ext {A St} (body body' : St -> nat -> A -> M W St)
    (l l' : list A) (R : A -> A -> Prop) :
  (forall acc i x x', R x x' -> body' acc i x' = body acc i x) ->
  Forall2 R l l' ->
  forall i acc w, for_rangeM body' i l' acc w = for_rangeM body i l acc w.
Proof.
  intros Hbody Hl. induction Hl as [|x x' l l' Hx Hl IH]; intros i acc w.
  - done.
  - simpl. unfold bind. rewrite (Hbody acc i x x' Hx).
    destruct (body acc i x w) as [[acc1| |] w1]; [apply IH|done..].
Qed.

(** X10. Declarations and columns may be given by pointers: a slice of
    non-nil pointers to declarations is processed as the slice of the
    declarations themselves, and so are pointers to columns; the result,
    the error and the world are the same. *)
Theorem pointer_declarations :
  (forall (baseStruct : rtype) (t t' : gostring)
          (elems elems' : list (Value W)) (w : W),
     Forall2 maybe_pointer_to elems elems' ->
     collectIndexTagsFromIndexesValue reflect_New baseStruct
       (VSlice t' elems') w =
     collectIndexTagsFromIndexesValue reflect_New baseStruct
       (VSlice t elems) w) /\
  (forall (tags : gmap gostring (list gostring)) (i : nat) (ts tc tc' : gostring)
          (fields fields' : list (gostring * Value W))
          (cols cols' : list (Value W)) (w : W),
     Forall2 maybe_pointer_to cols cols' ->
     Forall2 (fun f f' =>
       f.1 = f'.1 /\
       if bool_decide (f.1 = str "Columns")
       then f.2 = VSlice tc cols /\ f'.2 = VSlice tc' cols'
       else f.2 = f'.2) fields fields' ->
     collect_def reflect_New tags i (VStruct ts fields') w =
     collect_def reflect_New tags i (VStruct ts fields) w).
Proof.
  split.
  - intros baseStruct t t' elems elems' w H. simpl.
    apply (for_rangeM_ext _ _ _ _ maybe_pointer_to); [|done].
    intros acc i x x' Hx. by apply collect_def_pointer.
  - intros tags i ts tc tc' fields fields' cols cols' w Hcols Hfields.
    assert (Hlook : forall n, n <> str "Columns" ->
              lookup_field fields' n = lookup_field fields n).
    { intros n Hn. induction Hfields as [|[k v] [k' v'] fs fs' [Hk Hv] _ IH];
        [done|]. simpl in *. subst k'.
      destruct (decide (k = n)) as [->|Hkn].
      - rewrite !bool_decide_eq_true_2 by done.
        by rewrite bool_decide_eq_false_2 in Hv.
      - by rewrite !bool_decide_eq_false_2. }
    assert (Hc : (lookup_field fields (str "Columns") = VInvalid /\
                  lookup_field fields' (str "Columns") = VInvalid) \/
                 (lookup_field fields (str "Columns") = VSlice tc cols /\
                  lookup_field fields' (str "Columns") = VSlice tc' cols')).
    { clear Hlook.
      induction Hfields as [|[k v] [k' v'] fs fs' [Hk Hv] _ IH];
        [by left|]. simpl in *. subst k'.
      destruct (decide (k = str "Columns")) as [->|Hkn].
      - rewrite !bool_decide_eq_true_2 by done.
        rewrite bool_decide_eq_true_2 in Hv by done. by right.
      - by rewrite !bool_decide_eq_false_2. }
    unfold collect_def, deref. simpl.
    rewrite (Hlook (str "Name")), (Hlook (str "Unique")),
      (Hlook (str "Where")), (Hlook (str "Type")) by (vm_compute; discriminate).
    destruct Hc as [[-> ->]|[-> ->]]; [done|]. simpl.
    match goal with
    | |- (if ?b then _ else _) _ = _ => destruct b; [done|]
    end.
    unfold bind.
    destruct (Value_Bool (lookup_field fields (str "Unique")) w)
      as [[b| |] w1]; [|done..].
    apply (for_rangeM_ext _ _ _ _ maybe_pointer_to); [|done].
    intros acc j x x' Hx. by apply collect_column_pointer.
Qed.

(** X11. The fields [Type] of a declaration and [OpClass] of a column may
    be missing, and then there is no marker for them. The fields [Sort]
    and [Nulls] are read without such a check: a column whose [Sort] is
    missing, or is no string, always has a marker [sort:], made of the
    description of the value between angle brackets. *)
Theorem optional_fields name unique where_ indexType (j : nat)
    (sortF nullF opClassF : Value W) (fname : gostring) :
  (Value_IsValid opClassF = false ->
   forall p, ~ (str "expression:" ++ p
                  ∈ column_parts name unique where_ indexType j
                      sortF nullF opClassF fname)) /\
  ((forall s, sortF <> VString s) ->
   exists q rest,
     Value_String sortF = str "<" ++ q ++ str ">" /\
     str "sort:" ++ Value_String sortF ++ rest
       ∈ column_parts name unique where_ indexType j
           sortF nullF opClassF fname) /\
  (column_parts (W:=W) name unique where_ indexType j
     VInvalid VInvalid VInvalid fname =
   [str "index:" ++ name; str "priority:" ++ itoa (j + 1);
    str "sort:<invalid Value> nulls <invalid Value>"]
   ++ (if (j =? 0)%nat && unique then [str "unique"] else [])
   ++ (if (j =? 0)%nat && bool_decide (where_ ≠ [])
       then [str "where:" ++ where_] else [])
   ++ (if (j =? 0)%nat && bool_decide (indexType ≠ [])
       then [str "type:" ++ indexType] else [])).
Proof.
  split; [|split].
  - intros Hv p [Hv' _]%expression_marker_iff. congruence.
  - intros Hs. destruct (Value_String_described sortF Hs) as (q & Hq & Htrim).
    exists q. eexists. split; [done|].
    apply sort_marker_iff. rewrite Htrim. split; [|reflexivity].
    rewrite Hq. done.
  - rewrite column_parts_eq. simpl. by rewrite app_nil_r.
Qed.

End PointersAndOptions.

(** ** The naming normalizer on its own results *)

Lemma boundary_before_not_upper (s : gostring) (i : nat) (r : rune) :
  s !! i = Some r -> is_upper r = false -> boundary_before s i = false.
Proof. intros Hi Hr. unfold boundary_before. by rewrite Hi, Hr. Qed.

Lemma concat_singletons {A} (l : list A) :
  concat ((fun x => [x]) <$> l) = l.
Proof. induction l as [|x l IH]; [done|]. simpl. by f_equal. Qed.

Lemma toSnakeCase_no_upper_id (s : gostring) :
  Forall (fun r => is_upper r = false) s -> toSnakeCase s = s.
Proof.
  intros Hs. rewrite toSnakeCase_spec. unfold snake_spec.
  rewrite (imap_ext _ (const (fun r => [r]))).
  - rewrite imap_const. apply concat_singletons.
  - intros i r Hi.
    assert (Hr : is_upper r = false).
    { rewrite Forall_forall in Hs. apply Hs.
      by eapply list_elem_of_lookup_2. }
    rewrite (boundary_before_not_upper s i r Hi Hr). simpl.
    unfold lowercase. by rewrite Hr.
Qed.

Lemma concat_imap_length {A B} (f : nat -> A -> list B) (l : list A) :
  (forall i x, 1 <= length (f i x) <= 2) ->
  length l <= length (concat (imap f l)) <= 2 * length l.
Proof.
  revert f. induction l as [|x l IH]; intros f Hf; [simpl; lia|].
  simpl. rewrite length_app.
  specialize (IH (f ∘ S) (fun i x => Hf (S i) x)).
  specialize (Hf 0 x). lia.
Qed.

(** X12. The naming normalizer leaves a string without upper-case letters
    as it is, so that it changes nothing on its own results; it makes a
    string longer by at most one underscore for each rune but the first;
    and it gives one column name to field names that differ. *)
Theorem toSnakeCase_stable :
  (forall s : gostring,
     Forall (fun r => is_upper r = false) s -> toSnakeCase s = s) /\
  (forall s : gostring, toSnakeCase (toSnakeCase s) = toSnakeCase s) /\
  (forall s : gostring,
     length s <= length (toSnakeCase s) <= 2 * length s - 1) /\
  (str "TenantID" <> str "TenantId" /\
   toSnakeCase (str "TenantID") = toSnakeCase (str "TenantId")).
Proof.
  split; [exact toSnakeCase_no_upper_id|]. split; [|split].
  - intros s. apply toSnakeCase_no_upper_id, toSnakeCase_no_upper.
  - intros s. rewrite toSnakeCase_spec. unfold snake_spec.
    destruct s as [|r s]; [simpl; lia|].
    change (imap ?f (r :: s)) with (f 0 r :: imap (f ∘ S) s).
    simpl concat. rewrite length_app.
    pose proof (concat_imap_length
      ((fun i r0 => (if boundary_before (r :: s) i then [95%Z] else [])
                    ++ [lowercase r0]) ∘ S) s) as Hrest.
    destruct Hrest as [Hlo Hhi].
    { intros i x. simpl. destruct (boundary_before (r :: s) (S i)); simpl; lia. }
    assert (Hfirst : boundary_before (r :: s) 0 = false).
    { unfold boundary_before. simpl. by rewrite andb_false_r. }
    rewrite Hfirst. simpl in *. lia.
  - split; [discriminate|]. vm_compute. reflexivity.
Qed.

(** ** Struct tags read, written and read again *)

Lemma Join_Split (s : gostring) (sep : rune) :
  Join (Split s sep) [sep] = s.
Proof.
  induction s as [|r s IH]; [done|]. simpl.
  destruct (Z.eqb_spec r sep) as [->|Hne].
  - rewrite Join_cons by apply Split_nonempty. simpl. by rewrite IH.
  - destruct (Split s sep) as [|p ps] eqn:Hs;
      [by destruct (Split_nonempty s sep)|].
    destruct ps as [|p' ps]; simpl in *; by rewrite <- IH.
Qed.

Lemma kept_elem_trimmed (g p : gostring) :
  p ∈ kept g -> TrimSpace p = p /\ is_index_piece p = false.
Proof.
  unfold kept. intros [Hp Hin]%list_elem_of_filter. split; [|done].
  apply list_elem_of_fmap in Hin as (q & -> & _). apply TrimSpace_idemp.
Qed.

(** X13. Stripping is idempotent; in what it returns no piece, trimmed,
    begins with [index:] or [uniqueIndex:]; it returns its argument when
    the pieces of the argument are trimmed and none is an index piece;
    and it returns the empty string when all are index pieces. *)
Theorem strip_index_pieces :
  (forall g, stripIndexPiecesFromGormTag (stripIndexPiecesFromGormTag g) =
             stripIndexPiecesFromGormTag g) /\
  (forall g, Forall (fun p => is_index_piece (TrimSpace p) = false)
               (Split (stripIndexPiecesFromGormTag g) 59%Z)) /\
  (forall g, Forall (fun p => is_trimmed p /\ is_index_piece p = false)
               (Split g 59%Z) ->
             stripIndexPiecesFromGormTag g = g) /\
  (forall g, Forall (fun p => is_index_piece (TrimSpace p) = true)
               (Split g 59%Z) ->
             stripIndexPiecesFromGormTag g = []).
Proof.
  split; [exact strip_idemp|]. split; [|split].
  - intros g. rewrite strip_kept.
    destruct g as [|r g]; [by repeat constructor|].
    destruct (kept (r :: g)) as [|p ps] eqn:Hk; [by repeat constructor|].
    change (str ";") with [59%Z]. rewrite Split_Join.
    + rewrite <- Hk. apply Forall_forall. intros q Hq.
      apply kept_elem_trimmed in Hq as [-> Hq]. done.
    + done.
    + rewrite <- Hk. apply kept_free.
  - intros g Hg. rewrite strip_kept. destruct g as [|r g]; [done|].
    assert (Hk : kept (r :: g) = Split (r :: g) 59%Z).
    { unfold kept. revert Hg. generalize (Split (r :: g) 59%Z).
      intros l Hl. induction Hl as [|p l [Ht Hi] Hl IH]; [done|].
      change (map TrimSpace (p :: l)) with (TrimSpace p :: map TrimSpace l).
      rewrite filter_cons, (TrimSpace_id p Ht), decide_True by done.
      by rewrite IH. }
    rewrite Hk. change (str ";") with [59%Z]. apply Join_Split.
  - intros g Hg. rewrite strip_kept. destruct g as [|r g]; [done|].
    assert (Hk : kept (r :: g) = []).
    { unfold kept. revert Hg. generalize (Split (r :: g) 59%Z).
      intros l Hl. induction Hl as [|p l Hi Hl IH]; [done|].
      change (map TrimSpace (p :: l)) with (TrimSpace p :: map TrimSpace l).
      rewrite filter_cons, decide_False by (by rewrite Hi). done. }
    by rewrite Hk.
Qed.

(** X14. What [parseStructTag] returns has keys made of word runes and
    values without a double quote; such a map is read back from what
    [buildStructTag] writes for it, so that reading, writing and reading
    again gives what the first reading gave, and two such maps that are
    written the same are the same. *)
Theorem struct_tag_round_trip :
  (forall tag k v, parseStructTag tag !! k = Some v ->
     k <> [] /\ Forall (fun r => is_word r = true) k /\ free_of quote v) /\
  (forall kv : gmap gostring gostring,
     map_Forall (fun k v => entry_ok (k, v)) kv ->
     parseStructTag (buildStructTag kv) = kv) /\
  (forall tag,
     parseStructTag (buildStructTag (parseStructTag tag)) =
     parseStructTag tag) /\
  (forall kv1 kv2 : gmap gostring gostring,
     map_Forall (fun k v => entry_ok (k, v)) kv1 ->
     map_Forall (fun k v => entry_ok (k, v)) kv2 ->
     buildStructTag kv1 = buildStructTag kv2 -> kv1 = kv2) /\
  buildStructTag ∅ = [].
Proof.
  split; [|split; [|split; [|split]]].
  - intros tag k v Hl.
    by destruct (parseStructTag_ok tag k v Hl) as [[? ?] ?].
  - exact parse_build.
  - intros tag. apply parse_build, parseStructTag_ok.
  - intros kv1 kv2 H1 H2 Heq.
    by rewrite <- (parse_build kv1), <- (parse_build kv2), Heq.
  - done.
Qed.

Lemma list_to_map_lookup_last (pre post : list (gostring * gostring))
    (k v : gostring) :
  k ∉ post.*1 ->
  list_to_map (M := gmap gostring gostring)
    (reverse (pre ++ (k, v) :: post)) !! k = Some v.
Proof.
  intros Hk. rewrite reverse_app, reverse_cons, <- app_assoc.
  assert (Hk' : k ∉ (reverse post).*1).
  { rewrite fmap_reverse. by rewrite elem_of_reverse. }
  revert Hk'. generalize (reverse post). intros l Hl.
  induction l as [|[k' v'] l IH]; simpl.
  - by rewrite lookup_insert_eq.
  - rewrite fmap_cons, not_elem_of_cons in Hl. destruct Hl as [Hne Hl].
    simpl in Hne. rewrite lookup_insert_ne by done. by apply IH.
Qed.

(** X15. In a tag that writes a key more than once, [parseStructTag] keeps
    the value written last: it reads the entries from left to right and
    each one replaces what the map holds for its key. *)
Theorem parseStructTag_last_wins (entries : list (gostring * gostring)) :
  Forall entry_ok entries ->
  parseStructTag (Join (map tag_part entries) (str " ")) =
    list_to_map (reverse entries) /\
  (forall pre k v post,
     entries = pre ++ (k, v) :: post -> k ∉ post.*1 ->
     parseStructTag (Join (map tag_part entries) (str " ")) !! k = Some v).
Proof.
  intros Hok.
  assert (Hparse : parseStructTag (Join (map tag_part entries) (str " ")) =
                   list_to_map (reverse entries)).
  { unfold parseStructTag, tagKV_FindAllStringSubmatch.
    rewrite scan_join by done. by rewrite foldl_insert_list_to_map. }
  split; [done|]. intros pre k v post -> Hk. rewrite Hparse.
  by apply list_to_map_lookup_last.
Qed.

Lemma merge_gorm_free (kv : gmap gostring gostring) (toAdd : list gostring) :
  map_Forall (fun k v => entry_ok (k, v)) kv ->
  Forall (free_of quote) toAdd ->
  map_Forall (fun k v => entry_ok (k, v)) (merge_gorm kv toAdd).
Proof.
  intros Hkv Hfree. unfold merge_gorm, set_gorm.
  set (stripped := stripIndexPiecesFromGormTag _).
  assert (Hs : free_of quote stripped).
  { apply free_of_strip. destruct (kv !! str "gorm") as [g|] eqn:Hg;
      [|constructor]. simpl. by destruct (Hkv _ _ Hg). }
  assert (Hadd : free_of quote (Join toAdd (str ";"))).
  { apply Forall_Join; [done|by vm_compute; repeat constructor]. }
  assert (Hv : free_of quote (merged_value stripped toAdd)).
  { clearbody stripped. unfold merged_value. destruct toAdd; [done|].
    destruct stripped; [done|]. unfold free_of. rewrite !Forall_app.
    split; [done|]. split; [by vm_compute; repeat constructor|done]. }
  destruct (merged_value stripped toAdd) eqn:Hm.
  - by apply map_Forall_delete.
  - apply map_Forall_insert_2; [|done]. split; [|done].
    by vm_compute; repeat constructor.
Qed.

(** The tag that the merge writes is read back as the merged map. *)
Lemma mergeIndexIntoGormTag_parse (orig : gostring) (toAdd : list gostring) :
  Forall (free_of quote) toAdd ->
  parseStructTag (mergeIndexIntoGormTag orig toAdd) =
  mergeIndexIntoGormTag_kv orig toAdd.
Proof.
  intros Hfree. unfold mergeIndexIntoGormTag.
  rewrite mergeIndexIntoGormTag_kv_merge_gorm.
  apply parse_build, merge_gorm_free; [apply parseStructTag_ok|done].
Qed.

(** X16. When the fragments to add hold no double quote, the tag that the
    merge writes is read back as the merged map: every key but [gorm]
    has the value it had in the original tag, as [parseStructTag] reads
    it, and [gorm] has what the strip step kept followed by the
    fragments, or is absent when both are empty. A double quote in a
    fragment ends the value of [gorm] where it stands. *)
Theorem merge_reads_back (orig : gostring) (toAdd : list gostring) :
  (Forall (free_of quote) toAdd ->
   parseStructTag (mergeIndexIntoGormTag orig toAdd) =
     mergeIndexIntoGormTag_kv orig toAdd /\
   (forall k, k <> str "gorm" ->
      parseStructTag (mergeIndexIntoGormTag orig toAdd) !! k =
      parseStructTag orig !! k) /\
   parseStructTag (mergeIndexIntoGormTag orig toAdd) !! str "gorm" =
     (let gormVal :=
        merged_value
          (stripIndexPiecesFromGormTag
             (default [] (parseStructTag orig !! str "gorm"))) toAdd in
      match gormVal with [] => None | _ => Some gormVal end)) /\
  parseStructTag
    (mergeIndexIntoGormTag [] [str "index:i,where:a = " ++ [quote; 120%Z; quote]])
    !! str "gorm" = Some (str "index:i,where:a = ").
Proof.
  split; [|by vm_compute].
  intros Hfree.
  pose proof (mergeIndexIntoGormTag_parse orig toAdd Hfree) as Hback.
  split; [done|]. rewrite Hback. split.
  - intros k Hk. by apply mergeIndexIntoGormTag_kv_other.
  - apply mergeIndexIntoGormTag_kv_gorm.
Qed.

(** ** The extension aggregator on any values *)

Section ExtensionsOfValues.
Context {W : Type}.

Lemma foldl_extract_ext_String (vs : list (Value W)) (st : ext_state) :
  foldl (fun st e => extract_ext st 0 e) st vs =
  foldl (fun st e => extract_ext st 0 e) st
    (map (VString (W:=W)) (map Value_String vs)).
Proof. revert st. induction vs as [|v vs IH]; intros st; simpl; auto. Qed.

Lemma extract_def_general (st : ext_state) (i : nat) (def : Value W) :
  extract_def st i def =
  foldl (fun st e => extract_ext st 0 e) st
    (map (VString (W:=W)) (declared_extensions def)).
Proof.
  unfold extract_def, declared_extensions.
  destruct (bool_decide (Value_Kind (deref def) = KStruct)); simpl; [|done].
  destruct (Value_IsValid _); simpl; [|done].
  destruct (bool_decide (Value_Kind _ = KSlice)); simpl; [|done].
  by rewrite extract_ext_foldl, foldl_extract_ext_String.
Qed.

Lemma extract_defs_general (elems : list (Value W)) (i : nat)
    (st : ext_state) :
  for_range extract_def i elems st =
  foldl (fun st e => extract_ext st 0 e) st
    (map (VString (W:=W)) (concat (map declared_extensions elems))).
Proof.
  revert i st. induction elems as [|d elems IH]; intros i st; [done|].
  simpl. rewrite IH, extract_def_general. by rewrite map_app, foldl_app.
Qed.

Lemma extract_loop_result (elems : list (Value W)) :
  (for_range extract_def 0 elems (∅, [])).2 =
  first_occurrences
    (filter (fun x => x <> []) (concat (map declared_extensions elems))).
Proof.
  rewrite extract_defs_general.
  rewrite (extract_ext_loop _ (∅, [])).
  - simpl. apply filter_all. intros x. by intros ?%elem_of_nil.
  - intros x. simpl. rewrite lookup_empty. simpl. split; [done|].
    by intros ?%elem_of_nil.
Qed.

(** X17. Whatever values the method [Indexes] returns, the extension
    aggregator returns no error: the method is called once, the elements
    that are no declarations and the declarations without a slice
    [Extensions] are passed over, and the result is the list of the names
    read from the others, without the empty ones and without
    repetition. *)
Theorem extensions_of_any_values (m : Model W) (w : W) :
  (forall e w', ExtractRequiredExtensions (Some m) w <> (Err e, w')) /\
  (forall method t elems rest w',
     model_MethodByName m (recv_type m) (str "Indexes") = Some method ->
     mNumIn method = 0 -> mNumOut method = 1 ->
     mCall method w = (VSlice t elems :: rest, w') ->
     ExtractRequiredExtensions (Some m) w =
     (Ok (first_occurrences
            (filter (fun x => x <> [])
               (concat (map declared_extensions elems)))), w')) /\
  (forall exts w',
     ExtractRequiredExtensions (Some m) w = (Ok exts, w') ->
     NoDup exts /\ [] ∉ exts).
Proof.
  assert (Hrun : forall method t elems rest w',
     model_MethodByName m (recv_type m) (str "Indexes") = Some method ->
     mNumIn method = 0 -> mNumOut method = 1 ->
     mCall method w = (VSlice t elems :: rest, w') ->
     ExtractRequiredExtensions (Some m) w =
     (Ok (first_occurrences
            (filter (fun x => x <> [])
               (concat (map declared_extensions elems)))), w')).
  { intros method t elems rest w' Hm Hin Hout Hcall.
    unfold ExtractRequiredExtensions. rewrite Hm, Hin, Hout. simpl.
    rewrite (bind_ok _ _ _ _ _ (call_method_run _ _ _ _ _ Hcall)). simpl.
    destruct elems as [|d elems]; [done|].
    simpl length. simpl Nat.eqb. cbv iota.
    pose proof (extract_loop_result (d :: elems)) as Hloop.
    destruct (for_range extract_def 0 (d :: elems) (∅, [])) as [seen exts].
    simpl in Hloop. by rewrite Hloop. }
  assert (Hcases :
    (exists w', ExtractRequiredExtensions (Some m) w = (Ok [], w')) \/
    (exists w', ExtractRequiredExtensions (Some m) w = (Panic, w')) \/
    (exists (elems : list (Value W)) w',
       ExtractRequiredExtensions (Some m) w =
       (Ok (first_occurrences
              (filter (fun x => x <> [])
                 (concat (map declared_extensions elems)))), w'))).
  { destruct (model_MethodByName m (recv_type m) (str "Indexes"))
      as [method|] eqn:Hm.
    2:{ left. exists w. unfold ExtractRequiredExtensions. by rewrite Hm. }
    destruct (Nat.eqb_spec (mNumIn method) 0) as [Hin|Hin].
    2:{ left. exists w. unfold ExtractRequiredExtensions. rewrite Hm.
        apply Nat.eqb_neq in Hin. by rewrite Hin. }
    destruct (Nat.eqb_spec (mNumOut method) 1) as [Hout|Hout].
    2:{ left. exists w. unfold ExtractRequiredExtensions. rewrite Hm.
        apply Nat.eqb_neq in Hout. by rewrite Hout, orb_true_r. }
    destruct (mCall method w) as [[|out rest] w'] eqn:Hcall.
    { right. left. exists w'. unfold ExtractRequiredExtensions.
      rewrite Hm, Hin, Hout. simpl. unfold bind, call_method, bind, lift.
      by rewrite Hcall. }
    assert (Hns : (exists t elems, out = VSlice t elems) \/
                  forall t elems, out <> VSlice t elems).
    { destruct out; try (by right); left; eauto. }
    destruct Hns as [(t & elems & ->)|Hns].
    { right. right. exists elems, w'.
      by apply (Hrun method t elems rest w' eq_refl Hin Hout Hcall). }
    left. exists w'. unfold ExtractRequiredExtensions.
    rewrite Hm, Hin, Hout. simpl.
    rewrite (bind_ok _ _ _ _ _ (call_method_run _ _ _ _ _ Hcall)).
    destruct out as [| | | | | |t elems| |]; try done.
    - by destruct (Hns t elems).
    - simpl. by case_bool_decide. }
  split; [|split; [exact Hrun|]].
  - intros e w' He.
    destruct Hcases as [[w1 H]|[[w1 H]|(elems & w1 & H)]]; congruence.
  - intros exts w' He.
    destruct Hcases as [[w1 H]|[[w1 H]|(elems & w1 & H)]];
      rewrite H in He; try done; injection He as <- <-.
    + split; [constructor|by intros ?%elem_of_nil].
    + split; [apply first_occurrences_NoDup|].
      intros Hin. apply (proj1 (first_occurrences_elem_of _ _)) in Hin.
      by apply list_elem_of_filter in Hin as [Hin _].
Qed.

End ExtensionsOfValues.

(** ** The clone and its migration *)

Lemma clone_fields_loop (tags : gmap gostring (list gostring))
    (fields : list StructField) (i : nat) (acc : list StructField) :
  for_range (fun fields (_ : nat) sf =>
    if negb (exported sf) then fields else
    let newTag :=
      mergeIndexIntoGormTag (sfTag sf) (default [] (tags !! sfName sf)) in
    fields ++ [mkStructField (sfName sf) [] (sfType sf) newTag 0%Z
                 (sfAnonymous sf)]) i fields acc =
  acc ++ map (clone_field tags) (filter (fun sf => exported sf = true) fields).
Proof.
  revert i acc. induction fields as [|sf fields IH]; intros i acc; simpl.
  - by rewrite app_nil_r.
  - rewrite IH, filter_cons. destruct (exported sf) eqn:He.
    + rewrite decide_True by done. simpl. by rewrite <- app_assoc.
    + by rewrite decide_False by done.
Qed.

Lemma clone_fields_eq (tags : gmap gostring (list gostring))
    (fields : list StructField) :
  clone_fields tags fields =
  map (clone_field tags) (filter (fun sf => exported sf = true) fields).
Proof. unfold clone_fields. by rewrite clone_fields_loop. Qed.

(** X18. The clone has a field for each exported field of the model and
    for no other, in the order of the model, with the name, the type and
    the embedding of the field and the merged tag. A field for which
    nothing is recorded has its tag rewritten all the same: the index
    pieces of its [gorm] value are removed. *)
Theorem clone_fields_shape (tags : gmap gostring (list gostring))
    (fields : list StructField) :
  clone_fields tags fields =
    map (fun sf =>
           mkStructField (sfName sf) [] (sfType sf)
             (mergeIndexIntoGormTag (sfTag sf)
                (fragments_of tags (sfName sf)))
             0%Z (sfAnonymous sf))
      (filter (fun sf => exported sf = true) fields) /\
  map sfName (clone_fields tags fields) =
    map sfName (filter (fun sf => exported sf = true) fields) /\
  (forall sf', sf' ∈ clone_fields tags fields ->
     exported sf' = true /\
     exists sf, sf ∈ fields /\ exported sf = true /\
       sfName sf' = sfName sf /\ sfType sf' = sfType sf /\
       sfAnonymous sf' = sfAnonymous sf) /\
  (forall sf, sf ∈ fields -> exported sf = true ->
     fragments_of tags (sfName sf) = [] ->
     exists sf', sf' ∈ clone_fields tags fields /\
       sfName sf' = sfName sf /\
       parseStructTag (sfTag sf') !! str "gorm" =
       match stripIndexPiecesFromGormTag
               (default [] (parseStructTag (sfTag sf) !! str "gorm")) with
       | [] => None
       | g => Some g
       end).
Proof.
  split; [apply clone_fields_eq|]. split; [|split].
  - rewrite clone_fields_eq, map_map. done.
  - intros sf'. rewrite clone_fields_eq.
    intros Hin. apply list_elem_of_In, in_map_iff in Hin as (sf & <- & Hin).
    apply list_elem_of_In, list_elem_of_filter in Hin as [He Hin].
    split; [done|]. by exists sf.
  - intros sf Hin He Hnone. exists (clone_field tags sf). split; [|split].
    + rewrite clone_fields_eq. apply list_elem_of_In, in_map.
      apply list_elem_of_In, list_elem_of_filter. done.
    + done.
    + simpl. rewrite Hnone.
      rewrite mergeIndexIntoGormTag_parse by constructor.
      pose proof (mergeIndexIntoGormTag_kv_gorm (sfTag sf) []) as Hg.
      cbv zeta in Hg. etrans; [exact Hg|].
      by destruct (stripIndexPiecesFromGormTag _).
Qed.

Section SynthesisFurther.
Context {W : Type} (reflect_New : rtype -> W -> Z * W).
Context (reflect_StructOf : list StructField -> option rtype).

(** Synthesis once the declarations are read and the assembler has
    accepted them: the struct type of the clone is made, then the table
    name is asked for. *)
Lemma AutoMigrateModel_clone (m : Model W) (method : Method W)
    (out : Value W) (rest : list (Value W))
    (tags : gmap gostring (list gostring)) (w w0 w1 : W) :
  struct_model m ->
  model_MethodByName m (recv_type m) (str "Indexes") = Some method ->
  mNumIn method = 0 -> mNumOut method = 1 ->
  mCall method w = (out :: rest, w0) ->
  Value_Kind out = KSlice ->
  Value_elems out <> [] ->
  collectIndexTagsFromIndexesValue reflect_New (indirectType (model_Type m))
    out w0 = (Ok tags, w1) ->
  AutoMigrateModel reflect_New reflect_StructOf (Some m) w =
  match reflect_StructOf
          (clone_fields tags
             (default [] (rtype_fields (indirectType (model_Type m))))) with
  | None => (Panic, w1)
  | Some dyn =>
      match model_Tabler m (model_Type m) with
      | Some tableName =>
          (Ok (mkDbCall (Some (tableName TheModel w1).1) (Projection dyn)),
           (tableName TheModel w1).2)
      | None =>
          match model_Tabler m (recv_type m) with
          | Some tableName =>
              let ptrModel :=
                if bool_decide (rtype_Kind (model_Type m) = KPointer)
                then TheModel else NewZero in
              (Ok (mkDbCall (Some (tableName ptrModel w1).1)
                     (Projection dyn)),
               (tableName ptrModel w1).2)
          | None => (Ok (mkDbCall None (Projection dyn)), w1)
          end
      end
  end.
Proof.
  intros Hs Hm Hin Hout Hcall Hk Hne Hrun.
  rewrite (AutoMigrateModel_out reflect_New reflect_StructOf m _ w w0 _ _
             Hs Hm Hin Hout Hcall).
  rewrite (bool_decide_eq_true_2 _ Hk). simpl.
  replace (length (Value_elems out) =? 0) with false
    by (symmetry; apply Nat.eqb_neq; by destruct (Value_elems out)).
  rewrite (bind_ok _ _ _ _ _ Hrun).
  destruct (reflect_StructOf _) as [dyn|]; [|done].
  destruct (model_Tabler m (model_Type m)) as [tableName|].
  { unfold bind, lift, ret. by destruct (tableName TheModel w1). }
  destruct (model_Tabler m (recv_type m)) as [tableName|]; [|done].
  unfold bind, lift, ret. cbv zeta.
  by destruct (tableName _ w1).
Qed.

(** X19. When the model's [Indexes] returns declarations and the
    assembler accepts them, the model itself is never migrated. The
    fields of the clone, made of the fields of the model's struct type
    and the fragments recorded, are given to [reflect.StructOf]: when it
    panics, synthesis panics, in the world the assembler leaves, and
    nothing is migrated; when it returns a type, a new value of that
    type is migrated, under the name that [TableName] returns on the
    model if the type of the model implements [Tabler]; else, for a
    model that is no pointer and whose pointer type implements it, under
    the name that [TableName] returns on a new zero value; else under no
    table name. *)
Theorem synthesis_success {T} (m : Model W)
    (indexes : W -> list (IndexDefinition W T) * W)
    (defs : list (IndexDefinition W T))
    (tags : gmap gostring (list gostring)) (w w0 w1 : W)
    (fields : list StructField) :
  struct_model m ->
  model_MethodByName m (recv_type m) (str "Indexes") =
    Some (Indexes_method indexes) ->
  indexes w = (defs, w0) ->
  defs <> [] ->
  collectIndexTagsFromIndexesValue reflect_New (indirectType (model_Type m))
    (ValueOf_Indexes defs) w0 = (Ok tags, w1) ->
  fields = clone_fields tags
             (default [] (rtype_fields (indirectType (model_Type m)))) ->
  (reflect_StructOf fields = None ->
   AutoMigrateModel reflect_New reflect_StructOf (Some m) w = (Panic, w1)) /\
  (forall dyn, reflect_StructOf fields = Some dyn ->
     (forall tableName,
        model_Tabler m (model_Type m) = Some tableName ->
        AutoMigrateModel reflect_New reflect_StructOf (Some m) w =
        (Ok (mkDbCall (Some (tableName TheModel w1).1) (Projection dyn)),
         (tableName TheModel w1).2)) /\
     (forall tableName,
        model_Tabler m (model_Type m) = None ->
        model_Tabler m (recv_type m) = Some tableName ->
        rtype_Kind (model_Type m) <> KPointer /\
        AutoMigrateModel reflect_New reflect_StructOf (Some m) w =
        (Ok (mkDbCall (Some (tableName NewZero w1).1) (Projection dyn)),
         (tableName NewZero w1).2)) /\
     (model_Tabler m (model_Type m) = None ->
      model_Tabler m (recv_type m) = None ->
      AutoMigrateModel reflect_New reflect_StructOf (Some m) w =
      (Ok (mkDbCall None (Projection dyn)), w1))).
Proof.
  intros Hs Hm Hcall Hne Hrun ->.
  assert (Hc : mCall (Indexes_method indexes) w =
               ([ValueOf_Indexes defs], w0)).
  { simpl. by rewrite Hcall. }
  assert (Hlen : Value_elems (ValueOf_Indexes defs) <> []).
  { simpl. by destruct defs. }
  pose proof (AutoMigrateModel_clone m _ _ [] tags w w0 w1 Hs Hm eq_refl
                eq_refl Hc eq_refl Hlen Hrun) as Hclone.
  split.
  - intros Hso. by rewrite Hclone, Hso.
  - intros dyn Hso. rewrite Hso in Hclone. split; [|split].
    + intros tableName Ht. by rewrite Hclone, Ht.
    + intros tableName Ht Hp. rewrite Ht, Hp in Hclone.
      assert (Hk : rtype_Kind (model_Type m) <> KPointer).
      { intros Hk. unfold recv_type in Hp.
        rewrite (bool_decide_eq_true_2 _ Hk) in Hp. congruence. }
      split; [done|].
      by rewrite Hclone, (bool_decide_eq_false_2 _ Hk).
    + intros Ht Hp. by rewrite Hclone, Ht, Hp.
Qed.

Lemma fragment_of_free {T} (r : rune) (d : IndexDefinition W T) (j : nat)
    (c : Col W T) (fname : gostring) :
  ~ (48 <= r <= 57)%Z -> ~ (95 <= r <= 122)%Z -> r <> 32%Z -> r <> 58%Z ->
  r <> 44%Z ->
  decl_free_of r d -> c ∈ Columns d -> free_of r fname ->
  free_of r (fragment_of d j c fname).
Proof.
  intros Hd Hl Hsp Hco Hcm (Hn & Hw & Ht & Hcols) Hc Hf.
  rewrite Forall_forall in Hcols. destruct (Hcols c Hc) as (Hs & Hnu & Ho).
  unfold fragment_of. apply Forall_Join.
  - unfold fragment_parts. apply column_parts_free; simpl; try done;
      by apply Forall_TrimSpace.
  - by repeat constructor.
Qed.

Lemma resolves_to_field {tn fields} (c : Col W (TStruct tn fields))
    (fname : gostring) :
  resolves_to reflect_New c fname ->
  exists sf, sf ∈ fields /\ exported sf = true /\ sfName sf = fname.
Proof.
  intros (w1 & w2 & Hres).
  apply fieldNameFromSelectorValue_sound in Hres
    as (t & ft & body & tn' & fields' & base & w3 & res & i & sf & Hsel &
        Hin & _ & _ & _ & _ & _ & Hi & He & Hname & _).
  unfold ValueOf_Sel in Hsel. injection Hsel as _ <- _. simpl in Hin.
  injection Hin as <- <-. exists sf. split; [|done].
  by eapply list_elem_of_lookup_2.
Qed.

(** X20. When a model declares indexes on its own struct type, no string
    of a declaration and no field name holds a double quote, and the
    assembler succeeds, every column has its fragment in the clone: the
    column resolves to an exported field of the model, the clone has the
    field of that name, and the [gorm] value read from the tag of that
    field ends with the fragments recorded for the field, joined by
    semicolons, the fragment of the column among them. *)
Theorem synthesis_carries_fragments {tn fields}
    (defs : list (IndexDefinition W (TStruct tn fields)))
    (tags : gmap gostring (list gostring)) (w w' : W) :
  collectIndexTagsFromIndexesValue reflect_New (TStruct tn fields)
    (ValueOf_Indexes defs) w = (Ok tags, w') ->
  Forall (decl_free_of quote) defs ->
  Forall (fun sf => free_of quote (sfName sf)) fields ->
  forall i d j c, defs !! i = Some d -> Columns d !! j = Some c ->
    exists sf sf' before,
      sf ∈ fields /\ exported sf = true /\
      resolves_to reflect_New c (sfName sf) /\
      fragment_of d j c (sfName sf) ∈ fragments_of tags (sfName sf) /\
      sf' ∈ clone_fields tags fields /\
      sfName sf' = sfName sf /\ sfType sf' = sfType sf /\
      parseStructTag (sfTag sf') !! str "gorm" =
        Some (before ++ Join (fragments_of tags (sfName sf)) (str ";")).
Proof.
  intros Hrun Hdefs Hfields i d j c Hd Hc.
  destruct (collect_emits reflect_New _ defs w tags w' Hrun i d j c Hd Hc)
    as (fname & Hres & Hfrag).
  destruct (resolves_to_field c fname Hres) as (sf & Hsf & He & <-).
  assert (Hfree : Forall (free_of quote) (fragments_of tags (sfName sf))).
  { apply Forall_forall. intros x Hx.
    destruct (collect_only reflect_New _ defs w tags w' Hrun _ x Hx)
      as (i' & d' & j' & c' & Hd' & Hc' & Hres' & ->).
    apply fragment_of_free; try (unfold quote; lia).
    - rewrite Forall_forall in Hdefs. apply Hdefs.
      by eapply list_elem_of_lookup_2.
    - by eapply list_elem_of_lookup_2.
    - rewrite Forall_forall in Hfields. by apply Hfields. }
  set (stripped := stripIndexPiecesFromGormTag
         (default [] (parseStructTag (sfTag sf) !! str "gorm"))).
  exists sf, (clone_field tags sf),
    (match stripped with [] => [] | _ => stripped ++ str ";" end).
  repeat split; try done.
  - rewrite clone_fields_eq. apply list_elem_of_In, in_map.
    apply list_elem_of_In, list_elem_of_filter. done.
  - simpl. rewrite (mergeIndexIntoGormTag_parse _ _ Hfree).
    pose proof (mergeIndexIntoGormTag_kv_gorm (sfTag sf)
                  (fragments_of tags (sfName sf))) as Hg.
    cbv zeta in Hg. etrans; [exact Hg|]. clear Hg. fold stripped.
    destruct (fragments_of tags (sfName sf)) as [|x frags] eqn:Hfr;
      [by apply elem_of_nil in Hfrag|].
    assert (Hne : Join (x :: frags) (str ";") <> []).
    { assert (Hx : x <> []).
      { destruct (collect_only reflect_New _ defs w tags w' Hrun
                    (sfName sf) x) as (i' & d' & j' & c' & _ & _ & _ & ->).
        - rewrite Hfr. by left.
        - intros Heq.
          pose proof (fragment_of_index_prefix d' j' c' (sfName sf)) as Hp.
          by rewrite Heq in Hp. }
      destruct x; [done|]. by destruct frags. }
    revert Hne. generalize (Join (x :: frags) (str ";")). intros g Hg.
    destruct stripped as [|r s].
    + by destruct g.
    + by rewrite <- app_assoc.
Qed.

Local Ltac alike :=
  split; [done|]; split; [done|]; intros; simplify_eq.

(** X21. A struct given by value and given by pointer, when the method
    [Indexes] found on the pointer type is the same for both, the method
    [TableName] of the pointer type is the same code for both, and a
    [TableName] of the value type is also that of the pointer type. The
    extension aggregator returns the same for both. Synthesis hands the
    same to the migration engine for both, or fails alike. The two runs
    of synthesis are the same, table name and world too, when
    [TableName] returns on a new zero value what it returns on the
    model. But with a [TableName] that only the pointer type has, the
    pointer is migrated under the name that [TableName] returns on the
    model, and the value under the name it returns on a new zero
    value. *)
Theorem value_or_pointer_model (mv mp : Model W) (w : W) :
  rtype_Kind (model_Type mv) <> KPointer ->
  model_Type mp = TPointer (model_Type mv) ->
  model_MethodByName mv (model_Type mp) (str "Indexes") =
    model_MethodByName mp (model_Type mp) (str "Indexes") ->
  model_Tabler mv (model_Type mp) = model_Tabler mp (model_Type mp) ->
  (forall tableName,
     model_Tabler mv (model_Type mv) = Some tableName ->
     model_Tabler mv (model_Type mp) = Some tableName) ->
  ExtractRequiredExtensions (Some mv) w =
    ExtractRequiredExtensions (Some mp) w /\
  migrated (AutoMigrateModel reflect_New reflect_StructOf (Some mv) w) =
    migrated (AutoMigrateModel reflect_New reflect_StructOf (Some mp) w) /\
  ((forall tableName w',
      model_Tabler mv (model_Type mv) = None ->
      model_Tabler mp (model_Type mp) = Some tableName ->
      tableName NewZero w' = tableName TheModel w') ->
   AutoMigrateModel reflect_New reflect_StructOf (Some mv) w =
   AutoMigrateModel reflect_New reflect_StructOf (Some mp) w) /\
  (forall tableName table dyn w',
     model_Tabler mv (model_Type mv) = None ->
     model_Tabler mp (model_Type mp) = Some tableName ->
     AutoMigrateModel reflect_New reflect_StructOf (Some mp) w =
       (Ok (mkDbCall table (Projection dyn)), w') ->
     exists w1,
       table = Some (tableName TheModel w1).1 /\
       w' = (tableName TheModel w1).2 /\
       AutoMigrateModel reflect_New reflect_StructOf (Some mv) w =
       (Ok (mkDbCall (Some (tableName NewZero w1).1) (Projection dyn)),
        (tableName NewZero w1).2)).
Proof.
  intros Hk Hp Hmeth Hcode Hset.
  destruct mv as [T methods_v tabler_v], mp as [Tp methods_p tabler_p].
  simpl in *. subst Tp.
  split.
  { unfold ExtractRequiredExtensions, recv_type. simpl.
    by rewrite (bool_decide_eq_false_2 _ Hk), Hmeth. }
  unfold migrated, AutoMigrateModel, recv_type. simpl.
  rewrite (bool_decide_eq_false_2 _ Hk), <- Hmeth, <- Hcode.
  destruct (bool_decide (rtype_Kind (indirectType T) = KStruct));
    simpl; [|alike].
  destruct (methods_v (TPointer T) (str "Indexes")) as [method|];
    [|alike].
  destruct (negb (mNumIn method =? 0) || negb (mNumOut method =? 1));
    [alike|].
  unfold bind, lift, ret, panic.
  destruct (call_method method w) as [[out| |] w0]; [|alike..].
  destruct (negb (bool_decide (Value_Kind out = KSlice))); [alike|].
  destruct (length (Value_elems out) =? 0); [alike|].
  destruct (collectIndexTagsFromIndexesValue reflect_New (indirectType T)
              out w0) as [[tags| |] w1]; [|alike..].
  destruct (reflect_StructOf _) as [dyn0|]; [|alike].
  destruct (tabler_v T) as [tableName|] eqn:Ht.
  { rewrite (Hset tableName eq_refl). alike. }
  destruct (tabler_v (TPointer T)) as [tableName|] eqn:Htp; [|alike].
  split; [|split].
  - by destruct (tableName NewZero w1), (tableName TheModel w1).
  - intros Hsame. by rewrite (Hsame tableName w1 eq_refl eq_refl).
  - intros tableName' table dyn w' _ [= <-] Hrun. exists w1.
    destruct (tableName TheModel w1) as [t1 w2] eqn:H1.
    injection Hrun as <- <- <-. simpl.
    by destruct (tableName NewZero w1).
Qed.

(** X22. The assembler does not look at the struct type of the model:
    declarations whose selectors are on another type are resolved against
    that type. What is recorded under a name that no exported field of
    the model has is then left out of the clone, without an error. *)
Theorem declarations_on_another_type :
  (forall (b1 b2 : rtype) (defsSlice : Value W) (w : W),
     collectIndexTagsFromIndexesValue reflect_New b1 defsSlice w =
     collectIndexTagsFromIndexesValue reflect_New b2 defsSlice w) /\
  (forall (tags : gmap gostring (list gostring)) (fields : list StructField)
          (f : gostring) (l : list gostring),
     (forall sf, sf ∈ fields -> exported sf = true -> sfName sf <> f) ->
     clone_fields (<[f := l]> tags) fields = clone_fields tags fields).
Proof.
  split; [done|]. intros tags fields f l Hf.
  rewrite !clone_fields_eq. apply map_ext_in. intros sf Hin.
  apply list_elem_of_In, list_elem_of_filter in Hin as [He Hin].
  unfold clone_field, fragments_of.
  by rewrite lookup_insert_ne by (intros Heq; by apply (Hf sf Hin He)).
Qed.

End SynthesisFurther.

(** * The properties at work on the examples *)

(** The selector [&m.TenantID] of [NotebookFile] resolves to
    [TenantID], after one call. *)
Lemma selector_resolution_witness :
  fieldNameFromSelectorValue probe_at
    (selector (str "func") NotebookFile (address_of_body 8)) 0 =
  (Ok (str "TenantID"), 1).
Proof.
  refine (proj1 (selector_resolution probe_at (str "func")
                   (str "NotebookFile") NotebookFile_fields
                   (address_of_body 8) 0 0 1 4096 4104 _ _ _ _ _)
            1 (field "TenantID" t_string
                 (tag_lit "gorm:'type:text;not null'") 8) _ _ _ _).
  - reflexivity.
  - reflexivity.
  - right. eexists _, _, _. reflexivity.
  - discriminate.
  - reflexivity.
  - reflexivity.
  - reflexivity.
  - intros j sf' Hj Hl _. destruct j as [|j]; [|lia].
    injection Hl as <-. simpl. discriminate.
Defined.

(** C1. The comparison of addresses goes wrong where two fields of the
    probe begin at one address. In [Marked] the selector [&m.B] returns
    the address of the top-level exported field [B], and resolution
    returns [A], the zero-size field before it. In [Article] the
    selector [&m.Audit.CreatedBy] returns the address of a nested field,
    and resolution returns [Audit] and no error, while the selector of
    the next nested field, [&m.Audit.UpdatedBy], is refused with the
    error that names the rule. *)
Lemma selector_resolution_shared_address :
  (Marked_fields !! 1 = Some (field "B" t_int [] 0) /\
   exported (field "B" t_int [] 0) = true /\
   address_of_body (sfOffset (field "B" t_int [] 0)) 4096 0 =
     ([VInterface (str "interface {}")
         (Some (VPointer (str "*field") 4096 VInvalid))], 1) /\
   fieldNameFromSelectorValue probe_at
     (selector (str "func") Marked (address_of_body 0)) 0 =
     (Ok (str "A"), 1) /\
   str "A" <> sfName (field "B" t_int [] 0)) /\
  (rtype_fields Audit =
     Some [field "CreatedBy" t_string [] 0; field "UpdatedBy" t_string [] 16] /\
   fieldNameFromSelectorValue probe_at
     (selector (str "func") Article (address_of_body (0 + 0))) 0 =
     (Ok (str "Audit"), 1) /\
   fieldNameFromSelectorValue probe_at
     (selector (str "func") Article (address_of_body (0 + 16))) 0 =
     (Err (ErrSelNotTopLevelField (str "Article")), 1)).
Proof. repeat split; try reflexivity. vm_compute. discriminate. Qed.

(** The run of the assembler on the declarations of [NotebookFile]. *)
Lemma NotebookFile_run :
  collectIndexTagsFromIndexesValue probe_at NotebookFile
    (ValueOf_Indexes NotebookFile_Indexes) 0 = (Ok NotebookFile_tags, 3).
Proof. vm_compute. reflexivity. Qed.

(** Synthesis on [NotebookFile]: the clone keeps the fields and their
    types, each tag has the fragments of the field after what was there,
    and the clone is migrated under the table name of the model. *)
Lemma NotebookFile_synthesis :
  AutoMigrateModel probe_at StructOf_example
    (Some NotebookFile_table_model) 0 =
  (Ok (mkDbCall (Some (str "notebook_files"))
         (Projection (TStruct [] NotebookFile_projection))), 3).
Proof. vm_compute. reflexivity. Qed.

(** The third column of the index of [NotebookFile]: position 2,
    priority 3. *)
Lemma priority_marker_witness :
  exists fname rest,
    emitted probe_at NotebookFile_tags NotebookFile_index 2 FileName_column
      fname /\
    fragment_parts NotebookFile_index 2 FileName_column fname =
    (str "index:" ++ Name NotebookFile_index)
    :: (str "priority:" ++ itoa (2 + 1)) :: rest.
Proof.
  refine (priority_marker probe_at NotebookFile NotebookFile_Indexes
            0 NotebookFile_tags 3 _ 0 NotebookFile_index 2 FileName_column
            _ _).
  - vm_compute. reflexivity.
  - reflexivity.
  - reflexivity.
Defined.

(** The first column of the index of [NotebookFile] carries the index
    method, and the fragments recorded are those of its three columns. *)
Lemma first_column_markers_witness :
  (exists fname,
     emitted probe_at NotebookFile_tags NotebookFile_index 0 TenantID_column
       fname) /\
  (forall f x, x ∈ fragments_of NotebookFile_tags f ->
     exists i d j c,
       NotebookFile_Indexes !! i = Some d /\ Columns d !! j = Some c /\
       resolves_to probe_at c f /\ x = fragment_of d j c f) /\
  (str "type:" ++ str "gin"
     ∈ fragment_parts NotebookFile_index 0 TenantID_column (str "TenantID")
   <-> 0 = 0 /\ TrimSpace (Type_ NotebookFile_index) <> [] /\
       str "gin" = TrimSpace (Type_ NotebookFile_index)).
Proof.
  pose proof (first_column_markers probe_at NotebookFile
                NotebookFile_Indexes 0 NotebookFile_tags 3) as H.
  destruct H as (Hem & Honly & Hmarks).
  - vm_compute. reflexivity.
  - split; [|split].
    + apply (Hem 0 NotebookFile_index 0 TenantID_column); reflexivity.
    + exact Honly.
    + apply (Hmarks NotebookFile_index 0 TenantID_column (str "TenantID")).
Defined.

(** C2 as stated fails on a blank predicate: [Where] is not empty, and
    the fragment of the first column has the two unconditional markers
    only. *)
Lemma blank_where_no_marker :
  Where blank_where <> [] /\
  collectIndexTagsFromIndexesValue probe_at NotebookFile
    (ValueOf_Indexes [blank_where]) 0 =
    (Ok {[ str "TenantID" := [str "index:i,priority:1"] ]}, 1) /\
  fragment_parts blank_where 0 TenantID_column (str "TenantID") =
    [str "index:i"; str "priority:1"] /\
  str "where:" ++ Where blank_where
    ∉ fragment_parts blank_where 0 TenantID_column (str "TenantID").
Proof.
  split; [discriminate|]. split; [vm_compute; reflexivity|].
  split; [vm_compute; reflexivity|].
  vm_compute. intros H. repeat (apply elem_of_cons in H as [H|H];
    [discriminate H|]). by apply elem_of_nil in H.
Qed.

(** The third column of the index of [NotebookFile] carries the
    expression for its operator class. *)
Lemma expression_marker_witness :
  exists fname,
    emitted probe_at NotebookFile_tags NotebookFile_index 2 FileName_column
      fname /\
    (forall p,
       str "expression:" ++ p
         ∈ fragment_parts NotebookFile_index 2 FileName_column fname <->
       TrimSpace (OpClass FileName_column) <> [] /\
       p = toSnakeCase fname ++ str " "
           ++ TrimSpace (OpClass FileName_column)).
Proof.
  refine (expression_marker probe_at NotebookFile NotebookFile_Indexes
            0 NotebookFile_tags 3 _ 0 NotebookFile_index 2 FileName_column
            _ _).
  - vm_compute. reflexivity.
  - reflexivity.
  - reflexivity.
Defined.

(** C3 as stated fails on a blank operator class: [OpClass] is not
    empty, and the fragment has the two unconditional markers only. *)
Lemma blank_class_no_marker :
  OpClass (Class (Field (address_of 8)) (str " ") : Col nat NotebookFile)
    <> [] /\
  Columns blank_class = [Class (Field (address_of 8)) (str " ")] /\
  collectIndexTagsFromIndexesValue probe_at NotebookFile
    (ValueOf_Indexes [blank_class]) 0 =
    (Ok {[ str "TenantID" := [str "index:i,priority:1"] ]}, 1) /\
  fragment_parts blank_class 0 (Class (Field (address_of 8)) (str " "))
    (str "TenantID") = [str "index:i"; str "priority:1"].
Proof.
  split; [discriminate|]. split; [reflexivity|].
  split; vm_compute; reflexivity.
Qed.

(** The extensions of [NotebookFile]. *)
Lemma extension_aggregation_witness :
  ExtractRequiredExtensions (Some NotebookFile_model) 0 =
  (Ok [str "pg_trgm"; str "btree_gin"], 0).
Proof.
  apply (proj1 (proj2 (proj2 (@extension_aggregation nat))) NotebookFile
           NotebookFile_model (fun n => (NotebookFile_Indexes, n))
           NotebookFile_Indexes 0 0).
  - reflexivity.
  - reflexivity.
Defined.

(** Ranging over the merged map in either order gives the same tag, and
    merging the fragment again gives that tag again. *)
Lemma merge_deterministic_witness :
  buildStructTag_range
    [(str "json", str "x");
     (str "gorm", str "type:text;index:idx_trgm,priority:1")] =
  mergeIndexIntoGormTag (tag_lit "json:'x' gorm:'type:text;index:old'")
    [str "index:idx_trgm,priority:1"] /\
  buildStructTag_range
    [(str "gorm", str "type:text;index:idx_trgm,priority:1");
     (str "json", str "x")] =
  mergeIndexIntoGormTag (tag_lit "json:'x' gorm:'type:text;index:old'")
    [str "index:idx_trgm,priority:1"] /\
  mergeIndexIntoGormTag
    (mergeIndexIntoGormTag (tag_lit "json:'x' gorm:'type:text;index:old'")
       [str "index:idx_trgm,priority:1"])
    [str "index:idx_trgm,priority:1"] =
  mergeIndexIntoGormTag (tag_lit "json:'x' gorm:'type:text;index:old'")
    [str "index:idx_trgm,priority:1"].
Proof.
  pose proof (merge_deterministic
                (tag_lit "json:'x' gorm:'type:text;index:old'")
                [str "index:idx_trgm,priority:1"]) as H.
  destruct H as (_ & _ & _ & Hdet & _ & Hagain).
  split; [|split].
  - apply Hdet. vm_compute. reflexivity.
  - apply Hdet. vm_compute. apply perm_swap.
  - apply Hagain. apply (bool_decide_unpack _). vm_compute. exact I.
Defined.

(** C7 as stated fails on the keys [a] and [a0]: the merge writes [a0]
    before [a], and [a] is before [a0] in the order of strings. And a
    fragment that holds a semicolon, here the one of a declaration whose
    predicate is [a;b], is not merged again into the same tag: the piece
    after the semicolon stays. *)
Lemma merge_keys_not_sorted :
  (mergeIndexIntoGormTag (tag_lit "a:'1' a0:'2'") [] =
     tag_lit "a0:'2' a:'1'" /\
   map fst (tagKV_FindAllStringSubmatch
              (mergeIndexIntoGormTag (tag_lit "a:'1' a0:'2'") [])) =
     [str "a0"; str "a"] /\
   str_le (str "a") (str "a0") /\
   ~ str_le (str "a0") (str "a")) /\
  (fragment_of semicolon_where 0 TenantID_column (str "TenantID") =
     str "index:i,priority:1,where:a;b" /\
   mergeIndexIntoGormTag [] [str "index:i,priority:1,where:a;b"] =
     tag_lit "gorm:'index:i,priority:1,where:a;b'" /\
   mergeIndexIntoGormTag
     (mergeIndexIntoGormTag [] [str "index:i,priority:1,where:a;b"])
     [str "index:i,priority:1,where:a;b"] =
     tag_lit "gorm:'b;index:i,priority:1,where:a;b'").
Proof.
  split.
  - split; [vm_compute; reflexivity|]. split; [vm_compute; reflexivity|].
    split; [vm_compute; reflexivity|]. vm_compute. discriminate.
  - repeat split; vm_compute; reflexivity.
Qed.

(** A struct model without an [Indexes] method is migrated as it is. *)
Lemma no_declarations_passthrough_witness :
  AutoMigrateModel probe_at StructOf_example
    (Some (model_with NotebookFile None)) 0 =
  (Ok (mkDbCall None Original), 0).
Proof.
  refine (proj1 (no_declarations_passthrough probe_at StructOf_example
                   (model_with NotebookFile None) _) 0 _).
  - reflexivity.
  - reflexivity.
Defined.

(** C8 as stated fails on a model that is no struct: [Count] has no
    [Indexes] method, and synthesis returns an error. *)
Lemma no_declarations_not_a_struct :
  model_MethodByName (model_with Count None)
    (recv_type (model_with Count None)) (str "Indexes") = None /\
  AutoMigrateModel probe_at StructOf_example
    (Some (model_with Count None)) 0 =
  (Err (ErrNotAStruct KInt), 0).
Proof. split; reflexivity. Qed.

(** The second column of [stray_index] selects a local variable:
    synthesis returns the resolver's error with the index name and the
    position 2, after the two calls of selectors made so far. *)
Lemma synthesis_errors_witness :
  AutoMigrateModel probe_at StructOf_example (Some stray_model) 0 =
  (Err (ErrColumn (str "idx_stray") 2
          (ErrSelNotTopLevelField (str "NotebookFile"))), 2).
Proof.
  refine (proj2 (proj2 (proj2 (synthesis_errors probe_at StructOf_example))
                   NotebookFile stray_model (fun n => ([stray_index], n))
                   [] stray_index [] [TenantID_column] stray_column
                   [FileName_column]
                   {[ str "TenantID" := [str "index:idx_stray,priority:1"] ]}
                   0 0 1 2 (ErrSelNotTopLevelField (str "NotebookFile"))
                   _ _ _ _ _ _)).
  - reflexivity.
  - reflexivity.
  - reflexivity.
  - reflexivity.
  - vm_compute. reflexivity.
  - vm_compute. reflexivity.
Defined.

(** An [Indexes] method that takes an argument is ignored. *)
Lemma unexpected_Indexes_shape_witness :
  AutoMigrateModel probe_at StructOf_example
    (Some (model_with NotebookFile (Some Indexes_with_argument))) 0 =
    (Ok (mkDbCall None Original), 0) /\
  ExtractRequiredExtensions
    (Some (model_with NotebookFile (Some Indexes_not_a_slice))) 0 =
    (Ok [], 0).
Proof.
  split.
  - refine (proj1 (unexpected_Indexes_shape probe_at StructOf_example
                     (model_with NotebookFile (Some Indexes_with_argument))
                     Indexes_with_argument _) _ _ 0).
    + reflexivity.
    + reflexivity.
    + left. discriminate.
  - refine (proj2 (proj2 (proj2 (unexpected_Indexes_shape probe_at
                     StructOf_example
                     (model_with NotebookFile (Some Indexes_not_a_slice))
                     Indexes_not_a_slice _))) _ _ 0 0
                     (VString (str "none")) [] _ _).
    + reflexivity.
    + reflexivity.
    + reflexivity.
    + reflexivity.
    + discriminate.
Defined.

(** C10 as stated fails on a model that is no struct: [Count] with an
    [Indexes] method that takes an argument is not migrated, synthesis
    returns an error. *)
Lemma unexpected_Indexes_not_a_struct :
  model_MethodByName (model_with Count (Some Indexes_with_argument))
    (recv_type (model_with Count (Some Indexes_with_argument)))
    (str "Indexes") = Some Indexes_with_argument /\
  mNumIn Indexes_with_argument <> 0 /\
  AutoMigrateModel probe_at StructOf_example
    (Some (model_with Count (Some Indexes_with_argument))) 0 =
  (Err (ErrNotAStruct KInt), 0).
Proof. split; [reflexivity|]. split; [discriminate|reflexivity]. Qed.

(** ** The further properties at work on the examples *)

(** A concrete string holds no given rune. *)
Ltac concrete_free :=
  vm_compute; repeat (constructor; [discriminate|]); constructor.

(** The fragment of the first column of the index of [NotebookFile],
    read back by its commas. *)
Lemma fragment_split_witness :
  Split (fragment_of NotebookFile_index 0 TenantID_column (str "TenantID"))
    44%Z =
  fragment_parts NotebookFile_index 0 TenantID_column (str "TenantID").
Proof.
  apply (proj1 (proj2 (fragment_split NotebookFile_index 0 TenantID_column
                         (str "TenantID")))); concrete_free.
Defined.

(** A string is no selector. *)
Lemma selector_shape_errors_witness :
  fieldNameFromSelectorValue probe_at (VString (str "TenantID")) 0 =
  (Err ErrSelNotFunc, 0).
Proof.
  apply (proj1 (selector_shape_errors probe_at (VString (str "TenantID")) 0)).
  discriminate.
Defined.

(** A selector that returns nil is rejected after its call. *)
Lemma selector_result_errors_witness :
  fieldNameFromSelectorValue probe_at
    (selector (str "func") NotebookFile returns_nil_interface) 0 =
  (Err ErrSelNilInterface, 1).
Proof.
  refine (proj1 (proj2 (selector_result_errors probe_at (str "func")
                          NotebookFile returns_nil_interface 0 0 1 4096
                          [VInterface (str "interface {}") None] _ _))
            (str "interface {}") _); reflexivity.
Defined.

(** The resolution of [&m.TenantID] went through every check. *)
Lemma selector_success_sound_witness :
  exists t ft body tname fields base w1 res i sf,
    selector (str "func") NotebookFile (address_of_body 8) =
      VFunc t ft (Some body) /\
    ftIn ft = [TPointer (TStruct tname fields)] /\ ftNumOut ft = 1 /\
    probe_at (TStruct tname fields) 0 = (base, w1) /\
    body base w1 = ([res], 1) /\
    Value_Kind (unwrap_any res) = KPointer /\
    Value_IsNil (unwrap_any res) = false /\
    fields !! i = Some sf /\ exported sf = true /\
    sfName sf = str "TenantID" /\
    (base + sfOffset sf)%Z = Value_Pointer (unwrap_any res) /\
    (forall k sf', k < i -> fields !! k = Some sf' -> exported sf' = true ->
       (base + sfOffset sf')%Z <> Value_Pointer (unwrap_any res)).
Proof.
  apply (selector_success_sound probe_at
           (selector (str "func") NotebookFile (address_of_body 8)) 0 1
           (str "TenantID")).
  reflexivity.
Defined.

(** The index of [NotebookFile] has three columns, and three fragments
    are recorded. *)
Lemma fragment_conservation_witness :
  fragment_count NotebookFile_tags =
    sum_list (map (fun d => length (Columns d)) NotebookFile_Indexes) /\
  (forall f l, NotebookFile_tags !! f = Some l -> l <> []).
Proof.
  apply (fragment_conservation probe_at NotebookFile NotebookFile_Indexes
           0 NotebookFile_tags 3).
  vm_compute. reflexivity.
Defined.

(** The selectors of [NotebookFile] resolve in every world. *)
Lemma fragments_in_declaration_order_witness :
  exists tags w',
    collectIndexTagsFromIndexesValue probe_at NotebookFile
      (ValueOf_Indexes NotebookFile_Indexes) 0 = (Ok tags, w') /\
    forall f, fragments_of tags f =
              all_fragments_for resolved_name f NotebookFile_Indexes.
Proof.
  apply (fragments_in_declaration_order probe_at NotebookFile resolved_name
           NotebookFile_Indexes).
  intros d c Hd Hc w. exists (S w).
  apply list_elem_of_singleton in Hd. subst d.
  simpl in Hc.
  repeat (apply elem_of_cons in Hc as [Hc|Hc]; [subst c; reflexivity|]).
  by apply elem_of_nil in Hc.
Defined.

(** A string in the place of a declaration. *)
Lemma declaration_shape_errors_witness :
  collectIndexTagsFromIndexesValue probe_at NotebookFile
    (VSlice (str "[]string") ([] ++ VString (str "idx") :: [])) 0 =
  (Err (ErrDefNotStruct (length (@nil (Value nat)))), 0).
Proof.
  refine (proj1 (declaration_shape_errors probe_at NotebookFile
                   (str "[]string") [] (VString (str "idx")) [] ∅ 0 0 _) _).
  - reflexivity.
  - discriminate.
Defined.

(** A string in the place of a column. *)
Lemma column_shape_errors_witness :
  collectIndexTagsFromIndexesValue probe_at NotebookFile
    (VSlice (str "[]Decl") ([] ++ string_column_decl :: [])) 0 =
  (Err (ErrColNotStruct (str "i") (length (@nil (Value nat)) + 1)), 0).
Proof.
  refine (proj1 (column_shape_errors probe_at NotebookFile (str "[]Decl")
                   [] string_column_decl [] ∅ 0 0
                   (str "[]string") (str "bool")
                   [] (VString (str "c")) [] false ∅ 0 _ _ _ _ _ _ _) _);
    try reflexivity.
  discriminate.
Defined.

(** The index of [NotebookFile] given by a pointer. *)
Lemma pointer_declarations_witness :
  collectIndexTagsFromIndexesValue probe_at NotebookFile
    (VSlice (str "[]*IndexDefinition")
       [VPointer (str "*IndexDefinition") 8192
          (ValueOf_IndexDefinition NotebookFile_index)]) 0 =
  collectIndexTagsFromIndexesValue probe_at NotebookFile
    (VSlice (str "[]IndexDefinition")
       [ValueOf_IndexDefinition NotebookFile_index]) 0.
Proof.
  apply (proj1 (pointer_declarations probe_at)).
  constructor; [|constructor].
  right. exists (str "*IndexDefinition"), 8192%Z.
  split; [discriminate|]. split; [discriminate|reflexivity].
Defined.

(** A column without the fields [Sort] and [OpClass]. *)
Lemma optional_fields_witness :
  (forall p, ~ (str "expression:" ++ p
                  ∈ column_parts (W:=nat) (str "i") false [] [] 0
                      VInvalid VInvalid VInvalid (str "TenantID"))) /\
  (exists q rest,
     Value_String (W:=nat) VInvalid = str "<" ++ q ++ str ">" /\
     str "sort:" ++ Value_String (W:=nat) VInvalid ++ rest
       ∈ column_parts (W:=nat) (str "i") false [] [] 0
           VInvalid VInvalid VInvalid (str "TenantID")).
Proof.
  pose proof (optional_fields (W:=nat) (str "i") false [] [] 0
                VInvalid VInvalid VInvalid (str "TenantID"))
    as (Hexpr & Hsort & _).
  split.
  - apply Hexpr. reflexivity.
  - apply Hsort. discriminate.
Defined.

(** A column name is left as it is. *)
Lemma toSnakeCase_stable_witness :
  toSnakeCase (str "tenant_id") = str "tenant_id".
Proof.
  apply (proj1 toSnakeCase_stable (str "tenant_id")).
  vm_compute. repeat constructor.
Defined.

(** The [gorm] value of [TenantID] holds no index piece. *)
Lemma strip_index_pieces_witness :
  stripIndexPiecesFromGormTag (str "type:text;not null") =
  str "type:text;not null".
Proof.
  apply (proj1 (proj2 (proj2 strip_index_pieces)) (str "type:text;not null")).
  vm_compute. repeat constructor.
Defined.

(** The tag of the field [ID] of [NotebookFile]. *)
Lemma struct_tag_round_trip_witness :
  parseStructTag
    (buildStructTag {[ str "gorm" := str "primaryKey" ]}) =
  {[ str "gorm" := str "primaryKey" ]}.
Proof.
  apply (proj1 (proj2 struct_tag_round_trip)).
  apply map_Forall_singleton. vm_compute.
  split; [split; [discriminate|repeat constructor]|].
  repeat (constructor; [discriminate|]). constructor.
Defined.

(** A tag with two values for the key [a]. *)
Lemma parseStructTag_last_wins_witness :
  parseStructTag
    (Join (map tag_part [(str "a", str "1"); (str "a", str "2")]) (str " "))
    !! str "a" = Some (str "2").
Proof.
  refine (proj2 (parseStructTag_last_wins
                   [(str "a", str "1"); (str "a", str "2")] _)
            [(str "a", str "1")] (str "a") (str "2") [] _ _).
  - vm_compute.
    repeat (constructor;
            [split; [split; [discriminate|repeat constructor]|];
             repeat (constructor; [discriminate|]); constructor|]).
    constructor.
  - reflexivity.
  - simpl. apply not_elem_of_nil.
Defined.

(** A tag with a key [json] and a prior index piece. *)
Lemma merge_reads_back_witness :
  parseStructTag
    (mergeIndexIntoGormTag (tag_lit "json:'id' gorm:'index:old;not null'")
       [str "index:i,priority:1"]) !! str "json" =
  parseStructTag (tag_lit "json:'id' gorm:'index:old;not null'")
    !! str "json".
Proof.
  refine (proj1 (proj2 (proj1 (merge_reads_back
                   (tag_lit "json:'id' gorm:'index:old;not null'")
                   [str "index:i,priority:1"]) _)) (str "json") _).
  - constructor; [concrete_free|constructor].
  - discriminate.
Defined.

(** The extensions of [NotebookFile]. *)
Lemma extensions_of_any_values_witness :
  NoDup [str "pg_trgm"; str "btree_gin"] /\
  [] ∉ [str "pg_trgm"; str "btree_gin"].
Proof.
  apply (proj2 (proj2 (extensions_of_any_values NotebookFile_model 0))
           [str "pg_trgm"; str "btree_gin"] 0).
  vm_compute. reflexivity.
Defined.

(** The field [ID] of [NotebookFile] is in no index. *)
Lemma clone_fields_shape_witness :
  exists sf', sf' ∈ clone_fields NotebookFile_tags NotebookFile_fields /\
    sfName sf' = sfName (field "ID" t_uint (tag_lit "gorm:'primaryKey'") 0) /\
    parseStructTag (sfTag sf') !! str "gorm" =
    match stripIndexPiecesFromGormTag
            (default []
               (parseStructTag
                  (sfTag (field "ID" t_uint (tag_lit "gorm:'primaryKey'") 0))
                !! str "gorm")) with
    | [] => None
    | g => Some g
    end.
Proof.
  apply (proj2 (proj2 (proj2 (clone_fields_shape NotebookFile_tags
                                NotebookFile_fields)))).
  - by left.
  - reflexivity.
  - vm_compute. reflexivity.
Defined.

(** Synthesis on [NotebookFile] under its table name, and on a struct
    with an embedded field, for which [reflect.StructOf] panics in the
    examples. *)
Lemma synthesis_success_witness :
  AutoMigrateModel probe_at StructOf_example
    (Some NotebookFile_table_model) 0 =
    (Ok (mkDbCall (Some (str "notebook_files"))
           (Projection (TStruct [] NotebookFile_projection))), 3) /\
  AutoMigrateModel probe_at StructOf_example (Some Embedding_model) 0 =
    (Panic, 1).
Proof.
  split.
  - refine (proj1 (proj2 (synthesis_success probe_at StructOf_example
                            NotebookFile_table_model
                            (fun n => (NotebookFile_Indexes, n))
                            NotebookFile_Indexes NotebookFile_tags 0 0 3
                            NotebookFile_projection _ _ _ _ _ _)
                     (TStruct [] NotebookFile_projection) _)
              (fun _ n => (str "notebook_files", n)) _).
    + reflexivity.
    + reflexivity.
    + reflexivity.
    + discriminate.
    + vm_compute. reflexivity.
    + vm_compute. reflexivity.
    + reflexivity.
    + reflexivity.
  - refine (proj1 (synthesis_success probe_at StructOf_example
                     Embedding_model (fun n => (Embedding_Indexes, n))
                     Embedding_Indexes
                     {[ str "TenantID" := [str "index:idx_tenant,priority:1"] ]}
                     0 0 1 _ _ _ _ _ _ eq_refl) _).
    + reflexivity.
    + reflexivity.
    + reflexivity.
    + discriminate.
    + vm_compute. reflexivity.
    + vm_compute. reflexivity.
Defined.

(** The fragment of the third column of the index of [NotebookFile] in
    the clone. *)
Lemma synthesis_carries_fragments_witness :
  exists sf sf' before,
    sf ∈ NotebookFile_fields /\ exported sf = true /\
    resolves_to probe_at FileName_column (sfName sf) /\
    fragment_of NotebookFile_index 2 FileName_column (sfName sf)
      ∈ fragments_of NotebookFile_tags (sfName sf) /\
    sf' ∈ clone_fields NotebookFile_tags NotebookFile_fields /\
    sfName sf' = sfName sf /\ sfType sf' = sfType sf /\
    parseStructTag (sfTag sf') !! str "gorm" =
      Some (before
            ++ Join (fragments_of NotebookFile_tags (sfName sf)) (str ";")).
Proof.
  refine (synthesis_carries_fragments probe_at (tn:=str "NotebookFile")
            (fields:=NotebookFile_fields) NotebookFile_Indexes
            NotebookFile_tags 0 3 _ _ _ 0 NotebookFile_index 2
            FileName_column _ _).
  - vm_compute. reflexivity.
  - constructor; [|constructor].
    split; [concrete_free|]. split; [concrete_free|].
    split; [concrete_free|].
    repeat (constructor; [repeat split; concrete_free|]). constructor.
  - repeat (constructor; [concrete_free|]). constructor.
  - reflexivity.
  - reflexivity.
Defined.

(** [NotebookFile] with a [TableName] on the pointer that reads the
    model: given by pointer it is migrated under [files_acme], given by
    value under [files_]. *)
Lemma value_or_pointer_model_witness :
  exists w1,
    Some (str "files_acme") = Some (tenant_TableName TheModel w1).1 /\
    3 = (tenant_TableName TheModel w1).2 /\
    AutoMigrateModel probe_at StructOf_example (Some tenant_file) 0 =
    (Ok (mkDbCall (Some (tenant_TableName NewZero w1).1)
           (Projection (TStruct [] NotebookFile_projection))),
     (tenant_TableName NewZero w1).2).
Proof.
  refine (proj2 (proj2 (proj2
            (value_or_pointer_model probe_at StructOf_example tenant_file
               tenant_file_pointer 0 _ _ _ _ _)))
            tenant_TableName (Some (str "files_acme"))
            (TStruct [] NotebookFile_projection) 3 _ _ _).
  - discriminate.
  - reflexivity.
  - reflexivity.
  - reflexivity.
  - intros tableName H. discriminate H.
  - reflexivity.
  - reflexivity.
  - vm_compute. reflexivity.
Defined.

(** [NotebookFile] has no field [Title]. *)
Lemma declarations_on_another_type_witness :
  clone_fields (<[str "Title" := [str "index:x,priority:1"]]> NotebookFile_tags)
    NotebookFile_fields =
  clone_fields NotebookFile_tags NotebookFile_fields.
Proof.
  apply (proj2 (declarations_on_another_type probe_at)).
  intros sf Hin _.
  repeat (apply elem_of_cons in Hin as [Hin|Hin]; [subst sf; discriminate|]).
  by apply elem_of_nil in Hin.
Defined.
